(** * openai-proxy: a shallow embedding of the gateway variants

    The repository holds several variants of one Express gateway in front of
    a chat-completion API:

    - [Tracked]    the variant with request tracking and the two timeouts
                   (server-level response timeout, abortable upstream fetch);
    - [Combined]   the variant that defines the sanitizer, the validator and
                   the endpoint translator next to a catch-all route;
    - [CatchAll]   one request of that variant, from the wire through the
                   middleware and the catch-all route to the response;
    - [Validating] the variant that checks the [choices] array inline;
    - [Routes]     the plain forwarding route, the validating route as a
                   whole, and the route of [index.js];
    - [TestProxy]  the response check of the test script.

    JavaScript values are embedded as the inductive type [JS.value];
    exceptions as the [Throw] branch of [JS.result]; strings as lists of
    8-bit code units ([text]); the built-ins the source relies on
    ([JSON.parse], [JSON.stringify], [String.prototype.replace] with the
    regular expressions of the source, [trim], [includes], [split]/[pop],
    [substring]) as executable functions. *)

From Stdlib Require Import ZArith List String Ascii Bool Lia.
From Stdlib Require Import DecimalFacts DecimalPos DecimalN.
Import ListNotations.

Set Warnings "-register-all".

Open Scope string_scope.
Open Scope list_scope.

(** ** Text: JavaScript strings as lists of code units *)

Definition text := list ascii.

(** String literals of the source are written as Rocq string literals. *)
Coercion list_ascii_of_string : string >-> list.

Module Text.

Fixpoint eqb (a b : text) : bool :=
  match a, b with
  | [], [] => true
  | x :: a', y :: b' => Ascii.eqb x y && eqb a' b'
  | _, _ => false
  end.

Definition code (c : ascii) : N := N_of_ascii c.

(** [\s] of a JavaScript regular expression and the white space removed by
    [trim], restricted to code units below 256: TAB, LF, VT, FF, CR, SPACE
    and NBSP. *)
Definition is_space (c : ascii) : bool :=
  let n := code c in
  ((9 <=? n) && (n <=? 13) || (n =? 32) || (n =? 160))%N.

Definition is_digit (c : ascii) : bool :=
  let n := code c in ((48 <=? n) && (n <=? 57))%N.

(** Letter case folding of the [i] flag; it only ever meets the pattern
    letters j, s, o, n. *)
Definition lower (c : ascii) : ascii :=
  let n := code c in
  if ((65 <=? n) && (n <=? 90))%N then ascii_of_N (n + 32) else c.

Fixpoint skip_spaces (s : text) : text :=
  match s with
  | c :: r => if is_space c then skip_spaces r else s
  | [] => []
  end.

(** [strip_prefix p s] is [Some r] when [s = p ++ r]. *)
Fixpoint strip_prefix (p s : text) : option text :=
  match p, s with
  | [], _ => Some s
  | x :: p', y :: s' => if Ascii.eqb x y then strip_prefix p' s' else None
  | _ :: _, [] => None
  end.

(** The same, comparing letters without regard to case ([p] is lower case). *)
Fixpoint strip_prefix_ci (p s : text) : option text :=
  match p, s with
  | [], _ => Some s
  | x :: p', y :: s' =>
      if Ascii.eqb x (lower y) then strip_prefix_ci p' s' else None
  | _ :: _, [] => None
  end.

Definition starts_with (p s : text) : bool :=
  match strip_prefix p s with Some _ => true | None => false end.

(** [String.prototype.includes] *)
Fixpoint includes (s p : text) : bool :=
  starts_with p s ||
  match s with
  | [] => false
  | _ :: r => includes r p
  end.

(** [String.prototype.trim] *)
Definition trim (s : text) : text :=
  rev (skip_spaces (rev (skip_spaces s))).

(** [s.substring(0, n)] *)
Definition substring0 (n : nat) (s : text) : text := firstn n s.

(** [path.split('/').pop()]: the part after the last slash. *)
Fixpoint last_segment_from (acc s : text) : text :=
  match s with
  | [] => rev acc
  | c :: r =>
      if Ascii.eqb c "/" then last_segment_from [] r
      else last_segment_from (c :: acc) r
  end.

Definition last_segment (path : text) : text := last_segment_from [] path.

End Text.

(** ** JavaScript values *)

Module JS.

(** Numbers are decimals [mant / 10 ^ places]; the canonical form has
    [places = 0] or a mantissa that is no multiple of ten.  A double of the
    engine is held as the shortest decimal that reads back as it, which is
    the decimal the engine prints.  The model does not round: it agrees
    with the engine on the decimals that doubles hold exactly in this sense
    ([Json.representable]), and the properties below are stated for those.
    NaN and the infinities are outside the model. *)
Record number := mkNum { mant : Z; places : nat }.

Definition int (z : Z) : number := mkNum z 0.

Inductive value :=
| VUndefined
| VNull
| VBool (b : bool)
| VNum (n : number)
| VStr (s : text)
| VArr (elems : list value)
| VObj (fields : list (text * value)).

(** Exceptions, by the [name] of the thrown object. *)
Inductive exn :=
| Error (message : text)
| TypeError (message : text)
| SyntaxError (message : text)
| AbortError (message : text)
| FetchError (message : text).

Definition message (e : exn) : text :=
  match e with
  | Error m | TypeError m | SyntaxError m | AbortError m | FetchError m => m
  end.

Definition is_abort (e : exn) : bool :=
  match e with AbortError _ => true | _ => false end.

Inductive result (A : Type) :=
| Ok (a : A)
| Throw (e : exn).
Arguments Ok {A} a.
Arguments Throw {A} e.

Definition bind {A B} (r : result A) (k : A -> result B) : result B :=
  match r with
  | Ok a => k a
  | Throw e => Throw e
  end.

Notation "x <- r ;; k" := (bind r (fun x => k))
  (at level 61, r at next level, right associativity).

(** [try { body } catch (error) { handler }] *)
Definition try_catch {A} (body : result A) (handler : exn -> result A)
  : result A :=
  match body with
  | Ok a => Ok a
  | Throw e => handler e
  end.

(** ToBoolean *)
Definition truthy (v : value) : bool :=
  match v with
  | VUndefined | VNull => false
  | VBool b => b
  | VNum n => negb (mant n =? 0)%Z
  | VStr s => match s with [] => false | _ => true end
  | VArr _ | VObj _ => true
  end.

(** [a || b] *)
Definition or_else (a b : value) : value := if truthy a then a else b.

(** [typeof v === 'object'] *)
Definition typeof_object (v : value) : bool :=
  match v with
  | VNull | VArr _ | VObj _ => true
  | _ => false
  end.

Definition typeof_string (v : value) : bool :=
  match v with VStr _ => true | _ => false end.

(** [Array.isArray] *)
Definition isArray (v : value) : bool :=
  match v with VArr _ => true | _ => false end.

Fixpoint lookup (k : text) (fs : list (text * value)) : option value :=
  match fs with
  | [] => None
  | (k', v) :: r => if Text.eqb k k' then Some v else lookup k r
  end.

(** The own property [p] of [v], [undefined] when there is none.  The
    property names the source reads ([id], [choices], [message], [content],
    [role], [name], [description], [days], [prompt], [max_tokens]) are no
    built-in members of arrays, strings, numbers or booleans and are not
    inherited from [Object.prototype], so only objects answer. *)
Definition own (v : value) (p : text) : value :=
  match v with
  | VObj fs => match lookup p fs with Some x => x | None => VUndefined end
  | _ => VUndefined
  end.

(** [v.p]: reading a property of [undefined] or [null] throws. *)
Definition get (v : value) (p : text) : result value :=
  match v with
  | VUndefined =>
      Throw (TypeError ("Cannot read properties of undefined (reading '"
                          ++ p ++ "')"))
  | VNull =>
      Throw (TypeError ("Cannot read properties of null (reading '"
                          ++ p ++ "')"))
  | _ => Ok (own v p)
  end.

(** The element [0] of [v], [undefined] when there is none. *)
Definition item0 (v : value) : value :=
  match v with
  | VArr l => match l with x :: _ => x | [] => VUndefined end
  | VStr s => match s with c :: _ => VStr [c] | [] => VUndefined end
  | VObj _ => own v "0"
  | _ => VUndefined
  end.

(** [v[0]] *)
Definition get0 (v : value) : result value :=
  match v with
  | VUndefined | VNull => get v "0"
  | _ => Ok (item0 v)
  end.

End JS.

(** ** The JSON built-ins *)

Module Json.
Import JS.

(** The double quote, code unit 34. *)
Definition dquote : ascii := "034"%char.

(** *** Numbers *)

Fixpoint uint_text (u : Decimal.uint) : text :=
  match u with
  | Decimal.Nil => []
  | Decimal.D0 r => "0"%char :: uint_text r
  | Decimal.D1 r => "1"%char :: uint_text r
  | Decimal.D2 r => "2"%char :: uint_text r
  | Decimal.D3 r => "3"%char :: uint_text r
  | Decimal.D4 r => "4"%char :: uint_text r
  | Decimal.D5 r => "5"%char :: uint_text r
  | Decimal.D6 r => "6"%char :: uint_text r
  | Decimal.D7 r => "7"%char :: uint_text r
  | Decimal.D8 r => "8"%char :: uint_text r
  | Decimal.D9 r => "9"%char :: uint_text r
  end.

Definition digit_of (c : ascii) : option (Decimal.uint -> Decimal.uint) :=
  match Text.code c with
  | 48 => Some Decimal.D0
  | 49 => Some Decimal.D1
  | 50 => Some Decimal.D2
  | 51 => Some Decimal.D3
  | 52 => Some Decimal.D4
  | 53 => Some Decimal.D5
  | 54 => Some Decimal.D6
  | 55 => Some Decimal.D7
  | 56 => Some Decimal.D8
  | 57 => Some Decimal.D9
  | _ => None
  end%N.

(** The longest run of decimal digits at the head of [s]. *)
Fixpoint scan_digits (s : text) : Decimal.uint * text :=
  match s with
  | [] => (Decimal.Nil, [])
  | c :: r =>
      match digit_of c with
      | Some d => let (u, r') := scan_digits r in (d u, r')
      | None => (Decimal.Nil, s)
      end
  end.

Definition sign_text (neg : bool) : text := if neg then "-" else [].

Definition frac_text (fp : Decimal.uint) : text :=
  match fp with
  | Decimal.Nil => []
  | _ => "." ++ uint_text fp
  end.

(** The digits before and after the decimal point: the digits of the
    mantissa, with zeros put in front until one digit is left before the
    point. *)
Definition split_digits (n : number) : Decimal.uint * Decimal.uint :=
  let u := N.to_uint (Z.abs_N (mant n)) in
  match places n with
  | O => (u, Decimal.Nil)
  | k =>
      let u' := Nat.iter (S k - Decimal.nb_digits u) Decimal.D0 u in
      (Decimal.del_tail k u',
       Decimal.del_head (Decimal.nb_digits u' - k) u')
  end.

(** The text of a number that is written without exponent. *)
Definition plain_text (n : number) : text :=
  let (ip, fp) := split_digits n in
  sign_text (mant n <? 0)%Z ++ uint_text ip ++ frac_text fp.

(** The canonical numbers. *)
Definition canonical (n : number) : bool :=
  match places n with
  | O => true
  | _ => negb (mant n mod 10 =? 0)%Z
  end.

(** The number of digits of the mantissa. *)
Definition digit_count (n : number) : nat :=
  Decimal.nb_digits (N.to_uint (Z.abs_N (mant n))).

(** The position of the decimal point, counted from the first digit of the
    mantissa: the [n] of [Number::toString]. *)
Definition point (n : number) : Z :=
  (Z.of_nat (digit_count n) - Z.of_nat (places n))%Z.

(** [Number::toString] writes digits only when the point lies within 21
    places after and 6 places before the first digit, and for zero. *)
Definition plain (n : number) : bool :=
  (mant n =? 0)%Z || ((-6 <? point n)%Z && (point n <=? 21)%Z).

(** The digits of [u] without the zeros at its end. *)
Fixpoint strip_zeros (fuel : nat) (m : N) : N :=
  match fuel with
  | O => m
  | S f => if ((m mod 10 =? 0) && negb (m =? 0))%N
           then strip_zeros f (m / 10) else m
  end.

(** The text with exponent: the first digit, the other digits after a
    point when there are any, then [e], the sign and the exponent. *)
Definition exponent_text (n : number) : text :=
  let m := Z.abs_N (mant n) in
  let e := (point n - 1)%Z in
  match uint_text (N.to_uint (strip_zeros (digit_count n) m)) with
  | [] => []
  | d :: ds =>
      sign_text (mant n <? 0)%Z ++ d :: match ds with
                                        | [] => []
                                        | _ => "." ++ ds
                                        end
        ++ "e" ++ (if (e <? 0)%Z then "-" else "+")
        ++ uint_text (N.to_uint (Z.abs_N e))
  end.

(** Number to text, as [JSON.stringify] and [ToString] write it. *)
Definition print_number (n : number) : text :=
  if plain n then plain_text n else exponent_text n.

(** The numbers the round trip is stated for: canonical, written without
    exponent, and of at most 15 digits.  A double holds a decimal of up to
    15 significant digits in such a way that the shortest decimal that
    reads back as that double is the decimal itself; so these are numbers
    whose text the engine reads and writes as the model does.  A literal
    with more digits, or beyond the range of the doubles, is read by the
    engine as the nearest double; the model reads every literal as the
    exact decimal it writes. *)
Definition representable (n : number) : bool :=
  canonical n && (Z.abs (mant n) <? 10 ^ 15)%Z && plain n.

(** Canonical form of [m / 10 ^ k]. *)
Fixpoint norm_dec (m : Z) (k : nat) : number :=
  match k with
  | O => mkNum m 0
  | S k' => if (m mod 10 =? 0)%Z then norm_dec (m / 10) k' else mkNum m k
  end.

(** No leading zero: the integer part is [0] or starts with 1..9. *)
Definition int_part_ok (u : Decimal.uint) : bool :=
  match u with
  | Decimal.Nil => false
  | Decimal.D0 Decimal.Nil => true
  | Decimal.D0 _ => false
  | _ => true
  end.

Definition uint_nonempty (u : Decimal.uint) : bool :=
  match u with Decimal.Nil => false | _ => true end.

(** The JSON number grammar: an optional minus sign; the integer part, 0 or
    a digit run that starts with 1..9; an optional fraction, a point and at
    least one digit; an optional exponent, e or E, an optional sign and at
    least one digit. *)
Definition take_sign (s : text) : bool * text :=
  match s with
  | c :: r => if Ascii.eqb c "-" then (true, r) else (false, s)
  | [] => (false, s)
  end.

Definition take_fraction (s : text) : option (Decimal.uint * text) :=
  match s with
  | c :: r =>
      if Ascii.eqb c "." then
        let (fp, s') := scan_digits r in
        if uint_nonempty fp then Some (fp, s') else None
      else Some (Decimal.Nil, s)
  | [] => Some (Decimal.Nil, s)
  end.

Definition take_exponent (s : text) : option (Z * text) :=
  match s with
  | c :: r =>
      if Ascii.eqb c "e" || Ascii.eqb c "E" then
        let (eneg, r1) :=
          match r with
          | d :: r' =>
              if Ascii.eqb d "-" then (true, r')
              else if Ascii.eqb d "+" then (false, r')
              else (false, r)
          | [] => (false, r)
          end in
        let (ep, s') := scan_digits r1 in
        if uint_nonempty ep then
          let e := Z.of_N (N.of_uint ep) in
          Some (if eneg then (- e)%Z else e, s')
        else None
      else Some (0%Z, s)
  | [] => Some (0%Z, s)
  end.

(** The number written with integer digits [ip], fraction digits [fp] and
    exponent [e]. *)
Definition decimal (neg : bool) (ip fp : Decimal.uint) (e : Z) : number :=
  let m := Z.of_N (N.of_uint (Decimal.app ip fp)) in
  let m := if neg then (- m)%Z else m in
  let scale := (Z.of_nat (Decimal.nb_digits fp) - e)%Z in
  if (scale <=? 0)%Z then mkNum (m * 10 ^ (- scale)) 0
  else norm_dec m (Z.to_nat scale).

Definition parse_number (s : text) : option (number * text) :=
  let (neg, s1) := take_sign s in
  let (ip, s2) := scan_digits s1 in
  if negb (int_part_ok ip) then None else
  match take_fraction s2 with
  | None => None
  | Some (fp, s3) =>
      match take_exponent s3 with
      | None => None
      | Some (e, s4) => Some (decimal neg ip fp e, s4)
      end
  end.

(** *** Strings *)

Definition hex_digit (n : N) : ascii :=
  ascii_of_N (if (n <? 10)%N then 48 + n else 87 + n).

(** [QuoteJSONString], one code unit. *)
Definition escape_char (c : ascii) : text :=
  let n := Text.code c in
  if Ascii.eqb c dquote then ["\"%char; dquote]
  else if Ascii.eqb c "\" then "\\"
  else if (n =? 8)%N then "\b"
  else if (n =? 12)%N then "\f"
  else if (n =? 10)%N then "\n"
  else if (n =? 13)%N then "\r"
  else if (n =? 9)%N then "\t"
  else if (n <? 32)%N then "\u00" ++ [hex_digit (n / 16); hex_digit (n mod 16)]
  else [c].

Definition escape (s : text) : text := flat_map escape_char s.

Definition quote (s : text) : text := dquote :: escape s ++ [dquote].

Definition hex_value (c : ascii) : option N :=
  let n := Text.code c in
  if Text.is_digit c then Some (n - 48)%N
  else if ((97 <=? n) && (n <=? 102))%N then Some (n - 87)%N
  else if ((65 <=? n) && (n <=? 70))%N then Some (n - 55)%N
  else None.

(** The code unit of [\uXXXX].  Texts hold 8-bit code units: an escape above
    [00ff], which the engine reads, names a string outside the model, and
    the model refuses it. *)
Definition hex4 (a b c d : ascii) : option ascii :=
  match hex_value a, hex_value b, hex_value c, hex_value d with
  | Some x, Some y, Some z, Some w =>
      let n := (((x * 16 + y) * 16 + z) * 16 + w)%N in
      if (n <? 256)%N then Some (ascii_of_N n) else None
  | _, _, _, _ => None
  end.

Definition unescape (e : ascii) : option ascii :=
  if Ascii.eqb e dquote then Some dquote
  else if Ascii.eqb e "\" then Some "\"%char
  else if Ascii.eqb e "/" then Some "/"%char
  else if Ascii.eqb e "b" then Some (ascii_of_N 8)
  else if Ascii.eqb e "f" then Some (ascii_of_N 12)
  else if Ascii.eqb e "n" then Some (ascii_of_N 10)
  else if Ascii.eqb e "r" then Some (ascii_of_N 13)
  else if Ascii.eqb e "t" then Some (ascii_of_N 9)
  else None.

Definition cons_fst {A B} (a : A) (r : option (list A * B))
  : option (list A * B) :=
  match r with
  | Some (l, b) => Some (a :: l, b)
  | None => None
  end.

(** The characters of a string literal, after its opening quote, up to and
    including the closing quote. *)
Fixpoint parse_chars (s : text) : option (text * text) :=
  match s with
  | [] => None
  | c :: r =>
      if Ascii.eqb c dquote then Some ([], r)
      else if Ascii.eqb c "\" then
        match r with
        | [] => None
        | e :: r' =>
            if Ascii.eqb e "u" then
              match r' with
              | h1 :: h2 :: h3 :: h4 :: r'' =>
                  match hex4 h1 h2 h3 h4 with
                  | Some ch => cons_fst ch (parse_chars r'')
                  | None => None
                  end
              | _ => None
              end
            else
              match unescape e with
              | Some ch => cons_fst ch (parse_chars r')
              | None => None
              end
        end
      else if (Text.code c <? 32)%N then None
      else cons_fst c (parse_chars r)
  end.

(** *** Values *)

(** JSON white space: TAB, LF, CR, SPACE. *)
Definition is_ws (c : ascii) : bool :=
  let n := Text.code c in
  ((n =? 9) || (n =? 10) || (n =? 13) || (n =? 32))%N.

Fixpoint skip_ws (s : text) : text :=
  match s with
  | c :: r => if is_ws c then skip_ws r else s
  | [] => []
  end.

(** One [key : value] member; [pv] parses the value. *)
Definition parse_member (pv : text -> option (value * text)) (s : text)
  : option ((text * value) * text) :=
  match skip_ws s with
  | q :: r =>
      if Ascii.eqb q dquote then
        match parse_chars r with
        | Some (k, r1) =>
            match skip_ws r1 with
            | c :: r2 =>
                if Ascii.eqb c ":" then
                  match pv r2 with
                  | Some (v, r3) => Some ((k, v), r3)
                  | None => None
                  end
                else None
            | [] => None
            end
        | None => None
        end
      else None
  | [] => None
  end.

(** *** The order of the own properties

    An engine enumerates the own properties of an object with the array
    indices first, in ascending order, and the other keys after them in the
    order of their creation.  An object is held as the list of its
    properties in that order. *)

(** An array index: a canonical numeric string below [2^32 - 1]. *)
Definition array_index (k : text) : option N :=
  let (u, rest) := scan_digits k in
  match rest with
  | [] =>
      if int_part_ok u && (N.of_uint u <? 4294967295)%N
      then Some (N.of_uint u) else None
  | _ :: _ => None
  end.

Definition has_key (k : text) (fs : list (text * value)) : bool :=
  existsb (fun kv => Text.eqb (fst kv) k) fs.

(** The value of an existing key is replaced where the key stands. *)
Fixpoint overwrite (k : text) (v : value) (fs : list (text * value))
  : list (text * value) :=
  match fs with
  | [] => []
  | (k', v') :: r =>
      if Text.eqb k k' then (k, v) :: r else (k', v') :: overwrite k v r
  end.

(** A new array index goes before the first key that is a larger index or
    no index at all. *)
Fixpoint insert_index (i : N) (kv : text * value) (fs : list (text * value))
  : list (text * value) :=
  match fs with
  | [] => [kv]
  | (k', v') :: r =>
      match array_index k' with
      | Some j =>
          if (j <? i)%N then (k', v') :: insert_index i kv r else kv :: fs
      | None => kv :: fs
      end
  end.

(** [CreateDataProperty(obj, k, v)] *)
Definition member_set (k : text) (v : value) (fs : list (text * value))
  : list (text * value) :=
  if has_key k fs then overwrite k v fs
  else
    match array_index k with
    | Some i => insert_index i (k, v) fs
    | None => fs ++ [(k, v)]
    end.

(** The members in textual order become own properties one by one, so a
    repeated key keeps its first place and its last value. *)
Definition build_object (ms : list (text * value)) : value :=
  VObj (fold_left (fun acc kv => member_set (fst kv) (snd kv) acc) ms []).

Definition literal (word : text) (v : value) (s : text)
  : option (value * text) :=
  match Text.strip_prefix word s with
  | Some r => Some (v, r)
  | None => None
  end.

(** One step of the recursive descent, given the parsers for what is
    nested inside: a value ... *)
Definition value_step
  (pv : text -> option (value * text))
  (pe : text -> option (list value * text))
  (pm : text -> option (list (text * value) * text))
  (s : text) : option (value * text) :=
  match skip_ws s with
  | [] => None
  | c :: r =>
      if Ascii.eqb c "{" then
        match skip_ws r with
        | c' :: r' =>
            if Ascii.eqb c' "}" then Some (VObj [], r')
            else
              match parse_member pv r with
              | Some (kv, r1) =>
                  match pm r1 with
                  | Some (ms, r2) => Some (build_object (kv :: ms), r2)
                  | None => None
                  end
              | None => None
              end
        | [] => None
        end
      else if Ascii.eqb c "[" then
        match skip_ws r with
        | c' :: r' =>
            if Ascii.eqb c' "]" then Some (VArr [], r')
            else
              match pv r with
              | Some (v, r1) =>
                  match pe r1 with
                  | Some (vs, r2) => Some (VArr (v :: vs), r2)
                  | None => None
                  end
              | None => None
              end
        | [] => None
        end
      else if Ascii.eqb c dquote then
        match parse_chars r with
        | Some (t, r1) => Some (VStr t, r1)
        | None => None
        end
      else if Ascii.eqb c "t" then literal "true" (VBool true) (c :: r)
      else if Ascii.eqb c "f" then literal "false" (VBool false) (c :: r)
      else if Ascii.eqb c "n" then literal "null" VNull (c :: r)
      else if Ascii.eqb c "-" || Text.is_digit c then
        match parse_number (c :: r) with
        | Some (n, r1) => Some (VNum n, r1)
        | None => None
        end
      else None
  end.

(** ... the rest of an array after an element ... *)
Definition elems_step
  (pv : text -> option (value * text))
  (pe : text -> option (list value * text))
  (s : text) : option (list value * text) :=
  match skip_ws s with
  | c :: r =>
      if Ascii.eqb c "]" then Some ([], r)
      else if Ascii.eqb c "," then
        match pv r with
        | Some (v, r1) => cons_fst v (pe r1)
        | None => None
        end
      else None
  | [] => None
  end.

(** ... and the rest of an object after a member. *)
Definition members_step
  (pv : text -> option (value * text))
  (pm : text -> option (list (text * value) * text))
  (s : text) : option (list (text * value) * text) :=
  match skip_ws s with
  | c :: r =>
      if Ascii.eqb c "}" then Some ([], r)
      else if Ascii.eqb c "," then
        match parse_member pv r with
        | Some (kv, r1) => cons_fst kv (pm r1)
        | None => None
        end
      else None
  | [] => None
  end.

(** Recursive descent; every recursive call comes after at least one
    consumed character, so [S (length s)] units of fuel are enough. *)
Fixpoint parse_value (fuel : nat) (s : text) : option (value * text) :=
  match fuel with
  | O => None
  | S f => value_step (parse_value f) (parse_elems f) (parse_members f) s
  end

with parse_elems (fuel : nat) (s : text) : option (list value * text) :=
  match fuel with
  | O => None
  | S f => elems_step (parse_value f) (parse_elems f) s
  end

with parse_members (fuel : nat) (s : text)
  : option (list (text * value) * text) :=
  match fuel with
  | O => None
  | S f => members_step (parse_value f) (parse_members f) s
  end.

(** The message of the [SyntaxError] differs between engines; the model
    keeps one text for it. *)
Definition syntax_error : exn := SyntaxError "Unexpected token in JSON".

(** [JSON.parse] of a string. *)
Definition parse (s : text) : result value :=
  match parse_value (S (List.length s)) s with
  | Some (v, r) =>
      match skip_ws r with
      | [] => Ok v
      | _ :: _ => Throw syntax_error
      end
  | None => Throw syntax_error
  end.

(** [JSON.stringify], compact form.  Inside an array [undefined] is written
    as [null]; a property whose value is [undefined] is left out. *)
Fixpoint stringify (v : value) : text :=
  match v with
  | VUndefined | VNull => "null"
  | VBool true => "true"
  | VBool false => "false"
  | VNum n => print_number n
  | VStr s => quote s
  | VArr l => "[" ++ tl (flat_map (fun x => "," ++ stringify x) l) ++ "]"
  | VObj fs =>
      "{" ++ tl (flat_map (fun kv : text * value =>
                   let (k, x) := kv in
                   match x with
                   | VUndefined => []
                   | _ => "," ++ quote k ++ ":" ++ stringify x
                   end) fs) ++ "}"
  end.

(** ToString.  An array is joined with commas, [undefined] and [null]
    giving the empty text; the elements are converted in order, so the
    first one that throws decides.  An object is converted with the
    [toString] it inherits, which gives [[object Object]]; when it has an
    own property [toString], that is no function (a value of the model
    never is), and [valueOf], own or inherited, gives no primitive either:
    the conversion throws. *)
Definition not_primitive : exn :=
  TypeError "Cannot convert object to primitive value".

Fixpoint to_string (v : value) : result text :=
  match v with
  | VUndefined => Ok ("undefined" : text)
  | VNull => Ok ("null" : text)
  | VBool true => Ok ("true" : text)
  | VBool false => Ok ("false" : text)
  | VNum n => Ok (print_number n)
  | VStr s => Ok s
  | VArr l =>
      (fix join (first : bool) (l : list value) : result text :=
         match l with
         | [] => Ok []
         | x :: r =>
             s <- match x with
                  | VUndefined | VNull => Ok []
                  | _ => to_string x
                  end ;;
             rest <- join false r ;;
             Ok ((if first then [] else ("," : text)) ++ s ++ rest)
         end) true l
  | VObj fs =>
      match lookup "toString" fs with
      | Some _ => Throw not_primitive
      | None => Ok ("[object Object]" : text)
      end
  end.

(** The values ToString converts: no object with an own [toString], also
    not inside an array. *)
Fixpoint stringable (v : value) : bool :=
  match v with
  | VArr l => forallb stringable l
  | VObj fs => match lookup "toString" fs with
               | Some _ => false
               | None => true
               end
  | _ => true
  end.

(** [JSON.parse(v)]: the argument is converted to a string first. *)
Definition parse_any (v : value) : result value :=
  s <- to_string v ;; parse s.

(** *** What the round trip is stated over *)

Definition signed (neg : bool) (m : Z) : Z := if neg then (- m)%Z else m.

Definition no_digit (rest : text) : Prop :=
  match rest with [] => True | c :: _ => digit_of c = None end.

(** What may follow a number in a JSON text. *)
Definition number_end (rest : text) : bool :=
  match rest with
  | [] => true
  | c :: _ =>
      negb (Text.is_digit c) && negb (Ascii.eqb c ".")
        && negb (Ascii.eqb c "e") && negb (Ascii.eqb c "E")
  end.

(** [int_part_ok] on the list of digits. *)
Definition lok (l : list digits) : bool :=
  match l with
  | [] => false
  | [d0] => true
  | d0 :: _ => false
  | _ => true
  end.

(** The first character of a value is no white space and closes nothing. *)
Definition opener (c : ascii) : bool :=
  negb (is_ws c) && negb (Ascii.eqb c "]") && negb (Ascii.eqb c "}").

Fixpoint unique_keys (fs : list (text * value)) : bool :=
  match fs with
  | [] => true
  | (k, _) :: r =>
      negb (existsb (fun kv => Text.eqb (fst kv) k) r) && unique_keys r
  end.

(** The keys from here on are in the order of the engine, when the last
    array index seen was [last] and [named] tells that a key that is no
    index was seen. *)
Fixpoint ordered_from (last : option N) (named : bool)
  (fs : list (text * value)) : bool :=
  match fs with
  | [] => true
  | (k, _) :: r =>
      match array_index k with
      | Some i =>
          negb named
            && match last with
               | Some j => (j <? i)%N
               | None => true
               end
            && ordered_from (Some i) false r
      | None => ordered_from last true r
      end
  end.

(** The array indices first, in ascending order, then the other keys. *)
Definition ordered_keys (fs : list (text * value)) : bool :=
  ordered_from None false fs.

(** The property list of an object of the engine: no key twice, the keys in
    the order of the engine. *)
Definition keys_ok (fs : list (text * value)) : bool :=
  unique_keys fs && ordered_keys fs.

(** The values that [JSON.parse] returns and [JSON.stringify] writes back
    as they were read: no [undefined] inside, numbers that are
    [representable], objects as the engine holds them. *)
Fixpoint is_json (v : value) : bool :=
  match v with
  | VUndefined => false
  | VNull | VBool _ | VStr _ => true
  | VNum n => representable n
  | VArr l => forallb is_json l
  | VObj fs => keys_ok fs && forallb (fun kv => is_json (snd kv)) fs
  end.

Definition elems_text (l : list value) : text :=
  flat_map (fun x => "," ++ stringify x) l.

Definition member_text (kv : text * value) : text :=
  let (k, x) := kv in
  match x with
  | VUndefined => []
  | _ => "," ++ quote k ++ ":" ++ stringify x
  end.

Definition members_text (fs : list (text * value)) : text :=
  flat_map member_text fs.

(** Reading back what was written, with anything that may follow. *)
Definition roundtrips (v : value) : Prop :=
  is_json v = true ->
  forall fuel rest,
    number_end rest = true ->
    (List.length (stringify v ++ rest) < fuel)%nat ->
    parse_value fuel (stringify v ++ rest) = Some (v, rest).

(** A text that ends with a character that is no white space. *)
Definition ends_solid (t : text) : Prop :=
  exists t' c, t = t' ++ [c] /\ Text.is_space c = false.

(** *** Enough fuel *)

(** A parser whose remainder is shorter than its input. *)
Definition shrinks {A} (p : text -> option (A * text)) : Prop :=
  forall s a r, p s = Some (a, r) -> (List.length r < List.length s)%nat.

(** Two parsers that agree on every input shorter than [n]. *)
Definition agree_below {A} (n : nat) (p q : text -> option (A * text))
  : Prop :=
  forall s, (List.length s < n)%nat -> p s = q s.

(** Induction over values, through the lists they hold. *)
Section value_induction.
Variable P : value -> Prop.
Hypothesis Hundef : P VUndefined.
Hypothesis Hnull : P VNull.
Hypothesis Hbool : forall b, P (VBool b).
Hypothesis Hnum : forall n, P (VNum n).
Hypothesis Hstr : forall s, P (VStr s).
Hypothesis Harr : forall l, Forall P l -> P (VArr l).
Hypothesis Hobj : forall fs, Forall (fun kv => P (snd kv)) fs -> P (VObj fs).

Fixpoint value_nested_ind (v : value) : P v :=
  match v with
  | VUndefined => Hundef
  | VNull => Hnull
  | VBool b => Hbool b
  | VNum n => Hnum n
  | VStr s => Hstr s
  | VArr l =>
      Harr l ((fix go (l : list value) : Forall P l :=
                 match l with
                 | [] => Forall_nil _
                 | x :: r => Forall_cons x (value_nested_ind x) (go r)
                 end) l)
  | VObj fs =>
      Hobj fs ((fix go (fs : list (text * value))
                  : Forall (fun kv => P (snd kv)) fs :=
                  match fs with
                  | [] => Forall_nil _
                  | kv :: r =>
                      Forall_cons kv (value_nested_ind (snd kv)) (go r)
                  end) fs)
  end.
End value_induction.

End Json.

(** ** Console output and thrown errors together *)

Module Eff.
Import JS.

(** What reaches the console.  [log] of the source prints one JSON object
    with a time stamp, the request id, a type, a message and optional data;
    the time stamp is left out. *)
Inductive log_entry :=
| Log (requestId type message : text) (data : value)
| ConsoleError (label : text) (e : exn).

(** A computation that writes log entries and returns or throws. *)
Definition eff (A : Type) : Type := list log_entry * result A.

Definition ret {A} (a : A) : eff A := ([], Ok a).
Definition throw {A} (e : exn) : eff A := ([], Throw e).
Definition lift {A} (r : result A) : eff A := ([], r).
Definition tell (l : log_entry) : eff unit := ([l], Ok tt).

Definition bind {A B} (m : eff A) (k : A -> eff B) : eff B :=
  match m with
  | (l1, Ok a) => let (l2, r) := k a in (l1 ++ l2, r)
  | (l1, Throw e) => (l1, Throw e)
  end.

Definition try_catch {A} (body : eff A) (handler : exn -> eff A) : eff A :=
  match body with
  | (l1, Ok a) => (l1, Ok a)
  | (l1, Throw e) => let (l2, r) := handler e in (l1 ++ l2, r)
  end.

Definition logged {A} (m : eff A) : list log_entry := fst m.
Definition outcome {A} (m : eff A) : result A := snd m.

End Eff.

Notation "x <~ m ;; k" := (Eff.bind m (fun x => k))
  (at level 61, m at next level, right associativity).

(** ** The combined variant: sanitizer, validator, translator, catch-all *)

Module Combined.
Import JS Eff.

Definition field (k : text) (v : value) : text * value := (k, v).

Definition OPENAI_BASE_URL : text := "https://api.openai.com/v1".
Definition TIMEOUT_MS : Z := 120000.
Definition TIMEOUT_SECONDS : Z := TIMEOUT_MS / 1000.
Definition MAX_LOG_LENGTH : nat := 1000.

(** [EXPECTED_STRUCTURES]: the required and the optional fields per
    endpoint.  No function of the source reads this table. *)
Record structure := { required : list text; optional : list text }.

Definition EXPECTED_STRUCTURES (endpoint : text) : option structure :=
  if Text.eqb endpoint "chat/completions" then
    Some {| required := ["choices" : text];
            optional := ["id" : text; "object" : text; "created" : text;
                         "model" : text; "usage" : text] |}
  else if Text.eqb endpoint "workout-plan" then
    Some {| required := ["name" : text; "description" : text; "days" : text];
            optional := ["duration" : text; "difficulty" : text;
                         "equipment" : text] |}
  else if Text.eqb endpoint "meal-plan" then
    Some {| required := ["name" : text; "description" : text; "meals" : text];
            optional := ["calories" : text; "duration" : text;
                         "dietaryRestrictions" : text] |}
  else None.

(** [SPECIAL_PROMPTS[endpoint]].  The table is a plain object literal, so a
    key that is no own property is looked up in [Object.prototype]: for the
    names below the lookup answers a function (or, for [__proto__], the
    prototype object), which is truthy and has neither [system] nor
    [user]. *)
Inductive prompt_entry :=
| Rule (system : text) (user : value -> result text)
| Inherited
| Absent.

Definition object_prototype_names : list text :=
  [ "constructor" : text; "__proto__" : text; "hasOwnProperty" : text;
    "isPrototypeOf" : text; "propertyIsEnumerable" : text;
    "toLocaleString" : text; "toString" : text; "valueOf" : text;
    "__defineGetter__" : text; "__defineSetter__" : text;
    "__lookupGetter__" : text; "__lookupSetter__" : text ].

Definition workout_system : text :=
  "You are a professional fitness trainer. Create detailed, structured workout plans that include warmup, exercises, and cooldown. Always return responses in valid JSON format with name, description, and days fields.".

(** The template literals of the two rules: the text around [${prompt}]. *)
Definition workout_template (prompt : text) : text :=
  "Create a workout plan with the following requirements: "
    ++ prompt
    ++ ". Return the response as a JSON object with fields: name (string), description (string), and days (array of workout days).".

Definition workout_user (prompt : value) : result text :=
  s <- Json.to_string prompt ;; Ok (workout_template s).

Definition meal_system : text :=
  "You are a professional nutritionist. Create detailed, structured meal plans that are healthy and balanced. Always return responses in valid JSON format with name, description, and meals fields.".

Definition meal_template (prompt : text) : text :=
  "Create a meal plan with the following requirements: "
    ++ prompt
    ++ ". Return the response as a JSON object with fields: name (string), description (string), and meals (array of meals).".

Definition meal_user (prompt : value) : result text :=
  s <- Json.to_string prompt ;; Ok (meal_template s).

Definition SPECIAL_PROMPTS (endpoint : text) : prompt_entry :=
  if Text.eqb endpoint "workout-plan" then Rule workout_system workout_user
  else if Text.eqb endpoint "meal-plan" then Rule meal_system meal_user
  else if existsb (Text.eqb endpoint) object_prototype_names then Inherited
  else Absent.

(** *** cleanOpenAIResponse *)

(** [.replace(/^```json\s*/i, '')] *)
Definition strip_json_fence (s : text) : text :=
  match Text.strip_prefix_ci "```json" s with
  | Some r => Text.skip_spaces r
  | None => s
  end.

(** [.replace(/^```\s*/i, '')] *)
Definition strip_open_fence (s : text) : text :=
  match Text.strip_prefix_ci "```" s with
  | Some r => Text.skip_spaces r
  | None => s
  end.

(** [.replace(/\s*```$/, '')]: the match is the fence at the very end
    together with the white space run before it. *)
Definition strip_close_fence (s : text) : text :=
  match Text.strip_prefix "```" (rev s) with
  | Some r => rev (Text.skip_spaces r)
  | None => s
  end.

(** [.replace(/^\s*{\s*/, '{')] *)
Definition tidy_open_brace (s : text) : text :=
  match Text.skip_spaces s with
  | c :: r => if Ascii.eqb c "{" then "{"%char :: Text.skip_spaces r else s
  | [] => s
  end.

(** [.replace(/\s*}\s*$/, '}')]: the closing brace has to be the last
    character that is no white space. *)
Definition tidy_close_brace (s : text) : text :=
  match Text.skip_spaces (rev s) with
  | c :: r =>
      if Ascii.eqb c "}" then rev ("}"%char :: Text.skip_spaces r) else s
  | [] => s
  end.

Definition cleaned_text (rawResponse : text) : text :=
  Text.trim
    (tidy_close_brace
       (tidy_open_brace
          (strip_close_fence
             (strip_open_fence
                (strip_json_fence rawResponse))))).

Definition cleanOpenAIResponse (rawResponse : value) (path : text)
  : eff value :=
  match rawResponse with
  | VStr raw =>
      if Text.includes path "chat/completions" then lift (Json.parse raw)
      else
        try_catch
          (try_catch (lift (Json.parse raw))
             (fun _ => lift (Json.parse (cleaned_text raw))))
          (fun error =>
             _ <~ tell (ConsoleError "Error cleaning response:" error) ;;
             throw (Error "Failed to clean and parse OpenAI response"))
  | _ => throw (Error "Response must be a string")
  end.

(** *** Fenced text, for the round trip through the sanitizer *)

(** A text of white space only. *)
Definition blank (w : text) : bool := forallb Text.is_space w.

(** No language tag, or the tag json in any letter case. *)
Definition json_tag (tag : text) : bool :=
  match tag with
  | [] => true
  | _ => Text.eqb "json" (map Text.lower tag)
  end.

(** [s] inside a code fence: [lead] and [trail] surround the fence, [tag]
    follows the opening marker, [w1] and [w2] separate the markers from
    [s]. *)
Definition fence_wrap (lead tag w1 s w2 trail : text) : text :=
  lead ++ "```" ++ tag ++ w1 ++ s ++ w2 ++ "```" ++ trail.

(** The text of an object: an opening brace, a body, a closing brace, with
    no white space next to the braces. *)
Definition tight (s : text) : Prop :=
  exists body,
    s = "{" ++ body ++ "}"
    /\ Text.skip_spaces (body ++ "}") = body ++ "}"
    /\ Text.skip_spaces (rev ("{" ++ body)) = rev ("{" ++ body).

(** *** validateResponseStructure *)

Definition missing_chat_fields : exn :=
  Error "Invalid response structure: missing required fields for chat completion".

Definition missing_message_fields : exn :=
  Error "Invalid response structure: message missing required fields".

(** The plan check inside the loop over the choices. *)
Definition plan_check (content : value) : result unit :=
  JS.try_catch
    (parsed <- (if typeof_object content then Ok content
                else Json.parse_any content) ;;
     name <- get parsed "name" ;;
     if negb (truthy name) then
       Throw (Error "Invalid plan structure: missing required fields")
     else
     description <- get parsed "description" ;;
     if negb (truthy description) then
       Throw (Error "Invalid plan structure: missing required fields")
     else
     days <- get parsed "days" ;;
     if negb (truthy days) then
       Throw (Error "Invalid plan structure: missing required fields")
     else Ok tt)
    (fun error => Throw (Error ("Invalid plan format: " ++ message error))).

(** The body of [for (const choice of response.choices)]. *)
Definition check_choice (path : text) (choice : value) : result unit :=
  msg <- get choice "message" ;;
  if negb (truthy msg) then Throw missing_message_fields else
  content <- get msg "content" ;;
  if negb (truthy content) then Throw missing_message_fields else
  role <- get msg "role" ;;
  if negb (truthy role) then Throw missing_message_fields else
  if Text.includes path "workout-plan" || Text.includes path "meal-plan"
  then plan_check content
  else Ok tt.

Fixpoint check_choices (path : text) (choices : list value) : result unit :=
  match choices with
  | [] => Ok tt
  | choice :: rest =>
      _ <- check_choice path choice ;; check_choices path rest
  end.

Definition validateResponseStructure (response : value) (path : text)
  : result value :=
  if Text.includes path "chat/completions" then
    id <- get response "id" ;;
    if negb (truthy id) then Throw missing_chat_fields else
    choices <- get response "choices" ;;
    if negb (truthy choices) then Throw missing_chat_fields else
    match choices with
    | VArr l => _ <- check_choices path l ;; Ok (VBool true)
    | _ => Throw missing_chat_fields
    end
  else Ok (VBool true).

(** *** safeJsonParse *)

(** [callee.substring(0, n)]: only a string has the method; [callee] is the
    source text of the expression, which the error names. *)
Definition substring_method (callee : text) (v : value) (n : nat)
  : result value :=
  match v with
  | VStr s => Ok (VStr (Text.substring0 n s))
  | VUndefined | VNull => get v "substring"
  | _ => Throw (TypeError (callee ++ ".substring is not a function"))
  end.

Definition safeJsonParse (text_ : value) (requestId path : text)
  : eff value :=
  if negb (truthy text_) then
    throw (Error "Empty response received from OpenAI")
  else
    try_catch
      (cleaned <~ cleanOpenAIResponse text_ path ;;
       if negb (typeof_object cleaned) || (match cleaned with
                                           | VNull => true
                                           | _ => false
                                           end)
       then throw (Error "Parsed response is not a valid object")
       else
         _ <~ lift (validateResponseStructure cleaned path) ;;
         ret cleaned)
      (fun error =>
         originalText <~ lift (substring_method "text" text_
                                 MAX_LOG_LENGTH) ;;
         again <~ cleanOpenAIResponse text_ path ;;
         cleanedText <~ lift (substring_method "cleanOpenAIResponse(...)"
                                again MAX_LOG_LENGTH) ;;
         _ <~ tell (Log requestId "JSON_PARSE_ERROR"
                      "Failed to parse OpenAI response"
                      (VObj [ field "error" (VStr (message error));
                              field "path" (VStr path);
                              field "originalText" originalText;
                              field "cleanedText" cleanedText ])) ;;
         throw (Error ("Invalid JSON format returned from OpenAI: "
                         ++ message error))).

(** *** convertToChatCompletion and transformResponse *)

Record routed := { path : text; body : value }.

Definition convertToChatCompletion (path : text) (body : value)
  : result routed :=
  let endpoint := Text.last_segment path in
  match SPECIAL_PROMPTS endpoint with
  | Absent => Ok {| path := path; body := body |}
  | Inherited =>
      _ <- get body "prompt" ;;
      Throw (TypeError "specialPrompt.user is not a function")
  | Rule system user =>
      prompt <- get body "prompt" ;;
      content <- user (or_else prompt (VStr "Create a general plan")) ;;
      max_tokens <- get body "max_tokens" ;;
      Ok {| path := "chat/completions";
            body :=
              VObj
                [ field "model" (VStr "gpt-3.5-turbo");
                  field "messages"
                    (VArr
                       [ VObj [ field "role" (VStr "system");
                                field "content" (VStr system) ];
                         VObj [ field "role" (VStr "user");
                                field "content" (VStr content) ] ]);
                  field "temperature" (VNum (mkNum 7 1));
                  field "max_tokens"
                    (or_else max_tokens (VNum (int 2000)));
                  field "response_format"
                    (VObj [ field "type" (VStr "json_object") ]) ] |}
  end.

Definition transformResponse (path : text) (response : value)
  : result value :=
  let endpoint := Text.last_segment path in
  match SPECIAL_PROMPTS endpoint with
  | Absent => Ok response
  | _ =>
      choices <- get response "choices" ;;
      if negb (truthy choices) then Ok response else
      first <- get0 choices ;;
      if negb (truthy first) then Ok response else
      JS.try_catch
        (msg <- get first "message" ;;
         content <- get msg "content" ;;
         if typeof_object content then Ok content
         else Json.parse_any content)
        (fun error =>
           Throw (Error ("Failed to parse special endpoint response: "
                           ++ message error)))
  end.

(** *** The middleware chain and the catch-all route *)

Record http_response := { status : Z; sent : value }.

Definition error_envelope (fields : list (text * value)) : value :=
  VObj [ field "error" (VObj fields) ].

(** The server-level timeout callback: [res.status(504).json(...)]. *)
Definition timeout_response (requestId reqPath timestamp : text)
  : http_response :=
  {| status := 504;
     sent :=
       error_envelope
         [ field "message" (VStr "Server response timeout reached");
           field "type" (VStr "timeout_error");
           field "code" (VStr "timeout_error");
           field "details"
             (VStr ("Request took longer than "
                      ++ Json.print_number (int TIMEOUT_SECONDS)
                      ++ " seconds to complete"));
           field "requestId" (VStr requestId);
           field "path" (VStr reqPath);
           field "timestamp" (VStr timestamp) ] |}.

(** The custom JSON parser behind [bodyParser.text]: either the next
    middleware runs with the parsed body, or a 400 is written. *)
Inductive parsed_body :=
| Next (body : value)
| Respond (r : http_response).

Definition json_body_parser (reqBody : value) : parsed_body :=
  if negb (truthy reqBody) then Next reqBody
  else
    match Json.parse_any reqBody with
    | Ok parsed => Next parsed
    | Throw err =>
        Respond
          {| status := 400;
             sent :=
               error_envelope
                 [ field "type" (VStr "parse_error");
                   field "message" (VStr "Invalid JSON in request body");
                   field "details" (VStr (message err)) ] |}
    end.

(** The global error handler. *)
Definition error_handler (err : exn) : http_response :=
  {| status := 500;
     sent :=
       error_envelope
         [ field "type" (VStr "internal_error");
           field "message"
             (or_else (VStr (message err))
                      (VStr "An unexpected error occurred")) ] |}.

(** What [fetch] is called with. *)
Record upstream_call := {
  url : text;
  call_method : text;
  authorization : text;
  content_type : text;
  call_body : option text;
  timeout : Z
}.

(** How the upstream call ends: [fetch] rejects, or it resolves and
    [response.json()] returns or throws. *)
Inductive upstream_outcome :=
| Rejected (e : exn)
| Resolved (upstream_status : Z) (json : result value).

Record request := { method : text; req_path : text; req_body : value }.

(** [JSON.stringify(v)] at top level: [undefined] has no JSON text. *)
Definition JSON_stringify (v : value) : option text :=
  match v with
  | VUndefined => None
  | _ => Some (Json.stringify v)
  end.

(** [app.all('*', ...)]: the call made ... *)
Definition proxy_call (api_key : text) (req : request) : upstream_call :=
  {| url := OPENAI_BASE_URL ++ req_path req;
     call_method := method req;
     authorization := "Bearer " ++ api_key;
     content_type := "application/json";
     call_body := JSON_stringify (req_body req);
     timeout := TIMEOUT_MS |}.

(** ... and the response written when it has ended. *)
Definition proxy_response (o : upstream_outcome) : http_response :=
  let failed (error : exn) :=
    {| status := 500;
       sent := error_envelope
                 [ field "type" (VStr "internal_error");
                   field "message" (VStr (message error)) ] |} in
  match o with
  | Resolved _ (Ok data) => {| status := 200; sent := data |}
  | Resolved _ (Throw error) => failed error
  | Rejected error => failed error
  end.

(** The custom parser and the route in one, given [req.body] as
    [bodyParser.text] leaves it and the way the upstream call ends; the
    upstream is only called when the parser hands the request on.  What
    comes before and beside the two, the answer of [cors()] to a preflight,
    the size limit of [bodyParser.text] and the server-level timeout, is
    part of [CatchAll.exchange]. *)
Definition serve (api_key : text) (meth reqPath : text) (rawBody : value)
  (o : upstream_outcome) : option upstream_call * http_response :=
  match json_body_parser rawBody with
  | Respond r => (None, r)
  | Next parsed =>
      let req := {| method := meth; req_path := reqPath;
                    req_body := parsed |} in
      (Some (proxy_call api_key req), proxy_response o)
  end.

(** *** The error body the specification describes *)

Definition error_types : list text :=
  [ "parse_error" : text; "timeout_error" : text; "proxy_error" : text;
    "translation_error" : text; "validation_error" : text;
    "internal_error" : text ].

Definition has_field (v : value) (p : text) : bool :=
  match v with
  | VObj fs => match lookup p fs with Some _ => true | None => false end
  | _ => false
  end.

(** An object [error] with message, type, code, details and requestId,
    the type one of the six. *)
Definition error_shape (body : value) : bool :=
  let e := own body "error" in
  has_field e "message" && has_field e "type" && has_field e "code"
    && has_field e "details" && has_field e "requestId"
    && match own e "type" with
       | VStr t => existsb (Text.eqb t) error_types
       | _ => false
       end.

(** *** The chat-completion request the translator builds *)

Definition chat_request (system content : text) (max_tokens : value)
  : value :=
  VObj
    [ field "model" (VStr "gpt-3.5-turbo");
      field "messages"
        (VArr [ VObj [ field "role" (VStr "system");
                       field "content" (VStr system) ];
                VObj [ field "role" (VStr "user");
                       field "content" (VStr content) ] ]);
      field "temperature" (VNum (mkNum 7 1));
      field "max_tokens" max_tokens;
      field "response_format" (VObj [ field "type" (VStr "json_object") ]) ].

(** *** Sample data *)

Definition newline : ascii := ascii_of_N 10.

(** A chat-completion reply with one choice whose message has [content]. *)
Definition reply_with (content : value) : value :=
  VObj [ field "id" (VStr "chatcmpl-1");
         field "choices"
           (VArr [ VObj [ field "message"
                            (VObj [ field "role" (VStr "assistant");
                                    field "content" content ]) ] ]) ].

Definition empty_choices_reply : value :=
  VObj [ field "id" (VStr "chatcmpl-1"); field "choices" (VArr []) ].

Definition sample_workout_plan : value :=
  VObj [ field "name" (VStr "Starter");
         field "description" (VStr "Three days");
         field "days" (VArr [ VStr "Day 1"; VStr "Day 2"; VStr "Day 3" ]) ].

Definition sample_meal_plan : value :=
  VObj [ field "name" (VStr "Balanced");
         field "description" (VStr "1800 kcal");
         field "meals" (VArr [ VStr "Breakfast"; VStr "Lunch" ]) ].

(** A meal plan without meals, with an empty list of days. *)
Definition mislabelled_meal_plan : value :=
  VObj [ field "name" (VStr "Balanced");
         field "description" (VStr "1800 kcal");
         field "days" (VArr []) ].

End Combined.

(** ** The variant that validates the [choices] array inline *)

Module Validating.
Import JS.

(** [data] is the parsed reply, or the raw text when it is no JSON. *)
Definition reply_data (dataText : text) : value :=
  match Json.parse dataText with
  | Ok data => data
  | Throw _ => VStr dataText
  end.

(** [!data || !data.choices || !Array.isArray(data.choices)
     || data.choices.length === 0] *)
Definition reply_invalid (data : value) : result bool :=
  if negb (truthy data) then Ok true else
  choices <- get data "choices" ;;
  if negb (truthy choices) then Ok true else
  match choices with
  | VArr l => Ok (match l with [] => true | _ => false end)
  | _ => Ok true
  end.

Inductive reply :=
| Json_ (status : Z) (body : value)
| Raw (status : Z) (body : text).

(** The part of the handler that follows the upstream reply. *)
Definition respond (upstream_status : Z) (dataText : text) : reply :=
  match reply_invalid (reply_data dataText) with
  | Ok false => Raw upstream_status dataText
  | Ok true =>
      Json_ 500 (VObj [ (("error" : text),
                         VStr "Invalid response from OpenAI.") ])
  | Throw _ =>
      Json_ 500 (VObj [ (("error" : text), VStr "Something went wrong.") ])
  end.

End Validating.

(** ** The tracked variant: one request under the two timeouts

    A request is followed from the moment its handler has called [fetch] and
    awaits the result.  What happens next is a sequence of events from the
    environment: the socket timeout set by [res.setTimeout] fires, the
    handler's own timer fires and aborts the fetch, the fetch resolves or
    rejects, reading the reply body ends.  Each event runs the callback or
    the continuation of the source to its end.

    The response object behaves as in Express: the first call of
    [res.status(..).json(..)] sends the response; a call after that throws,
    since the headers were sent.  The socket timeout is delivered to the
    response only while the response is unfinished.  A promise settles once:
    an event for a promise that has settled is ignored.  A rejection of the
    fetch for any other reason, a network failure or the [timeout] option
    of the fetch library, is an event [FetchRejects] with an error that is
    no [AbortError]. *)

Module Tracked.
Import JS Eff.

Definition field (k : text) (v : value) : text * value := (k, v).

Definition TIMEOUT_MS : Z := 120000.
Definition TIMEOUT_SECONDS : Z := TIMEOUT_MS / 1000.

Record request := {
  requestId : text;     (* req.headers['x-request-id'] *)
  startTime : Z;        (* req.startTime *)
  reqPath : text;       (* req.path *)
  reqQuery : value;     (* req.query *)
  reqBody : value       (* req.body *)
}.

(** What the handler calls [fetch] with; [signal] stands for the signal of
    the abort controller. *)
Record openai_call := {
  url : text;
  authorization : text;
  content_type : text;
  call_body : option text;
  signal : bool;
  timeout : Z
}.

(** The places of the source that write a response. *)
Inductive site :=
| ServerTimeoutSite     (* the callback of res.setTimeout *)
| SuccessSite           (* res.status(openaiResponse.status).json(data) *)
| CatchAbortSite        (* the AbortError branch of the catch block *)
| CatchErrorSite.       (* the other branch of the catch block *)

Record write := { at_site : site; status : Z; sent : value }.

Inductive phase :=
| AwaitFetch                     (* await fetch(...) *)
| AwaitBody (upstream_status : Z) (* await openaiResponse.json() *)
| Returned.                      (* the handler has run to its end *)

Inductive timer := Armed | Cleared | Fired.

Record state := {
  handler : phase;
  abort_timer : timer;           (* timeoutId *)
  calls : list write;            (* every res.status(..).json(..), in order *)
  logs : list log_entry;
  unhandled : list exn           (* errors thrown out of the handler *)
}.

(** Template literals [${n}ms], [${n}s]. *)
Definition ms (n : Z) : value :=
  VStr (Json.print_number (int n) ++ "ms").

Definition seconds (n : Z) : value :=
  VStr (Json.print_number (int n) ++ "s").

Definition timeout_details : text :=
  "Request took longer than " ++ Json.print_number (int TIMEOUT_SECONDS)
    ++ " seconds to complete".

Definition error_body (msg type details rid : text) : value :=
  VObj [ field "error"
           (VObj [ field "message" (VStr msg);
                   field "type" (VStr type);
                   field "code" (VStr type);
                   field "details" (VStr details);
                   field "requestId" (VStr rid) ]) ].

Definition headers_sent : exn :=
  Error "Cannot set headers after they are sent to the client".

Definition add_log (l : log_entry) (st : state) : state :=
  {| handler := handler st; abort_timer := abort_timer st;
     calls := calls st; logs := logs st ++ [l];
     unhandled := unhandled st |}.

Definition set_handler (p : phase) (st : state) : state :=
  {| handler := p; abort_timer := abort_timer st;
     calls := calls st; logs := logs st; unhandled := unhandled st |}.

Definition set_timer (t : timer) (st : state) : state :=
  {| handler := handler st; abort_timer := t;
     calls := calls st; logs := logs st; unhandled := unhandled st |}.

Definition add_unhandled (e : exn) (st : state) : state :=
  {| handler := handler st; abort_timer := abort_timer st;
     calls := calls st; logs := logs st;
     unhandled := unhandled st ++ [e] |}.

(** [res.status(code).json(body)] at site [s]: the call is recorded; it
    throws when a response was sent before. *)
Definition res_json (s : site) (code : Z) (body : value) (st : state)
  : state * result unit :=
  let st' :=
    {| handler := handler st; abort_timer := abort_timer st;
       calls := calls st ++ [{| at_site := s; status := code; sent := body |}];
       logs := logs st; unhandled := unhandled st |} in
  match calls st with
  | [] => (st', Ok tt)
  | _ :: _ => (st', Throw headers_sent)
  end.

Definition fetch_call (api_key : text) (req : request) (targetPath : text)
  : openai_call :=
  {| url := Combined.OPENAI_BASE_URL ++ "/" ++ targetPath;
     authorization := "Bearer " ++ api_key;
     content_type := "application/json";
     call_body := Combined.JSON_stringify (reqBody req);
     signal := true;
     timeout := TIMEOUT_MS |}.

(** The state when the handler has called [fetch]: the two start-up log
    entries are written and the abort timer is armed. *)
Definition init (req : request) (targetPath : text) : state :=
  {| handler := AwaitFetch;
     abort_timer := Armed;
     calls := [];
     logs :=
       [ Log (requestId req) "REQUEST_START"
           ("Incoming request to " ++ reqPath req)
           (VObj [ field "method" (VStr "POST");
                   field "path" (VStr (reqPath req));
                   field "query" (reqQuery req) ]);
         Log (requestId req) "OPENAI_REQUEST"
           ("Forwarding to OpenAI: " ++ Combined.OPENAI_BASE_URL ++ "/"
              ++ targetPath)
           (VObj [ field "method" (VStr "POST");
                   field "path" (VStr targetPath);
                   field "body" (reqBody req) ]) ];
     unhandled := [] |}.

(** The callback given to [res.setTimeout]. *)
Definition on_response_timeout (req : request) (now : Z) (st : state)
  : state :=
  let duration := (now - startTime req)%Z in
  let st :=
    add_log (Log (requestId req) "TIMEOUT" "Server response timeout reached"
               (VObj [ field "duration" (ms duration);
                       field "path" (VStr (reqPath req));
                       field "timeout" (seconds TIMEOUT_SECONDS) ])) st in
  fst (res_json ServerTimeoutSite 504
         (error_body "Server response timeout reached" "timeout_error"
            timeout_details (requestId req)) st).

(** The catch block of the handler; what it throws leaves the handler.
    (The stack trace in the data of the ERROR entry is left out.) *)
Definition catch_block (req : request) (now : Z) (error : exn) (st : state)
  : state :=
  let duration := (now - startTime req)%Z in
  let (st, r) :=
    if is_abort error then
      res_json CatchAbortSite 504
        (error_body "OpenAI request timeout reached" "timeout_error"
           timeout_details (requestId req))
        (add_log (Log (requestId req) "TIMEOUT"
                    "OpenAI request timeout reached"
                    (VObj [ field "duration" (ms duration);
                            field "timeout" (seconds TIMEOUT_SECONDS) ])) st)
    else
      res_json CatchErrorSite 500
        (error_body "Failed to process OpenAI request" "proxy_error"
           (message error) (requestId req))
        (add_log (Log (requestId req) "ERROR"
                    "Failed to process OpenAI request"
                    (VObj [ field "error" (VStr (message error));
                            field "duration" (ms duration) ])) st) in
  let st := set_handler Returned st in
  match r with
  | Ok _ => st
  | Throw e => add_unhandled e st
  end.

(** The rest of the try block once the reply body is read. *)
Definition on_body (req : request) (now : Z) (upstream_status : Z)
  (data : value) (st : state) : state :=
  let duration := (now - startTime req)%Z in
  let st :=
    add_log (Log (requestId req) "OPENAI_RESPONSE" "OpenAI response received"
               (VObj [ field "status" (VNum (int upstream_status));
                       field "duration" (ms duration);
                       field "response" data ])) st in
  match res_json SuccessSite upstream_status data st with
  | (st, Ok _) => set_handler Returned st
  | (st, Throw e) => catch_block req now e st
  end.

(** The callback of the handler's [setTimeout]: [controller.abort()], then
    the log entry; the pending fetch rejects with an [AbortError], which the
    catch block receives. *)
Definition on_abort_timer (req : request) (now : Z) (st : state) : state :=
  let st := set_timer Fired st in
  let st :=
    add_log (Log (requestId req) "FETCH_TIMEOUT"
               "OpenAI fetch request timeout reached"
               (VObj [ field "duration" (ms (now - startTime req));
                       field "timeout" (seconds TIMEOUT_SECONDS) ])) st in
  match handler st with
  | AwaitFetch =>
      catch_block req now (AbortError "The user aborted a request.") st
  | _ => st
  end.

Inductive event :=
| ResponseTimeout (now : Z)
| AbortTimer (now : Z)
| FetchResolves (now : Z) (upstream_status : Z)
| FetchRejects (now : Z) (e : exn)
| BodyResolves (now : Z) (data : value)
| BodyRejects (now : Z) (e : exn).

Definition step (req : request) (st : state) (ev : event) : state :=
  match ev with
  | ResponseTimeout now =>
      match calls st with
      | [] => on_response_timeout req now st
      | _ :: _ => st
      end
  | AbortTimer now =>
      match abort_timer st with
      | Armed => on_abort_timer req now st
      | _ => st
      end
  | FetchResolves now upstream_status =>
      match handler st with
      | AwaitFetch =>
          (* clearTimeout(timeoutId) *)
          set_handler (AwaitBody upstream_status)
            (set_timer (match abort_timer st with
                        | Armed => Cleared
                        | t => t
                        end) st)
      | _ => st
      end
  | FetchRejects now e =>
      match handler st with
      | AwaitFetch => catch_block req now e st
      | _ => st
      end
  | BodyResolves now data =>
      match handler st with
      | AwaitBody upstream_status => on_body req now upstream_status data st
      | _ => st
      end
  | BodyRejects now e =>
      match handler st with
      | AwaitBody _ => catch_block req now e st
      | _ => st
      end
  end.

Definition run (req : request) (st : state) (tr : list event) : state :=
  fold_left (step req) tr st.

(** The response the client receives: the first call. *)
Definition delivered (st : state) : option write :=
  match calls st with
  | [] => None
  | w :: _ => Some w
  end.

(** The calls made after a response was sent. *)
Definition late_calls (st : state) : list write := tl (calls st).

(** *** Shapes of a run *)

(** The sites of the calls, in order. *)
Definition sites (st : state) : list site := map at_site (calls st).

Definition returned (st : state) : bool :=
  match handler st with Returned => true | _ => false end.

(** The call sequences a request can show, with the handler still waiting
    or returned. *)
Definition shape_ok (st : state) : bool :=
  match returned st, sites st with
  | false, [] => true
  | false, [ServerTimeoutSite] => true
  | true, [SuccessSite] => true
  | true, [CatchAbortSite] => true
  | true, [CatchErrorSite] => true
  | true, [ServerTimeoutSite; CatchAbortSite] => true
  | true, [ServerTimeoutSite; CatchErrorSite] => true
  | true, [ServerTimeoutSite; SuccessSite; CatchErrorSite] => true
  | _, _ => false
  end.

(** The calls after the first were refused: one error about the headers
    left the handler; and no error did when there was no such call. *)
Definition refused_ok (st : state) : bool :=
  match late_calls st, unhandled st with
  | [], [] => true
  | _ :: _, [Error m] => Text.eqb m (message headers_sent)
  | _, _ => false
  end.

Definition no_server_site (l : list write) : bool :=
  forallb (fun w => match at_site w with
                    | ServerTimeoutSite => false
                    | _ => true
                    end) l.

Definition sample_request : request :=
  {| requestId := "req-1";
     startTime := 0;
     reqPath := "/openai/v1/chat/completions";
     reqQuery := VObj [];
     reqBody := VObj [ field "messages" (VArr []) ] |}.

(** The race of the two timers: both are set to [TIMEOUT_MS]. *)
Definition timers_race : list event :=
  [ResponseTimeout 120000; AbortTimer 120000].

(** Whether [details] shows the number [n]. *)
Definition shows (details : value) (n : Z) : bool :=
  match details with
  | VStr d => Text.includes d (Json.print_number (int n))
  | _ => false
  end.

End Tracked.

(** ** The forwarding routes of the other variants

    The plain route, the validating route and the route of [index.js]: the
    call each makes and the response each writes, given the way the
    upstream call ends.  What they print on the console is left out. *)

Module Routes.
Import JS.

(** [s.replace(pat, rep)] with a string pattern: the first occurrence of
    [pat] is replaced.  ([rep] holds no dollar sign, so it is taken as it
    is.) *)
Fixpoint replace_first (pat rep s : text) : text :=
  match Text.strip_prefix pat s with
  | Some r => rep ++ r
  | None =>
      match s with
      | [] => []
      | c :: r => c :: replace_first pat rep r
      end
  end.

Record request := { method : text; originalUrl : text; body : value }.

Record call := {
  url : text;
  call_method : text;
  authorization : text;
  content_type : text;
  call_body : option text
}.

(** How the upstream call ends: [fetch] rejects, or it resolves and
    [openaiResponse.text()] returns or throws. *)
Inductive outcome :=
| Rejected (e : exn)
| Resolved (upstream_status : Z) (dataText : result text).

(** [req.originalUrl.replace('/openai/v1', '/v1')] *)
Definition openaiPath (req : request) : text :=
  replace_first "/openai/v1" "/v1" (originalUrl req).

(** The call of both routes mounted at [/openai/v1]: a GET carries no
    body. *)
Definition forward_call (api_key : text) (req : request) : call :=
  {| url := "https://api.openai.com" ++ openaiPath req;
     call_method := method req;
     authorization := "Bearer " ++ api_key;
     content_type := "application/json";
     call_body := if Text.eqb (method req) "GET" then None
                  else Combined.JSON_stringify (body req) |}.

Definition something_went_wrong : Validating.reply :=
  Validating.Json_ 500
    (VObj [ (("error" : text), VStr "Something went wrong.") ]).

(** *** The plain route: the reply goes back as text, with its status *)

Definition plain_respond (o : outcome) : Validating.reply :=
  match o with
  | Resolved upstream_status (Ok data) => Validating.Raw upstream_status data
  | Resolved _ (Throw _) => something_went_wrong
  | Rejected _ => something_went_wrong
  end.

(** *** The validating route *)

(** [!req.body || !Array.isArray(req.body.messages)] *)
Definition request_invalid (reqBody : value) : bool :=
  negb (truthy reqBody) || negb (isArray (own reqBody "messages")).

Definition messages_required : Validating.reply :=
  Validating.Json_ 400
    (VObj [ (("error" : text),
             VStr "Invalid request: messages array is required.") ]).

(** The whole handler: the call made, if any, and the reply written. *)
Definition validating_handle (api_key : text) (req : request) (o : outcome)
  : option call * Validating.reply :=
  if request_invalid (body req) then (None, messages_required)
  else
    (Some (forward_call api_key req),
     match o with
     | Resolved upstream_status (Ok dataText) =>
         Validating.respond upstream_status dataText
     | Resolved _ (Throw _) => something_went_wrong
     | Rejected _ => something_went_wrong
     end).

(** *** The route of [index.js]: [app.post('/openai/v1/*')] *)

(** The body of the 500 written by the catch block. *)
Definition proxy_error_body (error : exn) : value :=
  VObj [ Combined.field "error"
           (VObj [ Combined.field "message"
                     (VStr "Failed to process OpenAI request");
                   Combined.field "type" (VStr "proxy_error");
                   Combined.field "code" (VStr "proxy_error");
                   Combined.field "details" (VStr (message error)) ]) ].

Definition simple_call (api_key targetPath : text) (reqBody : value) : call :=
  {| url := Combined.OPENAI_BASE_URL ++ "/" ++ targetPath;
     call_method := "POST";
     authorization := "Bearer " ++ api_key;
     content_type := "application/json";
     call_body := Combined.JSON_stringify reqBody |}.

Definition simple_respond (o : Combined.upstream_outcome)
  : Combined.http_response :=
  match o with
  | Combined.Resolved upstream_status (Ok data) =>
      {| Combined.status := upstream_status; Combined.sent := data |}
  | Combined.Resolved _ (Throw error) =>
      {| Combined.status := 500; Combined.sent := proxy_error_body error |}
  | Combined.Rejected error =>
      {| Combined.status := 500; Combined.sent := proxy_error_body error |}
  end.

(** *** The paths Express hands to the handlers *)





(** The events of the tracked variant that tell the same story, when no
    timer fires. *)
Definition events_of (now : Z) (o : Combined.upstream_outcome)
  : list Tracked.event :=
  match o with
  | Combined.Resolved upstream_status (Ok data) =>
      [ Tracked.FetchResolves now upstream_status;
        Tracked.BodyResolves now data ]
  | Combined.Resolved upstream_status (Throw error) =>
      [ Tracked.FetchResolves now upstream_status;
        Tracked.BodyRejects now error ]
  | Combined.Rejected error => [ Tracked.FetchRejects now error ]
  end.

Definition error_of (o : Combined.upstream_outcome) : option exn :=
  match o with
  | Combined.Resolved _ (Ok _) => None
  | Combined.Resolved _ (Throw error) => Some error
  | Combined.Rejected error => Some error
  end.

End Routes.

(** ** The check of the test script: [validateResponse]

    [data] is the reply the script has parsed; the model takes it as an
    object, given by its fields.  (What [in] answers for an array depends
    on the members of [Array.prototype], which the source does not fix.) *)

Module TestProxy.
Import JS.

(** [field in data]: the own properties and the members inherited from
    [Object.prototype] answer. *)
Definition has_in (p : text) (data : list (text * value)) : bool :=
  match lookup p data with Some _ => true | None => false end
  || existsb (Text.eqb p) Combined.object_prototype_names.

(** [expectedFields.filter(field => !(field in data))] *)
Definition missing_fields (expectedFields : list text)
  (data : list (text * value)) : list text :=
  filter (fun f => negb (has_in f data)) expectedFields.

(** [fields.join(', ')] *)
Fixpoint join (fields : list text) : text :=
  match fields with
  | [] => []
  | [f] => f
  | f :: rest => f ++ ", " ++ join rest
  end.

(** [v?.p] *)
Definition opt_get (v : value) (p : text) : value :=
  match v with
  | VUndefined | VNull => VUndefined
  | _ => own v p
  end.

(** The check of one collection field of a plan: when the field is truthy
    it has to be an array that is not empty. *)
Definition check_collection (parsed : value) (name : text)
  (not_array empty : text) : result unit :=
  v <- get parsed name ;;
  if truthy v then
    match v with
    | VArr [] => Throw (Error empty)
    | VArr _ => Ok tt
    | _ => Throw (Error not_array)
    end
  else Ok tt.

Definition check_plan_content (content : value) : result unit :=
  JS.try_catch
    (parsed <- (if typeof_object content then Ok content
                else Json.parse_any content) ;;
     _ <- check_collection parsed "days"
            "Days field must be an array" "Days array cannot be empty" ;;
     check_collection parsed "meals"
       "Meals field must be an array" "Meals array cannot be empty")
    (fun error =>
       Throw (Error ("Invalid content format: " ++ message error))).

Definition validateResponse (data : list (text * value))
  (expectedFields : list text) (testName : text) : result value :=
  match missing_fields expectedFields data with
  | (_ :: _) as missing =>
      Throw (Error ("Missing required fields: " ++ join missing))
  | [] =>
      if has_in "choices" data then
        match own (VObj data) "choices" with
        | VArr [] => Throw (Error "Choices array cannot be empty")
        | VArr (first :: _) =>
            let content := opt_get (opt_get first "message") "content" in
            if truthy content && truthy (VStr testName)
               && Text.includes testName "Plan"
            then _ <- check_plan_content content ;; Ok (VBool true)
            else Ok (VBool true)
        | _ => Throw (Error "Choices field must be an array")
        end
      else Ok (VBool true)
  end.

End TestProxy.

(** ** The combined variant: one request from the wire to the response

    The catch-all route sits behind the middleware of the application: the
    server-level timeout, [cors()], [bodyParser.text] and the custom JSON
    parser.  A request is followed from the wire: [cors()] answers a
    preflight itself; [bodyParser.text] reads a body that is declared as
    [application/json], up to its limit of 100kb, and leaves an empty
    object when it reads none; the custom parser follows ([Combined.
    json_body_parser]); then the route calls [fetch] and awaits the
    result.  From there on the request is followed as in the tracked
    variant, by the events of the environment: the socket timeout set by
    [res.setTimeout] fires, the fetch resolves or rejects (also by the
    [timeout] option of the fetch library, or at once, as that library
    does for a GET or HEAD call that carries a body), reading the reply
    body ends.  The request id is the one the tracking middleware wrote
    into the headers, which the timeout callback reads; the id the route
    draws for itself is never used.
    The response object behaves as in Express: the first write sends the
    response, a write after that throws.  What is printed on the console is
    left out of the run. *)

Module CatchAll.
Import JS Combined.

(** The body on the wire, as [bodyParser.text] sees it: none that it
    reads (no body at all, or one of another content type), or a text
    of so many bytes.  The limit is checked on the bytes; their number
    depends on the charset of the request and is not determined by the
    text. *)
Inductive wire_body :=
| Unread
| JsonText (byte_length : nat) (raw : text).

(** The default limit of the parser, [100kb]. *)
Definition TEXT_LIMIT : nat := 100 * 1024.

(** [bodyParser.text({ type: 'application/json' })]: a body over the limit
    is an error, which the global error handler answers. *)
Definition text_parser (w : wire_body) : parsed_body :=
  match w with
  | Unread => Next (VObj [])
  | JsonText byte_length raw =>
      if (byte_length <=? TEXT_LIMIT)%nat then Next (VStr raw)
      else Respond (error_handler (Error "request entity too large"))
  end.

(** What the middleware makes of a request: [cors()] answers every
    OPTIONS request with 204 and no body; the parsers answer what they
    refuse; the rest reaches the route with its parsed body. *)
Inductive received :=
| Preflight
| Refused (r : http_response)
| Routed (reqBody : value).

Definition receive (meth : text) (w : wire_body) : received :=
  if Text.eqb meth "OPTIONS" then Preflight
  else
    match text_parser w with
    | Respond r => Refused r
    | Next body =>
        match json_body_parser body with
        | Respond r => Refused r
        | Next parsed => Routed parsed
        end
    end.

(** The route, by events. *)
Inductive phase :=
| AwaitFetch      (* await fetch(...) *)
| AwaitBody       (* await response.json() *)
| Returned.

Record state := {
  handler : phase;
  calls : list http_response;   (* every res.json(..), in order *)
  unhandled : list exn          (* errors thrown out of the handler *)
}.

Definition headers_sent : exn :=
  Error "Cannot set headers after they are sent to the client".

(** [res.status(code).json(body)]: the call is recorded; it throws when a
    response was sent before. *)
Definition res_json (r : http_response) (st : state) : state * result unit :=
  let st' := {| handler := handler st; calls := calls st ++ [r];
                unhandled := unhandled st |} in
  match calls st with
  | [] => (st', Ok tt)
  | _ :: _ => (st', Throw headers_sent)
  end.

Definition finish (st : state) (r : result unit) : state :=
  match r with
  | Ok _ => {| handler := Returned; calls := calls st;
               unhandled := unhandled st |}
  | Throw e => {| handler := Returned; calls := calls st;
                  unhandled := unhandled st ++ [e] |}
  end.

(** The catch block of the route; what it throws leaves the handler. *)
Definition catch_block (error : exn) (st : state) : state :=
  let (st, r) :=
    res_json {| status := 500;
                sent := error_envelope
                          [ field "type" (VStr "internal_error");
                            field "message" (VStr (message error)) ] |}
      st in
  finish st r.

(** [res.json(data)], inside the try block. *)
Definition on_body (data : value) (st : state) : state :=
  match res_json {| status := 200; sent := data |} st with
  | (st, Ok _) => finish st (Ok tt)
  | (st, Throw e) => catch_block e st
  end.

Inductive event :=
| ResponseTimeout (timestamp : text)
| FetchResolves (upstream_status : Z)
| FetchRejects (e : exn)
| BodyResolves (data : value)
| BodyRejects (e : exn).

Definition step (requestId reqPath : text) (st : state) (ev : event)
  : state :=
  match ev with
  | ResponseTimeout timestamp =>
      match calls st with
      | [] => fst (res_json (timeout_response requestId reqPath timestamp) st)
      | _ :: _ => st
      end
  | FetchResolves _ =>
      match handler st with
      | AwaitFetch => {| handler := AwaitBody; calls := calls st;
                         unhandled := unhandled st |}
      | _ => st
      end
  | FetchRejects e =>
      match handler st with
      | AwaitFetch => catch_block e st
      | _ => st
      end
  | BodyResolves data =>
      match handler st with
      | AwaitBody => on_body data st
      | _ => st
      end
  | BodyRejects e =>
      match handler st with
      | AwaitBody => catch_block e st
      | _ => st
      end
  end.

Definition init : state :=
  {| handler := AwaitFetch; calls := []; unhandled := [] |}.

Definition run (requestId reqPath : text) (tr : list event) : state :=
  fold_left (step requestId reqPath) tr init.

(** The response the client receives: the first call. *)
Definition delivered (st : state) : option http_response :=
  match calls st with
  | [] => None
  | r :: _ => Some r
  end.

(** What the client receives: a JSON body under a status, or a status
    without body. *)
Inductive answer :=
| Json_ (r : http_response)
| NoContent (status : Z).

(** One request: the call made, if any, and what the client receives, if
    anything yet, after the events [tr]. *)
Definition exchange (api_key requestId meth reqPath : text) (w : wire_body)
  (tr : list event) : option upstream_call * option answer :=
  match receive meth w with
  | Preflight => (None, Some (NoContent 204))
  | Refused r => (None, Some (Json_ r))
  | Routed reqBody =>
      (Some (proxy_call api_key {| method := meth; req_path := reqPath;
                                   req_body := reqBody |}),
       option_map Json_ (delivered (run requestId reqPath tr)))
  end.

End CatchAll.

(** ** What the checks accept, as decidable predicates *)

Module Checks.
Import JS.

(** A choice with a truthy message that has truthy content and role. *)
Definition complete (choice : value) : bool :=
  truthy (own choice "message")
    && truthy (own (own choice "message") "content")
    && truthy (own (own choice "message") "role").

(** A truthy id and an array of complete choices. *)
Definition envelope_ok (response : value) : bool :=
  truthy (own response "id")
    && match own response "choices" with
       | VArr l => forallb complete l
       | _ => false
       end.

(** An array [choices] that is not empty. *)
Definition has_choices (data : value) : bool :=
  match own data "choices" with
  | VArr (_ :: _) => true
  | _ => false
  end.

(** A reply text that is JSON with an array [choices] that is not empty. *)
Definition passes (dataText : text) : bool :=
  match Json.parse dataText with
  | Ok data => has_choices data
  | Throw _ => false
  end.

(** The 500 of the reply check of the validating route. *)
Definition invalid_response : Validating.reply :=
  Validating.Json_ 500
    (VObj [ (("error" : text), VStr "Invalid response from OpenAI.") ]).

(** A collection field as the test script wants it: falsy, or an array
    that is not empty. *)
Definition collection_ok (v : value) : bool :=
  negb (truthy v)
  || match v with VArr (_ :: _) => true | _ => false end.

(** The no-break space, code unit 160. *)
Definition nbsp : ascii := ascii_of_N 160.

End Checks.

Module TrackedChecks.
Import JS Tracked.

(** The server-level timeout has fired. *)
Definition timed_out (tr : list event) : bool :=
  existsb (fun ev => match ev with
                     | ResponseTimeout _ => true
                     | _ => false
                     end) tr.

(** The 504 of the server-level timeout and the 504 of the abort. *)
Definition server_504 (req : request) : write :=
  {| at_site := ServerTimeoutSite; status := 504;
     sent := error_body "Server response timeout reached" "timeout_error"
               "Request took longer than 120 seconds to complete"
               (requestId req) |}.

Definition abort_504 (req : request) : write :=
  {| at_site := CatchAbortSite; status := 504;
     sent := error_body "OpenAI request timeout reached" "timeout_error"
               "Request took longer than 120 seconds to complete"
               (requestId req) |}.

(** The write of the catch block of the handler. *)
Definition catch_write (req : request) (error : exn) : write :=
  if is_abort error then
    {| at_site := CatchAbortSite; status := 504;
       sent := error_body "OpenAI request timeout reached" "timeout_error"
                 timeout_details (requestId req) |}
  else
    {| at_site := CatchErrorSite; status := 500;
       sent := error_body "Failed to process OpenAI request" "proxy_error"
                 (message error) (requestId req) |}.

(** What a response that is not the reply of the upstream has to look like:
    the five fields of the error body with one of the six types, the id of
    the request, and status 504 or 500. *)
Definition error_write_ok (req : request) (w : write) : bool :=
  match at_site w with
  | SuccessSite => true
  | _ =>
      Combined.error_shape (sent w)
        && match own (own (sent w) "error") "requestId" with
           | VStr rid => Text.eqb rid (requestId req)
           | _ => false
           end
        && ((status w =? 504)%Z || (status w =? 500)%Z)
  end.

End TrackedChecks.

(** * Properties *)

(** ** The JSON built-ins: reading back what was written *)

Section JsonFacts.
Import JS Json.

(** Scanning gives back the digits that were written. *)
Lemma scan_digits_text u rest :
  no_digit rest -> scan_digits (uint_text u ++ rest) = (u, rest).
Proof.
  intro H. induction u; simpl; try (rewrite IHu; reflexivity).
  destruct rest as [|c r]; simpl in *; [reflexivity | now rewrite H].
Qed.

(** The digits of a number have no leading zero. *)
Lemma unorm_fix_ok u : Decimal.unorm u = u -> int_part_ok u = true.
Proof.
  destruct u as [|u| | | | | | | | |]; simpl; try reflexivity.
  - discriminate.
  - intro H. rewrite unorm_D0 in H.
    destruct u as [|u'| | | | | | | | |]; try reflexivity.
    all: exfalso; unfold Decimal.unorm in H;
      match type of H with
      | context [Decimal.nzhead ?x] =>
          pose proof (nzhead_nonzero x) as Hn;
          destruct (Decimal.nzhead x) eqn:E; try discriminate;
          try (injection H as H; eapply Hn; rewrite H; reflexivity)
      end.
Qed.

Lemma to_uint_normal n : Decimal.unorm (N.to_uint n) = N.to_uint n.
Proof.
  rewrite <- (DecimalN.Unsigned.of_to n) at 2.
  now rewrite DecimalN.Unsigned.to_of.
Qed.

Lemma to_uint_ok n : int_part_ok (N.to_uint n) = true.
Proof. apply unorm_fix_ok, to_uint_normal. Qed.

Lemma digit_of_none c : Text.is_digit c = false -> digit_of c = None.
Proof.
  destruct c as [[] [] [] [] [] [] [] []]; vm_compute; congruence.
Qed.

Lemma number_end_no_digit rest : number_end rest = true -> no_digit rest.
Proof.
  destruct rest as [|c r]; simpl; [trivial|].
  intro H. apply digit_of_none.
  destruct (Text.is_digit c); [discriminate | reflexivity].
Qed.

Lemma uint_text_head u :
  int_part_ok u = true ->
  exists c r, uint_text u = c :: r /\ Ascii.eqb c "-" = false
              /\ Text.is_digit c = true.
Proof.
  destruct u; simpl; try discriminate; intros _;
    eexists; eexists; (split; [reflexivity | split; reflexivity]).
Qed.

Lemma take_sign_text neg ip rest :
  int_part_ok ip = true ->
  take_sign (sign_text neg ++ uint_text ip ++ rest)
  = (neg, uint_text ip ++ rest).
Proof.
  intro Hip. destruct neg; [reflexivity|].
  destruct (uint_text_head ip Hip) as (c & r & E & Hc & _).
  simpl. rewrite E. simpl. now rewrite Hc.
Qed.

Lemma take_fraction_none rest :
  number_end rest = true -> take_fraction rest = Some (Decimal.Nil, rest).
Proof.
  destruct rest as [|c r]; [reflexivity|]. simpl.
  destruct (Text.is_digit c), (Ascii.eqb c "."); simpl;
    try discriminate; reflexivity.
Qed.

Lemma take_fraction_text fp rest :
  uint_nonempty fp = true ->
  number_end rest = true ->
  take_fraction ("." ++ uint_text fp ++ rest) = Some (fp, rest).
Proof.
  intros Hfp Hrest. simpl.
  rewrite scan_digits_text by now apply number_end_no_digit.
  now rewrite Hfp.
Qed.

Lemma take_exponent_none rest :
  number_end rest = true -> take_exponent rest = Some (0%Z, rest).
Proof.
  destruct rest as [|c r]; [reflexivity|]. simpl.
  destruct (Text.is_digit c), (Ascii.eqb c "."), (Ascii.eqb c "e"),
    (Ascii.eqb c "E"); simpl; try discriminate; reflexivity.
Qed.

Lemma frac_text_end fp rest :
  number_end rest = true -> no_digit (frac_text fp ++ rest).
Proof.
  intro H. destruct fp; simpl; try reflexivity.
  now apply number_end_no_digit.
Qed.

(** A sign, integer digits and fraction digits are read as the decimal they
    spell. *)
Lemma parse_number_shape neg ip fp rest :
  int_part_ok ip = true ->
  number_end rest = true ->
  parse_number (sign_text neg ++ uint_text ip ++ frac_text fp ++ rest)
  = Some (decimal neg ip fp 0, rest).
Proof.
  intros Hip Hrest. unfold parse_number.
  rewrite take_sign_text by assumption.
  rewrite scan_digits_text by now apply frac_text_end.
  rewrite Hip. simpl negb. cbv iota.
  assert (Hf : take_fraction (frac_text fp ++ rest) = Some (fp, rest)).
  { destruct fp; try (apply take_fraction_text; [reflexivity | assumption]).
    now apply take_fraction_none. }
  rewrite Hf, take_exponent_none by assumption.
  reflexivity.
Qed.

Lemma int_part_ok_spec u : int_part_ok u = lok (to_list u).
Proof. destruct u as [|u| | | | | | | | |]; try reflexivity. now destruct u. Qed.

Lemma to_list_iter_D0 p u :
  to_list (Nat.iter p Decimal.D0 u) = repeat d0 p ++ to_list u.
Proof. induction p; simpl; [reflexivity | now rewrite IHp]. Qed.

Lemma del_tail_spec n d :
  (n <= List.length (to_list d))%nat ->
  to_list (Decimal.del_tail n d)
  = firstn (List.length (to_list d) - n) (to_list d).
Proof.
  intro Hn. unfold Decimal.del_tail.
  rewrite rev_spec, del_head_spec_small, rev_spec
    by now rewrite rev_spec, length_rev.
  rewrite firstn_skipn_rev.
  replace (List.length (to_list d) - (List.length (to_list d) - n))%nat
    with n by lia.
  reflexivity.
Qed.

Lemma lok_firstn_pad (l : list digits) (k : nat) :
  lok l = true -> (1 <= k)%nat ->
  lok (firstn (List.length (repeat d0 (S k - List.length l) ++ l) - k)
         (repeat d0 (S k - List.length l) ++ l)) = true.
Proof.
  intros Hl Hk. rewrite length_app, repeat_length.
  destruct (S k - List.length l)%nat as [|p'] eqn:Ep.
  - simpl. destruct l as [|h t]; [discriminate|].
    simpl List.length in *.
    replace (S (List.length t) - k)%nat
      with (S (List.length t - k)) by lia.
    simpl firstn. destruct h; try reflexivity.
    destruct t; [simpl in Ep; lia | discriminate].
  - replace (S p' + List.length l - k)%nat with 1%nat by lia.
    reflexivity.
Qed.

(** The digits written for a canonical number: a well-formed integer part,
    the mantissa as a whole, as many fraction digits as places. *)
Lemma split_digits_ok n :
  canonical n = true ->
  let (ip, fp) := split_digits n in
  int_part_ok ip = true
  /\ N.of_uint (Decimal.app ip fp) = Z.abs_N (mant n)
  /\ Decimal.nb_digits fp = places n.
Proof.
  intro Hc. unfold split_digits.
  set (u := N.to_uint (Z.abs_N (mant n))).
  destruct (places n) as [|k'] eqn:Ek.
  - repeat split.
    + apply to_uint_ok.
    + rewrite DecimalFacts.app_nil_r. apply DecimalN.Unsigned.of_to.
  - set (k := S k').
    assert (Hlen : Decimal.nb_digits
                     (Nat.iter (S k - Decimal.nb_digits u) Decimal.D0 u)
                   = (S k - Decimal.nb_digits u + Decimal.nb_digits u)%nat)
      by apply nb_digits_iter_D0.
    assert (Hk : (k <= Decimal.nb_digits
                     (Nat.iter (S k - Decimal.nb_digits u) Decimal.D0 u))%nat)
      by lia.
    repeat split.
    + rewrite int_part_ok_spec, del_tail_spec
        by (rewrite <- nb_digits_spec; exact Hk).
      rewrite to_list_iter_D0, nb_digits_spec.
      apply lok_firstn_pad; [|unfold k; lia].
      rewrite <- int_part_ok_spec. apply to_uint_ok.
    + rewrite app_del_tail_head by exact Hk.
      rewrite <- DecimalN.Unsigned.of_uint_norm, unorm_iter_D0,
        DecimalN.Unsigned.of_uint_norm.
      apply DecimalN.Unsigned.of_to.
    + now apply nb_digits_del_head_sub.
Qed.

Lemma norm_dec_canonical m k :
  canonical (mkNum m k) = true -> norm_dec m k = mkNum m k.
Proof.
  unfold canonical. simpl. destruct k; [reflexivity|]. simpl.
  now destruct (m mod 10 =? 0)%Z.
Qed.

Lemma signed_abs m : signed (m <? 0)%Z (Z.of_N (Z.abs_N m)) = m.
Proof.
  unfold signed. rewrite N2Z.inj_abs_N.
  destruct (Z.ltb_spec m 0); lia.
Qed.

Lemma decimal_canonical n ip fp :
  canonical n = true ->
  N.of_uint (Decimal.app ip fp) = Z.abs_N (mant n) ->
  Decimal.nb_digits fp = places n ->
  decimal (mant n <? 0)%Z ip fp 0 = n.
Proof.
  intros Hc Hm Hk. unfold decimal. rewrite Hm, Hk.
  fold (signed (mant n <? 0)%Z (Z.of_N (Z.abs_N (mant n)))).
  rewrite signed_abs. rewrite Z.sub_0_r.
  destruct n as [m k]. simpl in *.
  destruct k as [|k'].
  - simpl. f_equal. lia.
  - destruct (Z.leb_spec (Z.of_nat (S k')) 0); [lia|].
    rewrite Nat2Z.id. now apply norm_dec_canonical.
Qed.

Lemma representable_canonical n :
  representable n = true -> canonical n = true.
Proof.
  unfold representable. intro H.
  apply andb_prop in H as [H _]. now apply andb_prop in H as [H _].
Qed.

Lemma print_number_plain n :
  representable n = true -> print_number n = plain_text n.
Proof.
  unfold representable, print_number. intro H.
  apply andb_prop in H as [_ H]. now rewrite H.
Qed.

(** A representable number is read back from its text. *)
Theorem parse_print_number n rest :
  representable n = true ->
  number_end rest = true ->
  parse_number (print_number n ++ rest) = Some (n, rest).
Proof.
  intros Hr Hrest. rewrite (print_number_plain n Hr).
  pose proof (representable_canonical n Hr) as Hc. unfold plain_text.
  pose proof (split_digits_ok n Hc) as H.
  destruct (split_digits n) as [ip fp].
  destruct H as (Hip & Hm & Hk).
  rewrite <- !app_assoc.
  rewrite parse_number_shape by assumption.
  now rewrite decimal_canonical.
Qed.

(** A string is read back from its quoted text. *)
Lemma parse_chars_escape s rest :
  parse_chars (escape s ++ dquote :: rest) = Some (s, rest).
Proof.
  induction s as [|c s IH]; [reflexivity|].
  unfold escape in *. simpl flat_map. rewrite <- app_assoc.
  destruct c as [[] [] [] [] [] [] [] []];
    (cbn -[flat_map parse_chars]; cbn [parse_chars];
     cbn -[flat_map parse_chars]; rewrite IH; reflexivity).
Qed.

Lemma stringify_arr l :
  stringify (VArr l)
  = "[" ++ tl (flat_map (fun x => "," ++ stringify x) l) ++ "]".
Proof. reflexivity. Qed.

Lemma stringify_obj fs :
  stringify (VObj fs) = "{" ++ tl (flat_map member_text fs) ++ "}".
Proof. reflexivity. Qed.

Lemma print_number_head n :
  representable n = true ->
  exists c r, print_number n = c :: r
              /\ (Ascii.eqb c "-" || Text.is_digit c) = true.
Proof.
  intro Hr. rewrite (print_number_plain n Hr).
  pose proof (representable_canonical n Hr) as Hc. unfold plain_text.
  pose proof (split_digits_ok n Hc) as H.
  destruct (split_digits n) as [ip fp]. destruct H as (Hip & _).
  destruct (uint_text_head ip Hip) as (c & r & E & _ & Hd).
  destruct (mant n <? 0)%Z; simpl.
  - eexists; eexists; split; reflexivity.
  - rewrite E. simpl. eexists; eexists; split; [reflexivity|].
    rewrite Hd. apply orb_true_r.
Qed.

Lemma number_opener c :
  (Ascii.eqb c "-" || Text.is_digit c) = true -> opener c = true.
Proof.
  destruct c as [[] [] [] [] [] [] [] []]; vm_compute; congruence.
Qed.

Lemma stringify_head v :
  is_json v = true ->
  exists c r, stringify v = c :: r /\ opener c = true.
Proof.
  destruct v as [| |b|n|s|l|fs]; simpl; intro H; try discriminate.
  - eexists; eexists; split; reflexivity.
  - destruct b; eexists; eexists; split; reflexivity.
  - destruct (print_number_head n H) as (c & r & E & Hc).
    exists c, r. split; [exact E | now apply number_opener].
  - eexists; eexists; split; reflexivity.
  - eexists; eexists; split; reflexivity.
  - eexists; eexists; split; reflexivity.
Qed.

Lemma parse_value_number fuel c r :
  (Ascii.eqb c "-" || Text.is_digit c) = true ->
  parse_value (S fuel) (c :: r)
  = match parse_number (c :: r) with
    | Some (n, r1) => Some (VNum n, r1)
    | None => None
    end.
Proof.
  destruct c as [[] [] [] [] [] [] [] []]; intro H;
    vm_compute in H; try discriminate H; reflexivity.
Qed.

Lemma elems_text_cons x l :
  elems_text (x :: l) = "," ++ stringify x ++ elems_text l.
Proof. reflexivity. Qed.

Lemma parse_elems_comma f r :
  parse_elems (S f) ("," ++ r)
  = match parse_value f r with
    | Some (v, r1) => cons_fst v (parse_elems f r1)
    | None => None
    end.
Proof. reflexivity. Qed.

Lemma parse_members_comma f r :
  parse_members (S f) ("," ++ r)
  = match parse_member (parse_value f) r with
    | Some (kv, r1) => cons_fst kv (parse_members f r1)
    | None => None
    end.
Proof. reflexivity. Qed.

Lemma opener_facts c :
  opener c = true ->
  is_ws c = false /\ Ascii.eqb c "]" = false /\ Ascii.eqb c "}" = false.
Proof.
  unfold opener.
  destruct (is_ws c), (Ascii.eqb c "]"), (Ascii.eqb c "}");
    simpl; try discriminate; auto.
Qed.

Lemma parse_value_array f c r :
  opener c = true ->
  parse_value (S f) ("[" ++ c :: r)
  = match parse_value f (c :: r) with
    | Some (v, r1) =>
        match parse_elems f r1 with
        | Some (vs, r2) => Some (VArr (v :: vs), r2)
        | None => None
        end
    | None => None
    end.
Proof.
  intro H. destruct (opener_facts c H) as (Hw & Hb & _).
  change (parse_value (S f) ("[" ++ c :: r))
    with (match skip_ws (c :: r) with
          | c' :: r' =>
              if Ascii.eqb c' "]" then Some (VArr [], r')
              else
                match parse_value f (c :: r) with
                | Some (v, r1) =>
                    match parse_elems f r1 with
                    | Some (vs, r2) => Some (VArr (v :: vs), r2)
                    | None => None
                    end
                | None => None
                end
          | [] => None
          end).
  simpl skip_ws. rewrite Hw, Hb. reflexivity.
Qed.

Lemma parse_value_object f c r :
  opener c = true ->
  parse_value (S f) ("{" ++ c :: r)
  = match parse_member (parse_value f) (c :: r) with
    | Some (kv, r1) =>
        match parse_members f r1 with
        | Some (ms, r2) => Some (build_object (kv :: ms), r2)
        | None => None
        end
    | None => None
    end.
Proof.
  intro H. destruct (opener_facts c H) as (Hw & _ & Hb).
  change (parse_value (S f) ("{" ++ c :: r))
    with (match skip_ws (c :: r) with
          | c' :: r' =>
              if Ascii.eqb c' "}" then Some (VObj [], r')
              else
                match parse_member (parse_value f) (c :: r) with
                | Some (kv, r1) =>
                    match parse_members f r1 with
                    | Some (ms, r2) => Some (build_object (kv :: ms), r2)
                    | None => None
                    end
                | None => None
                end
          | [] => None
          end).
  simpl skip_ws. rewrite Hw, Hb. reflexivity.
Qed.

Lemma parse_value_string f s r :
  parse_value (S f) (quote s ++ r) = Some (VStr s, r).
Proof.
  unfold quote. rewrite <- app_comm_cons, <- app_assoc.
  change (parse_value (S f) (dquote :: escape s ++ [dquote] ++ r))
    with (match parse_chars (escape s ++ dquote :: r) with
          | Some (t, r1) => Some (VStr t, r1)
          | None => None
          end).
  now rewrite parse_chars_escape.
Qed.

Lemma elems_text_end l rest : number_end (elems_text l ++ "]" ++ rest) = true.
Proof. destruct l; reflexivity. Qed.

(** The elements of an array are read back, each by its own round trip. *)
Lemma parse_elems_text l :
  Forall roundtrips l ->
  forallb is_json l = true ->
  forall fuel rest,
    (List.length (elems_text l ++ "]" ++ rest) < fuel)%nat ->
    parse_elems fuel (elems_text l ++ "]" ++ rest) = Some (l, rest).
Proof.
  induction 1 as [|x l Hx Hl IH]; intros Hwf fuel rest Hfuel.
  - destruct fuel as [|f]; [simpl in Hfuel; lia|]. reflexivity.
  - simpl in Hwf. apply andb_prop in Hwf as [Hwx Hwl].
    destruct fuel as [|f]; [simpl in Hfuel; lia|].
    rewrite elems_text_cons in *. rewrite <- !app_assoc in *.
    rewrite parse_elems_comma.
    assert (Hlen : (List.length (stringify x ++ elems_text l ++ "]" ++ rest)
                    < f)%nat).
    { rewrite (length_app (list_ascii_of_string ",")) in Hfuel.
      change (List.length (list_ascii_of_string ",")) with 1%nat in Hfuel.
      lia. }
    rewrite Hx; [ | assumption | apply elems_text_end | exact Hlen ].
    rewrite IH; [reflexivity | assumption | ].
    rewrite length_app in Hlen. lia.
Qed.

Lemma member_text_defined k x :
  is_json x = true -> member_text (k, x) = "," ++ quote k ++ ":" ++ stringify x.
Proof. destruct x; simpl; try reflexivity. discriminate. Qed.

Lemma parse_member_text pv k x rest :
  pv (stringify x ++ rest) = Some (x, rest) ->
  parse_member pv (quote k ++ ":" ++ stringify x ++ rest)
  = Some ((k, x), rest).
Proof.
  intro H. unfold parse_member, quote.
  rewrite <- app_comm_cons, <- app_assoc.
  change (escape k ++ [dquote] ++ ":" ++ stringify x ++ rest)
    with (escape k ++ dquote :: ":"%char :: stringify x ++ rest).
  cbn -[parse_chars stringify escape app].
  rewrite parse_chars_escape.
  cbn -[stringify app].
  now rewrite H.
Qed.

Lemma members_text_end fs rest :
  forallb (fun kv => is_json (snd kv)) fs = true ->
  number_end (members_text fs ++ "}" ++ rest) = true.
Proof.
  destruct fs as [|[k x] fs]; [reflexivity|].
  intro H. cbn [forallb snd] in H. apply andb_prop in H as [H _].
  unfold members_text. cbn [flat_map].
  rewrite (member_text_defined k x H). reflexivity.
Qed.

Lemma members_text_cons k x fs :
  is_json x = true ->
  members_text ((k, x) :: fs)
  = "," ++ quote k ++ ":" ++ stringify x ++ members_text fs.
Proof.
  intro H. unfold members_text. cbn [flat_map].
  rewrite (member_text_defined k x H). now rewrite <- !app_assoc.
Qed.

(** The members of an object are read back in the same way. *)
Lemma parse_members_text fs :
  Forall (fun kv => roundtrips (snd kv)) fs ->
  forallb (fun kv => is_json (snd kv)) fs = true ->
  forall fuel rest,
    (List.length (members_text fs ++ "}" ++ rest) < fuel)%nat ->
    parse_members fuel (members_text fs ++ "}" ++ rest) = Some (fs, rest).
Proof.
  induction 1 as [|[k x] fs Hx Hfs IH]; intros Hwf fuel rest Hfuel.
  - destruct fuel as [|f]; [simpl in Hfuel; lia|]. reflexivity.
  - cbn [forallb snd] in Hwf. apply andb_prop in Hwf as [Hwx Hwl].
    destruct fuel as [|f]; [simpl in Hfuel; lia|].
    rewrite (members_text_cons k x fs Hwx) in *.
    rewrite <- !app_assoc in *.
    rewrite parse_members_comma.
    rewrite (length_app (list_ascii_of_string ",")) in Hfuel.
    change (List.length (list_ascii_of_string ",")) with 1%nat in Hfuel.
    rewrite (length_app (quote k)) in Hfuel.
    rewrite (length_app (list_ascii_of_string ":")) in Hfuel.
    rewrite parse_member_text.
    + rewrite IH; [reflexivity | assumption | ].
      rewrite length_app in Hfuel. lia.
    + cbn [snd] in Hx.
      apply Hx; [assumption | now apply members_text_end | lia].
Qed.

Lemma text_eqb_sym a b : Text.eqb a b = Text.eqb b a.
Proof.
  revert b. induction a as [|x a IH]; destruct b as [|y b]; simpl; auto.
  now rewrite IH, Ascii.eqb_sym.
Qed.

Lemma unique_keys_app acc k v ms :
  unique_keys (acc ++ (k, v) :: ms) = true ->
  existsb (fun kv => Text.eqb (fst kv) k) acc = false.
Proof.
  induction acc as [|[k' v'] acc IH]; simpl; [reflexivity|].
  intro H. apply andb_prop in H as [H1 H2].
  rewrite (IH H2), orb_false_r.
  rewrite existsb_app in H1. simpl in H1.
  apply negb_true_iff in H1.
  apply orb_false_elim in H1 as [_ H1].
  apply orb_false_elim in H1 as [H1 _].
  now rewrite text_eqb_sym.
Qed.

(** The keys before an array index in an ordered list are smaller
    indices. *)
Definition below (i : N) (fs : list (text * value)) : bool :=
  forallb (fun kv => match array_index (fst kv) with
                     | Some j => (j <? i)%N
                     | None => false
                     end) fs.

Lemma insert_index_below i kv acc :
  below i acc = true -> insert_index i kv acc = acc ++ [kv].
Proof.
  induction acc as [|[k' v'] acc IH]; cbn [below forallb insert_index app fst];
    [reflexivity|].
  intro H. apply andb_prop in H as [H1 H2].
  destruct (array_index k') as [j|]; [|discriminate H1].
  rewrite H1. now rewrite (IH H2).
Qed.

Lemma ordered_prefix k v i ms : forall acc last named,
  ordered_from last named (acc ++ (k, v) :: ms) = true ->
  array_index k = Some i ->
  named = false
  /\ (forall j, last = Some j -> (j < i)%N)
  /\ below i acc = true.
Proof.
  induction acc as [|[k' v'] acc IH]; intros last named H Hk;
    cbn [app ordered_from] in H.
  - rewrite Hk in H. apply andb_prop in H as [H _].
    apply andb_prop in H as [Hn Hl]. apply negb_true_iff in Hn.
    split; [exact Hn|]. split; [|reflexivity].
    intros j ->. now apply N.ltb_lt.
  - destruct (array_index k') as [j|] eqn:Ek'.
    + apply andb_prop in H as [H Ho]. apply andb_prop in H as [Hn Hl].
      apply negb_true_iff in Hn.
      destruct (IH (Some j) false Ho Hk) as (_ & Hj & Hb).
      specialize (Hj j eq_refl).
      split; [exact Hn|]. split.
      * intros j0 ->. apply N.ltb_lt in Hl. lia.
      * unfold below in Hb |- *. cbn [forallb fst].
        rewrite Ek', Hb. apply N.ltb_lt in Hj. now rewrite Hj.
    + destruct (IH last true H Hk) as (Hn & _). discriminate Hn.
Qed.

Lemma member_set_next acc k v ms :
  unique_keys (acc ++ (k, v) :: ms) = true ->
  ordered_keys (acc ++ (k, v) :: ms) = true ->
  member_set k v acc = acc ++ [(k, v)].
Proof.
  intros Hu Ho. unfold member_set, has_key.
  rewrite (unique_keys_app acc k v ms Hu).
  destruct (array_index k) as [i|] eqn:Ek; [|reflexivity].
  apply insert_index_below.
  now destruct (ordered_prefix k v i ms acc None false Ho Ek) as (_ & _ & H).
Qed.

(** Keys that are all different and in the order of the engine become
    properties in textual order. *)
Lemma fold_member_set ms : forall acc,
  unique_keys (acc ++ ms) = true ->
  ordered_keys (acc ++ ms) = true ->
  fold_left (fun acc kv => member_set (fst kv) (snd kv) acc) ms acc
  = acc ++ ms.
Proof.
  induction ms as [|[k v] ms IH]; intros acc Hu Ho; cbn [fold_left fst snd].
  - now rewrite List.app_nil_r.
  - rewrite (member_set_next acc k v ms Hu Ho).
    rewrite IH; rewrite <- app_assoc; [reflexivity | exact Hu | exact Ho].
Qed.

Lemma build_object_unique fs :
  keys_ok fs = true -> build_object fs = VObj fs.
Proof.
  unfold keys_ok. intro H. apply andb_prop in H as [Hu Ho].
  unfold build_object. now rewrite fold_member_set.
Qed.

(** Every JSON value is read back from its text, whatever follows it. *)
Theorem parse_stringify_value v : roundtrips v.
Proof.
  induction v using value_nested_ind; intros Hwf fuel rest Hend Hfuel;
    (destruct fuel as [|f]; [simpl in Hfuel; lia|]).
  - discriminate.
  - reflexivity.
  - destruct b; reflexivity.
  - simpl in Hwf. simpl stringify.
    destruct (print_number_head n Hwf) as (c & r & E & Hc).
    rewrite E. simpl app. rewrite parse_value_number by exact Hc.
    change (c :: r ++ rest) with ((c :: r) ++ rest). rewrite <- E.
    now rewrite parse_print_number.
  - apply parse_value_string.
  - rewrite stringify_arr. fold (elems_text l).
    simpl in Hwf.
    destruct l as [|x l].
    + reflexivity.
    + rewrite elems_text_cons. simpl tl.
      simpl in Hwf. apply andb_prop in Hwf as [Hwx Hwl].
      destruct (stringify_head x Hwx) as (c & r & E & Hc).
      rewrite <- !app_assoc. rewrite E. rewrite <- !app_comm_cons.
      rewrite parse_value_array by exact Hc.
      rewrite !app_comm_cons, <- E.
      inversion H as [|? ? Hx Hl]; subst.
      rewrite stringify_arr in Hfuel. fold (elems_text (x :: l)) in Hfuel.
      rewrite elems_text_cons in Hfuel. simpl tl in Hfuel.
      rewrite <- !app_assoc in Hfuel.
      rewrite (length_app (list_ascii_of_string "[")) in Hfuel.
      change (List.length (list_ascii_of_string "[")) with 1%nat in Hfuel.
      rewrite Hx; [ | assumption | apply elems_text_end | lia ].
      rewrite parse_elems_text; [reflexivity | assumption | assumption | ].
      rewrite length_app in Hfuel. lia.
  - rewrite stringify_obj in *. fold (members_text fs) in *.
    simpl in Hwf. apply andb_prop in Hwf as [Hu Hwf].
    destruct fs as [|[k x] fs].
    + reflexivity.
    + cbn [forallb snd] in Hwf. apply andb_prop in Hwf as [Hwx Hwl].
      rewrite (members_text_cons k x fs Hwx) in *.
      change (tl ("," ++ quote k ++ ":" ++ stringify x ++ members_text fs))
        with (quote k ++ ":" ++ stringify x ++ members_text fs) in *.
      rewrite <- !app_assoc in *.
      unfold quote at 1. rewrite <- !app_comm_cons.
      rewrite parse_value_object by reflexivity.
      change (dquote :: (escape k ++ [dquote])
                ++ ":" ++ stringify x ++ members_text fs ++ "}" ++ rest)
        with (quote k ++ ":" ++ stringify x ++ members_text fs ++ "}" ++ rest).
      inversion H as [|? ? Hx Hl]; subst. simpl in Hx.
      rewrite (length_app (list_ascii_of_string "{")) in Hfuel.
      change (List.length (list_ascii_of_string "{")) with 1%nat in Hfuel.
      rewrite (length_app (quote k)) in Hfuel.
      rewrite (length_app (list_ascii_of_string ":")) in Hfuel.
      rewrite parse_member_text.
      * rewrite parse_members_text; [ | assumption | assumption | ].
        -- now rewrite build_object_unique.
        -- rewrite length_app in Hfuel. lia.
      * apply Hx; [assumption | now apply members_text_end | lia].
Qed.

(** [JSON.parse(JSON.stringify(v))] is [v]. *)
Theorem parse_stringify v :
  is_json v = true -> Json.parse (stringify v) = Ok v.
Proof.
  intro H. unfold Json.parse.
  pose proof (parse_stringify_value v H (S (List.length (stringify v))) []
                eq_refl) as E.
  rewrite List.app_nil_r in E. rewrite E by lia. reflexivity.
Qed.

End JsonFacts.

(** ** The JSON built-ins: the fuel of the parser *)

Section FuelFacts.
Import JS Json.

Lemma skip_ws_length s : (List.length (skip_ws s) <= List.length s)%nat.
Proof.
  induction s as [|c s IH]; simpl; [lia|].
  destruct (is_ws c); simpl; lia.
Qed.

Lemma skip_ws_cons s c r :
  skip_ws s = c :: r -> (List.length r < List.length s)%nat.
Proof.
  intro H. pose proof (skip_ws_length s) as L. rewrite H in L.
  simpl in L. lia.
Qed.

Lemma cons_fst_shrinks {A B : Type} (a : A) (p : option (list A * list B)) n :
  (forall l r, p = Some (l, r) -> (List.length r < n)%nat) ->
  forall l r, cons_fst a p = Some (l, r) -> (List.length r < n)%nat.
Proof.
  intros H l r. destruct p as [[l' r']|]; simpl; [|discriminate].
  intro E. injection E as _ <-. now apply (H l').
Qed.

Lemma parse_chars_shrinks_upto n :
  forall s, (List.length s <= n)%nat ->
  forall t r, parse_chars s = Some (t, r) ->
  (List.length r < List.length s)%nat.
Proof.
  induction n as [|n IH]; intros s Hn t r.
  - destruct s; [discriminate | simpl in Hn; lia].
  - destruct s as [|c s']; simpl; [discriminate|].
    simpl in Hn.
    destruct (Ascii.eqb c dquote).
    { intro E. injection E as _ <-. lia. }
    destruct (Ascii.eqb c "\").
    + destruct s' as [|e s'']; [discriminate|].
      destruct (Ascii.eqb e "u").
      * destruct s'' as [|h1 [|h2 [|h3 [|h4 s4]]]]; try discriminate.
        destruct (hex4 h1 h2 h3 h4); [|discriminate].
        apply cons_fst_shrinks. intros l r' E.
        apply IH in E; simpl in *; lia.
      * destruct (unescape e); [|discriminate].
        apply cons_fst_shrinks. intros l r' E.
        apply IH in E; simpl in *; lia.
    + destruct (Text.code c <? 32)%N; [discriminate|].
      apply cons_fst_shrinks. intros l r' E.
      apply IH in E; simpl in *; lia.
Qed.

Lemma parse_chars_shrinks : shrinks parse_chars.
Proof. intros s t r. now apply (parse_chars_shrinks_upto (List.length s)). Qed.

Lemma scan_digits_length s :
  List.length s
  = (Decimal.nb_digits (fst (scan_digits s))
     + List.length (snd (scan_digits s)))%nat.
Proof.
  induction s as [|c s IH]; simpl; [reflexivity|].
  destruct (digit_of c) as [d|] eqn:E; [|reflexivity].
  destruct (scan_digits s) as [u r]. simpl in *.
  unfold digit_of in E.
  destruct (Text.code c) as [|p]; try discriminate.
  repeat (destruct p as [p|p|]; try discriminate);
    injection E as <-; simpl; lia.
Qed.

Lemma take_fraction_length s fp r :
  take_fraction s = Some (fp, r) -> (List.length r <= List.length s)%nat.
Proof.
  unfold take_fraction. destruct s as [|c s'].
  - intro E. injection E as _ <-. lia.
  - destruct (Ascii.eqb c ".").
    + pose proof (scan_digits_length s') as L.
      destruct (scan_digits s') as [u r']. simpl in L.
      destruct (uint_nonempty u); [|discriminate].
      intro E. injection E as _ <-. simpl. lia.
    + intro E. injection E as _ <-. lia.
Qed.

Lemma take_exponent_length s e r :
  take_exponent s = Some (e, r) -> (List.length r <= List.length s)%nat.
Proof.
  unfold take_exponent. destruct s as [|c s'].
  - intro E. injection E as _ <-. lia.
  - destruct (Ascii.eqb c "e" || Ascii.eqb c "E").
    + set (p := match s' with
                | [] => (false, s')
                | d :: r' =>
                    if Ascii.eqb d "-" then (true, r')
                    else if Ascii.eqb d "+" then (false, r')
                    else (false, s')
                end).
      assert (Hp : (List.length (snd p) <= List.length s')%nat).
      { unfold p. destruct s' as [|d r']; simpl; [lia|].
        destruct (Ascii.eqb d "-"); simpl; [lia|].
        destruct (Ascii.eqb d "+"); simpl; lia. }
      destruct p as [eneg r1]. simpl in Hp.
      pose proof (scan_digits_length r1) as L.
      destruct (scan_digits r1) as [u r']. simpl in L.
      destruct (uint_nonempty u); [|discriminate].
      intro E. injection E as _ <-. simpl. lia.
    + intro E. injection E as _ <-. lia.
Qed.

Lemma parse_number_shrinks : shrinks parse_number.
Proof.
  intros s n r. unfold parse_number.
  assert (Hs : (List.length (snd (take_sign s)) <= List.length s)%nat).
  { unfold take_sign. destruct s as [|c s']; simpl; [lia|].
    destruct (Ascii.eqb c "-"); simpl; lia. }
  destruct (take_sign s) as [neg s1]. simpl in Hs.
  pose proof (scan_digits_length s1) as L.
  destruct (scan_digits s1) as [ip s2]. simpl in L.
  destruct (int_part_ok ip) eqn:Hip; [|discriminate]. simpl negb. cbv iota.
  assert (Decimal.nb_digits ip <> 0)%nat by (destruct ip; simpl in *; congruence).
  destruct (take_fraction s2) as [[fp s3]|] eqn:Ef; [|discriminate].
  apply take_fraction_length in Ef.
  destruct (take_exponent s3) as [[e s4]|] eqn:Ee; [|discriminate].
  apply take_exponent_length in Ee.
  intro E. injection E as _ <-. lia.
Qed.

Lemma strip_prefix_length p s r :
  Text.strip_prefix p s = Some r ->
  List.length s = (List.length p + List.length r)%nat.
Proof.
  revert s. induction p as [|x p IH]; intros s; simpl.
  - intro E. now injection E as <-.
  - destruct s as [|y s]; [discriminate|].
    destruct (Ascii.eqb x y); [|discriminate].
    intro E. apply IH in E. simpl. lia.
Qed.

Lemma literal_shrinks word v :
  word <> [] -> shrinks (literal word v).
Proof.
  intros Hw s a r. unfold literal.
  destruct (Text.strip_prefix word s) eqn:E; [|discriminate].
  intro H. injection H as _ <-.
  apply strip_prefix_length in E. destruct word; [congruence|].
  simpl in *. lia.
Qed.

Lemma parse_member_shrinks pv : shrinks pv -> shrinks (parse_member pv).
Proof.
  intros Hpv s kv r. unfold parse_member.
  destruct (skip_ws s) as [|q r0] eqn:E0; [discriminate|].
  apply skip_ws_cons in E0.
  destruct (Ascii.eqb q dquote); [|discriminate].
  destruct (parse_chars r0) as [[k r1]|] eqn:E1; [|discriminate].
  apply parse_chars_shrinks in E1.
  destruct (skip_ws r1) as [|c r2] eqn:E2; [discriminate|].
  apply skip_ws_cons in E2.
  destruct (Ascii.eqb c ":"); [|discriminate].
  destruct (pv r2) as [[v r3]|] eqn:E3; [|discriminate].
  apply Hpv in E3.
  intro E. injection E as _ <-. lia.
Qed.

Lemma parse_member_agree pv pv' s :
  agree_below (List.length s) pv pv' ->
  parse_member pv s = parse_member pv' s.
Proof.
  intros H. unfold parse_member.
  destruct (skip_ws s) as [|q r0] eqn:E0; [reflexivity|].
  apply skip_ws_cons in E0.
  destruct (Ascii.eqb q dquote); [|reflexivity].
  destruct (parse_chars r0) as [[k r1]|] eqn:E1; [|reflexivity].
  apply parse_chars_shrinks in E1.
  destruct (skip_ws r1) as [|c r2] eqn:E2; [reflexivity|].
  apply skip_ws_cons in E2.
  destruct (Ascii.eqb c ":"); [|reflexivity].
  rewrite (H r2) by lia. reflexivity.
Qed.

Lemma value_step_shrinks pv pe pm :
  shrinks pv -> shrinks pe -> shrinks pm -> shrinks (value_step pv pe pm).
Proof.
  intros Hv He Hm s a r. unfold value_step.
  destruct (skip_ws s) as [|c r0] eqn:E0; [discriminate|].
  apply skip_ws_cons in E0.
  destruct (Ascii.eqb c "{").
  { destruct (skip_ws r0) as [|c' r'] eqn:E1; [discriminate|].
    apply skip_ws_cons in E1.
    destruct (Ascii.eqb c' "}").
    - intro E. injection E as _ <-. lia.
    - destruct (parse_member pv r0) as [[kv r1]|] eqn:E2; [|discriminate].
      apply (parse_member_shrinks pv Hv) in E2.
      destruct (pm r1) as [[ms r2]|] eqn:E3; [|discriminate].
      apply Hm in E3. intro E. injection E as _ <-. lia. }
  destruct (Ascii.eqb c "[").
  { destruct (skip_ws r0) as [|c' r'] eqn:E1; [discriminate|].
    apply skip_ws_cons in E1.
    destruct (Ascii.eqb c' "]").
    - intro E. injection E as _ <-. lia.
    - destruct (pv r0) as [[v r1]|] eqn:E2; [|discriminate].
      apply Hv in E2.
      destruct (pe r1) as [[vs r2]|] eqn:E3; [|discriminate].
      apply He in E3. intro E. injection E as _ <-. lia. }
  destruct (Ascii.eqb c dquote).
  { destruct (parse_chars r0) as [[t r1]|] eqn:E1; [|discriminate].
    apply parse_chars_shrinks in E1.
    intro E. injection E as _ <-. lia. }
  assert (Hlit : forall word v,
             word <> [] ->
             literal word v (c :: r0) = Some (a, r) ->
             (List.length r < List.length s)%nat).
  { intros word v Hw E. apply (literal_shrinks word v Hw) in E.
    simpl in E. lia. }
  destruct (Ascii.eqb c "t"); [now apply Hlit|].
  destruct (Ascii.eqb c "f"); [now apply Hlit|].
  destruct (Ascii.eqb c "n"); [now apply Hlit|].
  destruct (Ascii.eqb c "-" || Text.is_digit c); [|discriminate].
  destruct (parse_number (c :: r0)) as [[n r1]|] eqn:E1; [|discriminate].
  apply parse_number_shrinks in E1.
  intro E. injection E as _ <-. simpl in E1. lia.
Qed.

Lemma elems_step_shrinks pv pe :
  shrinks pv -> shrinks pe -> shrinks (elems_step pv pe).
Proof.
  intros Hv He s a r. unfold elems_step.
  destruct (skip_ws s) as [|c r0] eqn:E0; [discriminate|].
  apply skip_ws_cons in E0.
  destruct (Ascii.eqb c "]").
  { intro E. injection E as _ <-. lia. }
  destruct (Ascii.eqb c ","); [|discriminate].
  destruct (pv r0) as [[v r1]|] eqn:E1; [|discriminate].
  apply Hv in E1.
  apply cons_fst_shrinks. intros l r' E. apply He in E. lia.
Qed.

Lemma members_step_shrinks pv pm :
  shrinks pv -> shrinks pm -> shrinks (members_step pv pm).
Proof.
  intros Hv Hm s a r. unfold members_step.
  destruct (skip_ws s) as [|c r0] eqn:E0; [discriminate|].
  apply skip_ws_cons in E0.
  destruct (Ascii.eqb c "}").
  { intro E. injection E as _ <-. lia. }
  destruct (Ascii.eqb c ","); [|discriminate].
  destruct (parse_member pv r0) as [[kv r1]|] eqn:E1; [|discriminate].
  apply (parse_member_shrinks pv Hv) in E1.
  apply cons_fst_shrinks. intros l r' E. apply Hm in E. lia.
Qed.

(** Every parser consumes at least one character. *)
Lemma parse_shrinks fuel :
  shrinks (parse_value fuel) /\ shrinks (parse_elems fuel)
  /\ shrinks (parse_members fuel).
Proof.
  induction fuel as [|f (Hv & He & Hm)].
  - repeat split; intros s a r; discriminate.
  - repeat split.
    + now apply value_step_shrinks.
    + now apply elems_step_shrinks.
    + now apply members_step_shrinks.
Qed.

Lemma value_step_agree pv pe pm pv' pe' pm' s :
  shrinks pv ->
  agree_below (List.length s) pv pv' ->
  agree_below (List.length s) pe pe' ->
  agree_below (List.length s) pm pm' ->
  value_step pv pe pm s = value_step pv' pe' pm' s.
Proof.
  intros Hs Hv He Hm. unfold value_step.
  destruct (skip_ws s) as [|c r0] eqn:E0; [reflexivity|].
  apply skip_ws_cons in E0.
  destruct (Ascii.eqb c "{").
  { destruct (skip_ws r0) as [|c' r'] eqn:E1; [reflexivity|].
    destruct (Ascii.eqb c' "}"); [reflexivity|].
    rewrite <- (parse_member_agree pv pv' r0)
      by (intros t Ht; apply Hv; lia).
    destruct (parse_member pv r0) as [[kv r1]|] eqn:E2; [|reflexivity].
    apply (parse_member_shrinks pv Hs) in E2.
    rewrite (Hm r1) by lia. reflexivity. }
  destruct (Ascii.eqb c "[").
  { destruct (skip_ws r0) as [|c' r'] eqn:E1; [reflexivity|].
    destruct (Ascii.eqb c' "]"); [reflexivity|].
    rewrite <- (Hv r0) by lia.
    destruct (pv r0) as [[v r1]|] eqn:E2; [|reflexivity].
    apply Hs in E2. rewrite (He r1) by lia. reflexivity. }
  reflexivity.
Qed.

Lemma elems_step_agree pv pe pv' pe' s :
  shrinks pv ->
  agree_below (List.length s) pv pv' ->
  agree_below (List.length s) pe pe' ->
  elems_step pv pe s = elems_step pv' pe' s.
Proof.
  intros Hs Hv He. unfold elems_step.
  destruct (skip_ws s) as [|c r0] eqn:E0; [reflexivity|].
  apply skip_ws_cons in E0.
  destruct (Ascii.eqb c "]"); [reflexivity|].
  destruct (Ascii.eqb c ","); [|reflexivity].
  rewrite <- (Hv r0) by lia.
  destruct (pv r0) as [[v r1]|] eqn:E2; [|reflexivity].
  apply Hs in E2. rewrite (He r1) by lia. reflexivity.
Qed.

Lemma members_step_agree pv pm pv' pm' s :
  shrinks pv ->
  agree_below (List.length s) pv pv' ->
  agree_below (List.length s) pm pm' ->
  members_step pv pm s = members_step pv' pm' s.
Proof.
  intros Hs Hv Hm. unfold members_step.
  destruct (skip_ws s) as [|c r0] eqn:E0; [reflexivity|].
  apply skip_ws_cons in E0.
  destruct (Ascii.eqb c "}"); [reflexivity|].
  destruct (Ascii.eqb c ","); [|reflexivity].
  rewrite <- (parse_member_agree pv pv' r0)
    by (intros t Ht; apply Hv; lia).
  destruct (parse_member pv r0) as [[kv r1]|] eqn:E2; [|reflexivity].
  apply (parse_member_shrinks pv Hs) in E2.
  rewrite (Hm r1) by lia. reflexivity.
Qed.

(** Fuel beyond the length of the text changes nothing. *)
Lemma parse_fuel_agree f : forall f' s,
  (List.length s < f)%nat -> (List.length s < f')%nat ->
  parse_value f s = parse_value f' s
  /\ parse_elems f s = parse_elems f' s
  /\ parse_members f s = parse_members f' s.
Proof.
  induction f as [|g IH]; intros f' s Hf Hf'; [lia|].
  destruct f' as [|g']; [lia|].
  destruct (parse_shrinks g) as (Sv & _ & _).
  assert (Av : agree_below (List.length s) (parse_value g) (parse_value g'))
    by (intros t Ht; apply IH; lia).
  assert (Ae : agree_below (List.length s) (parse_elems g) (parse_elems g'))
    by (intros t Ht; apply IH; lia).
  assert (Am : agree_below (List.length s) (parse_members g)
                 (parse_members g'))
    by (intros t Ht; apply IH; lia).
  repeat split; simpl.
  - now apply value_step_agree.
  - now apply elems_step_agree.
  - now apply members_step_agree.
Qed.

(** [JSON.parse] does not fail for want of fuel: more fuel than the text is
    long gives the same result. *)
Theorem parse_fuel_enough fuel s :
  (List.length s < fuel)%nat ->
  parse_value fuel s = parse_value (S (List.length s)) s.
Proof. intro H. apply parse_fuel_agree; lia. Qed.

End FuelFacts.

(** ** The sanitizer on fenced text *)

Section FenceFacts.
Import JS Json Eff Combined.

Lemma skip_spaces_app w s :
  forallb Text.is_space w = true ->
  Text.skip_spaces (w ++ s) = Text.skip_spaces s.
Proof.
  induction w as [|c w IH]; simpl; [reflexivity|].
  intro H. apply andb_prop in H as [Hc Hw]. now rewrite Hc, IH.
Qed.

Lemma ends_solid_app p t : ends_solid t -> ends_solid (p ++ t).
Proof.
  intros (t' & c & -> & Hc). exists (p ++ t'), c.
  now rewrite List.app_assoc.
Qed.

Lemma ends_solid_tail c d t : ends_solid (c :: d :: t) -> ends_solid (d :: t).
Proof.
  intros (t' & e & E & He). destruct t' as [|c0 t'']; [discriminate|].
  injection E as _ E. now exists t'', e.
Qed.

Lemma ends_solid_rev t :
  ends_solid t -> Text.skip_spaces (rev t) = rev t.
Proof.
  intros (t' & c & -> & Hc). rewrite rev_app_distr. simpl.
  now rewrite Hc.
Qed.

Lemma uint_text_solid u :
  u <> Decimal.Nil -> ends_solid (uint_text u).
Proof.
  induction u; intro Hn; try congruence;
    (destruct (Decimal.uint_eq_dec u Decimal.Nil) as [-> | Hu];
     [ eexists [], _; split; reflexivity
     | simpl; match goal with
              | |- ends_solid (?c :: ?t) =>
                  change (c :: t) with ([c] ++ t)
              end;
       apply ends_solid_app, IHu, Hu ]).
Qed.

Lemma int_part_nonempty u : int_part_ok u = true -> u <> Decimal.Nil.
Proof. destruct u; simpl; congruence. Qed.

Lemma print_number_solid n :
  representable n = true -> ends_solid (print_number n).
Proof.
  intro Hr. rewrite (print_number_plain n Hr).
  pose proof (representable_canonical n Hr) as Hc. unfold plain_text.
  pose proof (split_digits_ok n Hc) as H.
  destruct (split_digits n) as [ip fp]. destruct H as (Hip & _).
  apply ends_solid_app.
  destruct (Decimal.uint_eq_dec fp Decimal.Nil) as [-> | Hfp].
  - simpl. rewrite List.app_nil_r.
    now apply uint_text_solid, int_part_nonempty.
  - apply ends_solid_app.
    replace (frac_text fp) with ("." ++ uint_text fp)
      by (destruct fp; [congruence | reflexivity ..]).
    now apply ends_solid_app, uint_text_solid.
Qed.

Lemma stringify_solid v : is_json v = true -> ends_solid (stringify v).
Proof.
  destruct v as [| |b|n|s|l|fs]; simpl; intro H; try discriminate.
  - now exists "nul", "l"%char.
  - destruct b; [now exists "tru", "e"%char | now exists "fals", "e"%char].
  - now apply print_number_solid.
  - exists (dquote :: escape s), dquote. split; reflexivity.
  - eexists ("[" ++ _), "]"%char. split; [|reflexivity].
    rewrite <- List.app_assoc. reflexivity.
  - eexists ("{" ++ _), "}"%char. split; [|reflexivity].
    rewrite <- List.app_assoc. reflexivity.
Qed.

Lemma members_text_solid fs :
  forallb (fun kv => is_json (snd kv)) fs = true ->
  fs <> [] -> ends_solid (members_text fs).
Proof.
  induction fs as [|[k x] fs IH]; intros Hwf Hne; [congruence|].
  cbn [forallb snd] in Hwf. apply andb_prop in Hwf as [Hx Hfs].
  rewrite (members_text_cons k x fs Hx).
  do 3 apply ends_solid_app.
  destruct fs as [|kv fs'].
  - unfold members_text. simpl flat_map. rewrite List.app_nil_r.
    now apply stringify_solid.
  - apply ends_solid_app, IH; [assumption | discriminate].
Qed.

(** The text of an object has no white space inside its braces. *)
Lemma stringify_object_tight fs :
  is_json (VObj fs) = true -> tight (stringify (VObj fs)).
Proof.
  intro H. simpl in H. apply andb_prop in H as [_ Hwf].
  rewrite stringify_obj. fold (members_text fs).
  exists (tl (members_text fs)). split; [reflexivity|].
  destruct fs as [|[k x] fs].
  - split; reflexivity.
  - pose proof (members_text_solid _ Hwf ltac:(discriminate)) as Hs.
    cbn [forallb snd] in Hwf. apply andb_prop in Hwf as [Hx Hfs].
    rewrite (members_text_cons k x fs Hx) in *.
    change (tl ("," ++ quote k ++ ":" ++ stringify x ++ members_text fs))
      with (quote k ++ ":" ++ stringify x ++ members_text fs).
    split; [reflexivity|].
    apply ends_solid_rev, ends_solid_app.
    unfold quote in *. rewrite <- !app_comm_cons in *.
    now apply ends_solid_tail in Hs.
Qed.

Lemma space_is_no_j c : Text.is_space c = true -> Ascii.eqb "j" (Text.lower c) = false.
Proof. destruct c as [[] [] [] [] [] [] [] []]; vm_compute; congruence. Qed.

Lemma tight_shape s :
  tight s ->
  exists s1, s = "{"%char :: s1
             /\ Text.skip_spaces s1 = s1
             /\ Text.skip_spaces (rev s) = rev s
             /\ exists r1, rev s = "}"%char :: r1 /\ Text.skip_spaces r1 = r1.
Proof.
  intros (body & -> & H1 & H2).
  exists (body ++ "}"). split; [reflexivity|]. split; [exact H1|].
  change ("{" ++ body ++ "}") with (("{" ++ body) ++ "}").
  rewrite rev_app_distr. split; [reflexivity|].
  exists (rev ("{" ++ body)). split; [reflexivity | exact H2].
Qed.

Lemma strip_ci_tick p s :
  Text.strip_prefix_ci ("`"%char :: p) ("`"%char :: s)
  = Text.strip_prefix_ci p s.
Proof. reflexivity. Qed.

Lemma strip_ci_cons x p y s :
  Text.strip_prefix_ci (x :: p) (y :: s)
  = if Ascii.eqb x (Text.lower y) then Text.strip_prefix_ci p s else None.
Proof. reflexivity. Qed.

(** The two replacements for the opening marker remove it, with the tag
    json and the white space that follows. *)
Lemma strip_fences s tag w1 w2 :
  tight s -> json_tag tag = true -> blank w1 = true ->
  strip_open_fence (strip_json_fence ("```" ++ tag ++ w1 ++ s ++ w2 ++ "```"))
  = s ++ w2 ++ "```".
Proof.
  intros Hs Htag Hw1.
  destruct (tight_shape s Hs) as (s1 & -> & _).
  set (rest := ("{"%char :: s1) ++ w2 ++ "```").
  assert (Hskip : Text.skip_spaces (w1 ++ rest) = rest)
    by (rewrite skip_spaces_app by exact Hw1; reflexivity).
  assert (Hplain : strip_open_fence rest = rest) by reflexivity.
  unfold strip_json_fence, strip_open_fence in *.
  cbv [list_ascii_of_string] in *. cbn [app] in *.
  destruct tag as [|a tag].
  - (* no language tag *)
    cbn [app]. rewrite !strip_ci_tick.
    assert (E : Text.strip_prefix_ci ["j"; "s"; "o"; "n"]%char (w1 ++ rest)
                = None).
    { destruct w1 as [|c w1]; [reflexivity|].
      simpl in Hw1. apply andb_prop in Hw1 as [Hc _].
      cbn [app]. rewrite strip_ci_cons. now rewrite (space_is_no_j c Hc). }
    rewrite E. rewrite !strip_ci_tick. cbn [Text.strip_prefix_ci].
    exact Hskip.
  - (* the tag json, in any letter case *)
    unfold json_tag in Htag. cbv [list_ascii_of_string] in Htag.
    destruct tag as [|b [|c [|d [|e tag]]]];
      cbn [map Text.eqb] in Htag;
      rewrite ?andb_false_r in Htag; try discriminate Htag.
    apply andb_prop in Htag as [Ha Htag].
    apply andb_prop in Htag as [Hb Htag].
    apply andb_prop in Htag as [Hc Htag].
    apply andb_prop in Htag as [Hd _].
    cbn [app]. rewrite !strip_ci_tick, !strip_ci_cons.
    rewrite Ha, Hb, Hc, Hd. cbn [Text.strip_prefix_ci].
    rewrite Hskip. exact Hplain.
Qed.

(** The replacement for the closing marker removes it, with the white
    space before it. *)
Lemma strip_close_fence_text s w2 :
  tight s -> blank w2 = true ->
  strip_close_fence (s ++ w2 ++ "```") = s.
Proof.
  intros Hs Hw2.
  destruct (tight_shape s Hs) as (s1 & _ & _ & Hrs & _).
  unfold strip_close_fence.
  rewrite !rev_app_distr.
  change (rev (list_ascii_of_string "```")) with (list_ascii_of_string "```").
  rewrite <- List.app_assoc.
  change (Text.strip_prefix "```" ("```" ++ rev w2 ++ rev s))
    with (Some (rev w2 ++ rev s)).
  cbv beta iota.
  rewrite skip_spaces_app, Hrs, rev_involutive; [reflexivity|].
  unfold blank in *. rewrite forallb_forall in *.
  intros c Hc. apply Hw2. now apply in_rev.
Qed.

Lemma tidy_open_brace_tight s : tight s -> tidy_open_brace s = s.
Proof.
  intro Hs. destruct (tight_shape s Hs) as (s1 & -> & H1 & _).
  unfold tidy_open_brace.
  change (Text.skip_spaces ("{"%char :: s1)) with ("{"%char :: s1).
  cbv beta iota. rewrite Ascii.eqb_refl. now rewrite H1.
Qed.

Lemma tidy_close_brace_tight s : tight s -> tidy_close_brace s = s.
Proof.
  intro Hs.
  destruct (tight_shape s Hs) as (s1 & _ & _ & Hrs & r1 & Er & Hr1).
  unfold tidy_close_brace. rewrite Hrs, Er. cbv beta iota.
  rewrite Ascii.eqb_refl, Hr1, <- Er.
  apply rev_involutive.
Qed.

Lemma trim_tight s : tight s -> Text.trim s = s.
Proof.
  intro Hs. destruct (tight_shape s Hs) as (s1 & E & _ & Hrs & _).
  unfold Text.trim.
  assert (H : Text.skip_spaces s = s) by (rewrite E; reflexivity).
  rewrite H, Hrs. apply rev_involutive.
Qed.

(** The chain of replacements gives back the text between the markers. *)
Lemma cleaned_text_fenced s tag w1 w2 :
  tight s -> json_tag tag = true -> blank w1 = true -> blank w2 = true ->
  cleaned_text (fence_wrap [] tag w1 s w2 []) = s.
Proof.
  intros Hs Htag Hw1 Hw2. unfold cleaned_text, fence_wrap.
  rewrite List.app_nil_r. cbn [app].
  fold (list_ascii_of_string "```").
  change ("`"%char :: "`"%char :: "`"%char :: tag ++ w1 ++ s ++ w2 ++ "```")
    with ("```" ++ tag ++ w1 ++ s ++ w2 ++ "```").
  rewrite strip_fences, strip_close_fence_text, tidy_open_brace_tight,
    tidy_close_brace_tight by assumption.
  now apply trim_tight.
Qed.

Lemma parse_fence r : Json.parse ("`"%char :: r) = Throw syntax_error.
Proof. reflexivity. Qed.

End FenceFacts.

(** ** The tracked variant: the responses of one request *)

Section TrackedFacts.
Import JS Eff Tracked TrackedChecks.

(** Every event keeps the calls of a request within the shapes of
    [shape_ok], and the late calls refused. *)
Lemma step_shape req st ev :
  shape_ok st && refused_ok st = true ->
  shape_ok (step req st ev) && refused_ok (step req st ev) = true.
Proof.
  destruct st as [h t cs ls us].
  unfold shape_ok, refused_ok, returned, sites, late_calls. simpl.
  destruct cs as [|[s1 c1 b1] [|[s2 c2 b2] [|[s3 c3 b3] [|w4 cs]]]];
    simpl; destruct h; try discriminate;
    try destruct s1; try discriminate;
    try destruct s2; try discriminate;
    try destruct s3; try discriminate;
    (destruct us as [|[m| | | |] [|u2 us]]; try discriminate);
    intro H; destruct ev as [now|now|now us'|now e|now d|now e];
    destruct t; try exact H; try reflexivity;
    try (destruct e; reflexivity).
Qed.

Lemma run_shape req tr : forall st,
  shape_ok st && refused_ok st = true ->
  shape_ok (run req st tr) && refused_ok (run req st tr) = true.
Proof.
  induction tr as [|ev tr IH]; intros st H; [exact H|].
  change (run req st (ev :: tr)) with (run req (step req st ev) tr).
  apply IH. now apply step_shape.
Qed.

(** Calls are only ever added at the end. *)
Lemma step_calls req st ev : exists l, calls (step req st ev) = calls st ++ l.
Proof.
  destruct st as [h t cs ls us].
  destruct ev as [now|now|now us'|now e|now d|now e]; simpl.
  - destruct cs; [eexists; reflexivity | exists []; now rewrite List.app_nil_r].
  - destruct t; try (exists []; now rewrite List.app_nil_r).
    unfold on_abort_timer. simpl. destruct h; simpl;
      try (exists []; now rewrite List.app_nil_r).
    unfold catch_block. simpl. destruct cs; eexists; reflexivity.
  - destruct h; exists []; now rewrite List.app_nil_r.
  - destruct h; try (exists []; now rewrite List.app_nil_r).
    unfold catch_block. destruct (is_abort e); simpl; destruct cs; eexists; reflexivity.
  - destruct h; try (exists []; now rewrite List.app_nil_r).
    unfold on_body. simpl. destruct cs; simpl.
    + eexists; reflexivity.
    + eexists. rewrite <- List.app_assoc. reflexivity.
  - destruct h; try (exists []; now rewrite List.app_nil_r).
    unfold catch_block. destruct (is_abort e); simpl; destruct cs; eexists; reflexivity.
Qed.

Lemma run_calls req tr : forall st, exists l, calls (run req st tr) = calls st ++ l.
Proof.
  induction tr as [|ev tr IH]; intro st.
  - exists []. now rewrite List.app_nil_r.
  - change (run req st (ev :: tr)) with (run req (step req st ev) tr).
    destruct (IH (step req st ev)) as [l2 E2].
    destruct (step_calls req st ev) as [l1 E1].
    exists (l1 ++ l2). rewrite E2, E1.
    now rewrite List.app_assoc.
Qed.

(** A delivered response stays the delivered response. *)
Lemma delivered_stable req tr st :
  delivered st = None \/ delivered (run req st tr) = delivered st.
Proof.
  destruct (run_calls req tr st) as [l E]. unfold delivered. rewrite E.
  destruct (calls st); [now left | now right].
Qed.

Lemma run_app req tr1 tr2 st :
  run req st (tr1 ++ tr2) = run req (run req st tr1) tr2.
Proof. apply fold_left_app. Qed.

Lemma shape_bounds st :
  shape_ok st = true ->
  (List.length (calls st) <= 3)%nat
  /\ (late_calls st = []
      \/ option_map at_site (delivered st) = Some ServerTimeoutSite)
  /\ no_server_site (late_calls st) = true.
Proof.
  destruct st as [h t cs ls us].
  unfold shape_ok, returned, sites, late_calls, delivered, no_server_site.
  simpl.
  destruct cs as [|[s1 c1 b1] [|[s2 c2 b2] [|[s3 c3 b3] [|w4 cs]]]];
    simpl; destruct h; try discriminate;
    try destruct s1; try discriminate;
    try destruct s2; try discriminate;
    try destruct s3; try discriminate;
    intros _; repeat split; auto.
Qed.

(** Once the handler has returned after writing, no call is added. *)
Lemma settled_step req st ev :
  handler st = Returned -> calls st <> [] ->
  calls (step req st ev) = calls st /\ handler (step req st ev) = Returned.
Proof.
  destruct st as [h t cs ls us]. simpl. intros -> Hc.
  destruct cs as [|w cs]; [congruence|].
  destruct ev; simpl; try (split; reflexivity).
  destruct t; split; reflexivity.
Qed.

Lemma settled_run req tr : forall st,
  handler st = Returned -> calls st <> [] ->
  calls (run req st tr) = calls st.
Proof.
  induction tr as [|ev tr IH]; intros st Hh Hc; [reflexivity|].
  change (run req st (ev :: tr)) with (run req (step req st ev) tr).
  destruct (settled_step req st ev Hh Hc) as [E1 E2].
  rewrite IH; [exact E1 | exact E2 | now rewrite E1].
Qed.

Lemma catch_block_calls req now e st :
  calls (catch_block req now e st) = calls st ++ [catch_write req e].
Proof.
  destruct st as [h t cs ls us]. unfold catch_block, catch_write.
  destruct (is_abort e); destruct cs; reflexivity.
Qed.

(** Answered, returned, and the abort timer cleared or fired: nothing is
    left to happen. *)
Lemma quiet_step req st ev :
  handler st = Returned -> abort_timer st <> Armed -> calls st <> [] ->
  step req st ev = st.
Proof.
  destruct st as [h t cs ls us]. simpl. intros -> Ht Hc.
  destruct cs as [|w cs]; [congruence|].
  destruct ev; simpl; try reflexivity.
  destruct t; [congruence | reflexivity | reflexivity].
Qed.

Lemma quiet_run req tr : forall st,
  handler st = Returned -> abort_timer st <> Armed -> calls st <> [] ->
  run req st tr = st.
Proof.
  induction tr as [|ev tr IH]; intros st H1 H2 H3; [reflexivity|].
  change (run req st (ev :: tr)) with (run req (step req st ev) tr).
  rewrite (quiet_step req st ev H1 H2 H3). now apply IH.
Qed.

(** When the handler has returned, it has made a write call. *)
Lemma returned_step req st ev :
  (handler st = Returned -> calls st <> []) ->
  handler (step req st ev) = Returned -> calls (step req st ev) <> [].
Proof.
  intros Hinv Hret.
  destruct (step_calls req st ev) as [l E].
  destruct (calls st) as [|w cs] eqn:Ec;
    [|rewrite E; discriminate].
  clear E l.
  assert (Hh : handler st <> Returned) by (intro H; now apply Hinv).
  clear Hinv. destruct st as [h t cs ls us].
  cbn [handler calls] in *. subst cs.
  assert (Hc : forall now e st0,
             calls (catch_block req now e st0) <> []).
  { intros now e st0. rewrite catch_block_calls.
    intro H. now apply app_eq_nil in H as [_ H]. }
  destruct ev; cbn [step handler abort_timer calls] in *.
  - unfold on_response_timeout, res_json. cbn. intro H. discriminate H.
  - destruct t; cbn [handler] in Hret; try congruence.
    unfold on_abort_timer in *. cbn [set_timer add_log handler] in *.
    destruct h; cbn [handler] in Hret; try congruence;
      try discriminate Hret; try apply Hc.
  - destruct h; cbn [handler set_handler] in Hret; congruence.
  - destruct h; cbn [handler] in Hret; try congruence; try apply Hc.
  - destruct h; cbn [handler] in Hret; try congruence.
    all: unfold on_body, res_json; cbn; intro H; discriminate H.
  - destruct h; cbn [handler] in Hret; try congruence; try apply Hc.
Qed.

Lemma returned_run req tr : forall st,
  (handler st = Returned -> calls st <> []) ->
  handler (run req st tr) = Returned -> calls (run req st tr) <> [].
Proof.
  induction tr as [|ev tr IH]; intros st Hinv; [exact Hinv|].
  change (run req st (ev :: tr)) with (run req (step req st ev) tr).
  apply IH. now apply returned_step.
Qed.

(** When the server-level timeout has fired, a write call was made. *)
Lemma timed_out_run req tr : forall st,
  timed_out tr = true -> calls (run req st tr) <> [].
Proof.
  induction tr as [|ev tr IH]; intros st H; [discriminate H|].
  change (run req st (ev :: tr)) with (run req (step req st ev) tr).
  cbn [timed_out existsb] in H.
  destruct ev; try (now apply IH).
  destruct (run_calls req tr (step req st (ResponseTimeout now))) as [l ->].
  cbn [step]. destruct st as [h t cs ls us]. cbn [calls].
  destruct cs; cbn; discriminate.
Qed.

(** When both timers fire, the catch block of the handler makes a second
    write call after the one of the timeout callback.  The response object
    refuses it: the client has the response of the first call, and the
    error about the headers leaves the handler. *)
Lemma second_call_is_refused :
  let st := run sample_request (init sample_request "chat/completions")
              timers_race in
  sites st = [ServerTimeoutSite; CatchAbortSite]
  /\ delivered st = Some (server_504 sample_request)
  /\ unhandled st = [headers_sent].
Proof. repeat split. Qed.

(** C1: exactly one response reaches the client.  There is one as soon as
    the server-level timeout has fired or the handler has returned; it is
    the one of the first write call, and no later event changes it.  The
    code has no guard of its own against further write calls: they are made
    only after the timeout callback wrote first, by the handler (its own
    write and, when that was the success write, the one of its catch
    block), at most three calls in all, none of them by the timeout
    callback; the response object refuses each of them, so that none is
    delivered, and one error about the headers leaves the handler.  When
    the handler writes first, no further call is made and no error leaves
    it. *)
Theorem C1_one_response_delivered :
  forall req targetPath tr1 tr2,
    let st1 := run req (init req targetPath) tr1 in
    let st2 := run req (init req targetPath) (tr1 ++ tr2) in
    (timed_out tr1 || returned st1 = true ->
     exists w, delivered st1 = Some w /\ delivered st2 = Some w)
    /\ (delivered st1 = None \/ delivered st2 = delivered st1)
    /\ shape_ok st2 = true
    /\ refused_ok st2 = true
    /\ (List.length (calls st2) <= 3)%nat
    /\ (late_calls st2 = []
        \/ option_map at_site (delivered st2) = Some ServerTimeoutSite)
    /\ no_server_site (late_calls st2) = true.
Proof.
  intros req targetPath tr1 tr2 st1 st2.
  assert (Hs : shape_ok st2 && refused_ok st2 = true)
    by (apply run_shape; reflexivity).
  apply andb_prop in Hs as [Hs Hr].
  assert (Hst : delivered st1 = None \/ delivered st2 = delivered st1)
    by (unfold st2; rewrite run_app; apply delivered_stable).
  split; [|split; [exact Hst|]].
  - intro H.
    assert (Hc : calls st1 <> []).
    { apply orb_prop in H as [H | H].
      - unfold st1. apply timed_out_run. exact H.
      - unfold st1 in *. apply returned_run; [discriminate|].
        unfold returned in H.
        now destruct (handler (run req (init req targetPath) tr1)). }
    unfold delivered in *. destruct (calls st1) as [|w cs]; [congruence|].
    exists w. split; [reflexivity|].
    destruct Hst as [Hst | Hst]; [discriminate Hst | exact Hst].
  - split; [exact Hs | split; [exact Hr | now apply shape_bounds]].
Qed.

Lemma C1_one_response_delivered_witness :
  exists w,
    delivered (run sample_request (init sample_request "chat/completions")
                 [ResponseTimeout 120000]) = Some w
    /\ delivered (run sample_request (init sample_request "chat/completions")
                    ([ResponseTimeout 120000] ++ [AbortTimer 120000]))
       = Some w.
Proof.
  exact (proj1 (C1_one_response_delivered sample_request "chat/completions"
                  [ResponseTimeout 120000] [AbortTimer 120000]) eq_refl).
Defined.

(** C2, as stated, fails: the details of the 504 body do not carry the
    elapsed duration.  With the request started at 0 and the abort timer
    firing at 120007, the details are the fixed sentence about 120 seconds
    and do not show 120007; they are the same when the timer fires at
    125000. *)
Lemma C2_details_without_duration :
  let details (now : Z) :=
    option_map (fun w => own (own (sent w) "error") "details")
      (delivered (run sample_request
                    (init sample_request "chat/completions")
                    [AbortTimer now])) in
  details 120007%Z
  = Some (VStr "Request took longer than 120 seconds to complete")
  /\ option_map (fun d => shows d 120007) (details 120007%Z) = Some false
  /\ details 125000%Z = details 120007%Z.
Proof. repeat split. Qed.

(** C2, amended: when one of the two timers fires before a response was
    written, the client receives status 504 with an error body of type and
    code timeout_error, the request id, and as details the fixed sentence
    that names the configured 120 seconds; the elapsed duration is written
    to the log entry only.  Whatever happens later delivers nothing else.
    When the abort timer fires first, no further write call is made at
    all, and nothing but log entries of a timer could follow: there is
    none, the state stays as it is.  When the server-level timeout fires
    first, be it while the fetch is pending or while the body is read, the
    handler still makes its own write call when the abort timer fires or
    the upstream call settles afterwards; the response object refuses
    every such call.  In the race of the two timers that is the 504 of the
    catch block, and the error about the headers leaves the handler. *)
Theorem C2_timeout_response :
  forall req targetPath pre now now' rest,
    calls (run req (init req targetPath) pre) = [] ->
    let late := run req (init req targetPath)
                  (pre ++ ResponseTimeout now :: rest) in
    let race := run req (init req targetPath)
                  (ResponseTimeout now :: AbortTimer now' :: rest) in
    delivered late = Some (server_504 req)
    /\ refused_ok late = true
    /\ no_server_site (late_calls late) = true
    /\ run req (init req targetPath) (AbortTimer now :: rest)
       = {| handler := Returned;
            abort_timer := Fired;
            calls := [abort_504 req];
            logs := logs (init req targetPath)
                      ++ [ Log (requestId req) "FETCH_TIMEOUT"
                             "OpenAI fetch request timeout reached"
                             (VObj [ field "duration"
                                       (ms (now - startTime req));
                                     field "timeout" (seconds 120) ]);
                           Log (requestId req) "TIMEOUT"
                             "OpenAI request timeout reached"
                             (VObj [ field "duration"
                                       (ms (now - startTime req));
                                     field "timeout" (seconds 120) ]) ];
            unhandled := [] |}
    /\ calls race = [server_504 req; abort_504 req]
    /\ delivered race = Some (server_504 req)
    /\ unhandled race = [headers_sent].
Proof.
  intros req targetPath pre now now' rest Hpre late race.
  assert (Hs : shape_ok late && refused_ok late = true)
    by (apply run_shape; reflexivity).
  apply andb_prop in Hs as [Hs Hr].
  split; [|split; [exact Hr|split; [now apply shape_bounds|]]].
  - unfold late. rewrite run_app.
    change (run req (run req (init req targetPath) pre)
              (ResponseTimeout now :: rest))
      with (run req (step req (run req (init req targetPath) pre)
                       (ResponseTimeout now)) rest).
    destruct (delivered_stable req rest
                (step req (run req (init req targetPath) pre)
                   (ResponseTimeout now))) as [H | H].
    + exfalso. revert H. cbn [step]. rewrite Hpre.
      unfold on_response_timeout, res_json, delivered.
      cbn [add_log calls fst]. rewrite Hpre. discriminate.
    + rewrite H. cbn [step]. rewrite Hpre.
      unfold on_response_timeout, res_json, delivered.
      cbn [add_log calls fst]. rewrite Hpre. reflexivity.
  - split.
    + change (run req (init req targetPath) (AbortTimer now :: rest))
        with (run req (step req (init req targetPath) (AbortTimer now))
                rest).
      rewrite quiet_run; [reflexivity | reflexivity | discriminate
                          | discriminate].
    + assert (E : race
                  = run req (init req targetPath)
                      [ResponseTimeout now; AbortTimer now']).
      { unfold race.
        change (run req (init req targetPath)
                  (ResponseTimeout now :: AbortTimer now' :: rest))
          with (run req (run req (init req targetPath)
                           [ResponseTimeout now; AbortTimer now']) rest).
        rewrite quiet_run; [reflexivity | reflexivity | discriminate
                            | discriminate]. }
      rewrite E. repeat split.
Qed.

Lemma C2_timeout_response_witness :
  delivered (run sample_request (init sample_request "chat/completions")
               ([FetchResolves 5000 200]
                  ++ ResponseTimeout 120000 :: [BodyResolves 130000 VNull]))
  = Some (server_504 sample_request).
Proof.
  exact (proj1 (C2_timeout_response sample_request "chat/completions"
                  [FetchResolves 5000 200] 120000 120000
                  [BodyResolves 130000 VNull] eq_refl)).
Defined.

End TrackedFacts.

(** ** The combined variant *)

Section CombinedFacts.
Import JS Json Eff Combined.

Lemma text_eqb_eq a b : Text.eqb a b = true -> a = b.
Proof.
  revert b. induction a as [|x a IH]; destruct b as [|y b]; simpl;
    try discriminate; [reflexivity|].
  intro H. apply andb_prop in H as [H1 H2].
  apply Ascii.eqb_eq in H1. now rewrite H1, (IH b H2).
Qed.

Lemma text_eqb_neq a b : a <> b -> Text.eqb a b = false.
Proof.
  intro H. destruct (Text.eqb a b) eqn:E; [|reflexivity].
  now apply text_eqb_eq in E.
Qed.

Lemma prototype_names_absent endpoint :
  ~ In endpoint object_prototype_names ->
  existsb (Text.eqb endpoint) object_prototype_names = false.
Proof.
  intro H. destruct (existsb _ _) eqn:E; [|reflexivity].
  apply existsb_exists in E as (x & Hx & Ex).
  apply text_eqb_eq in Ex. now subst.
Qed.

Lemma get_defined v p :
  v <> VNull -> v <> VUndefined -> get v p = Ok (own v p).
Proof. destruct v; simpl; congruence. Qed.





Lemma json_text_routed meth n raw v :
  Text.eqb meth "OPTIONS" = false ->
  (n <= CatchAll.TEXT_LIMIT)%nat ->
  raw <> [] ->
  Json.parse raw = Ok v ->
  CatchAll.receive meth (CatchAll.JsonText n raw) = CatchAll.Routed v.
Proof.
  intros Hm Hn Hraw Hp. unfold CatchAll.receive, CatchAll.text_parser.
  rewrite Hm. apply Nat.leb_le in Hn. rewrite Hn.
  unfold json_body_parser, parse_any.
  assert (Ht : truthy (VStr raw) = true) by (now destruct raw).
  rewrite Ht. cbn [negb to_string JS.bind]. now rewrite Hp.
Qed.



(** The same on the example of the specification: a workout-plan request
    is sent on under its own path with its own body, not as the chat
    completion the translator would build, and a reply whose content is
    fenced JSON comes back as it is, not as the plan inside. *)
Lemma catch_all_skips_translation :
  let req := {| method := "POST"; req_path := "/workout-plan";
                req_body := VObj [ field "prompt"
                                     (VStr "3-day beginner plan") ] |} in
  let reply := reply_with
                 (VStr (fence_wrap [] "json" [newline]
                          (stringify sample_workout_plan) [newline] [])) in
  url (proxy_call "key" req) = "https://api.openai.com/v1/workout-plan"
  /\ call_body (proxy_call "key" req) = Some (stringify (req_body req))
  /\ option_map path
       (match convertToChatCompletion (req_path req) (req_body req) with
        | Ok r => Some r
        | Throw _ => None
        end) = Some (list_ascii_of_string "chat/completions")
  /\ sent (proxy_response (Resolved 200 (Ok reply))) = reply
  /\ transformResponse (req_path req) reply
     = Throw (Error ("Failed to parse special endpoint response: "
                       ++ message syntax_error)).
Proof. repeat split. Qed.

(** ToString fails in one way only, and exactly on the values that are
    not [stringable]. *)
Lemma to_string_stringable v :
  if stringable v then exists s, to_string v = Ok s
  else to_string v = Throw not_primitive.
Proof.
  induction v as [| |b|n|s|l IH|fs _] using value_nested_ind;
    try (cbn; eexists; reflexivity).
  - destruct b; cbn; eexists; reflexivity.
  - cbn [stringable to_string].
    assert (J : forall first,
               if forallb stringable l
               then exists s,
                   (fix join (first : bool) (l : list value) : result text :=
                      match l with
                      | [] => Ok []
                      | x :: r =>
                          s <- match x with
                               | VUndefined | VNull => Ok []
                               | _ => to_string x
                               end ;;
                          rest <- join false r ;;
                          Ok ((if first then [] else ("," : text))
                                ++ s ++ rest)
                      end) first l = Ok s
               else
                   (fix join (first : bool) (l : list value) : result text :=
                      match l with
                      | [] => Ok []
                      | x :: r =>
                          s <- match x with
                               | VUndefined | VNull => Ok []
                               | _ => to_string x
                               end ;;
                          rest <- join false r ;;
                          Ok ((if first then [] else ("," : text))
                                ++ s ++ rest)
                      end) first l = Throw not_primitive).
    { induction IH as [|x r Hx Hr IHr]; intro first; cbn [forallb].
      - eexists; reflexivity.
      - destruct (stringable x) eqn:Ex; cbn [andb].
        + destruct Hx as [sx Hsx].
          assert (Ex' : match x with
                        | VUndefined | VNull => Ok []
                        | _ => to_string x
                        end = Ok (match x with
                                  | VUndefined | VNull => []
                                  | _ => sx
                                  end))
            by (destruct x; try exact Hsx; reflexivity).
          rewrite Ex'. cbn [JS.bind].
          specialize (IHr false).
          destruct (forallb stringable r).
          * destruct IHr as [sr ->]. cbn [JS.bind]. eexists; reflexivity.
          * rewrite IHr. reflexivity.
        + assert (Ex' : match x with
                        | VUndefined | VNull => Ok []
                        | _ => to_string x
                        end = Throw not_primitive)
            by (destruct x; try exact Hx; discriminate Ex).
          rewrite Ex'. reflexivity. }
    apply J.
  - cbn [stringable to_string].
    destruct (lookup "toString" fs); [reflexivity | eexists; reflexivity].
Qed.

(** C4, as stated, fails on four inputs: a body that is [null] makes the
    translation throw; so does a path whose last segment names a member
    inherited from [Object.prototype], which has no rule; so does a prompt
    that is an object with a property [toString], which the template
    literal cannot convert to a string; and a prompt that is present but
    empty is replaced by the default text. *)
Lemma C4_translation_failures :
  convertToChatCompletion "/v1/workout-plan" VNull
  = Throw (TypeError "Cannot read properties of null (reading 'prompt')")
  /\ convertToChatCompletion "/v1/constructor" (VObj [])
     = Throw (TypeError "specialPrompt.user is not a function")
  /\ convertToChatCompletion "/v1/workout-plan"
       (VObj [ field "prompt"
                 (VObj [ field "toString" (VNum (int 1)) ]) ])
     = Throw (TypeError "Cannot convert object to primitive value")
  /\ convertToChatCompletion "/v1/meal-plan"
       (VObj [ field "prompt" (VStr []) ])
     = Ok {| path := "chat/completions";
             body := chat_request meal_system
                       (meal_template "Create a general plan")
                       (VNum (int 2000)) |}.
Proof. repeat split. Qed.

(** C4, amended: a path whose last segment is neither workout-plan nor
    meal-plan nor the name of a member inherited from [Object.prototype] is
    returned with its body, unchanged.  For a path whose last segment is
    workout-plan or meal-plan and a body that is neither [null] nor
    [undefined], take as prompt the prompt of the body, or the default text
    when that is absent or falsy.  When the prompt can be converted to a
    string, the result is the path chat/completions and a body with the
    model gpt-3.5-turbo, the system message of the rule, a user message
    that is the template of the rule around the string of the prompt,
    temperature 0.7, max_tokens that of the body, or 2000 when that is
    absent or falsy, and the response format json_object.  When it cannot,
    being an object with an own property [toString] or an array that holds
    one, the translation throws the [TypeError] of the conversion. *)
Theorem C4_forward_translation :
  forall path body,
    let endpoint := Text.last_segment path in
    let prompt := or_else (own body "prompt") (VStr "Create a general plan") in
    let max_tokens := or_else (own body "max_tokens") (VNum (int 2000)) in
    let translated system template :=
      if stringable prompt then
        exists s,
          Json.to_string prompt = Ok s
          /\ convertToChatCompletion path body
             = Ok {| path := "chat/completions";
                     body := chat_request system (template s) max_tokens |}
      else
        convertToChatCompletion path body
        = Throw (TypeError "Cannot convert object to primitive value") in
    (endpoint <> "workout-plan" -> endpoint <> "meal-plan" ->
     ~ In endpoint object_prototype_names ->
     convertToChatCompletion path body
     = Ok {| path := path; body := body |})
    /\ (endpoint = "workout-plan" -> body <> VNull -> body <> VUndefined ->
        translated workout_system workout_template)
    /\ (endpoint = "meal-plan" -> body <> VNull -> body <> VUndefined ->
        translated meal_system meal_template).
Proof.
  intros path body endpoint prompt max_tokens translated.
  subst translated. cbv beta.
  unfold convertToChatCompletion. fold endpoint. repeat split.
  - intros H1 H2 H3. unfold SPECIAL_PROMPTS.
    rewrite (text_eqb_neq _ _ H1), (text_eqb_neq _ _ H2),
      (prototype_names_absent _ H3).
    reflexivity.
  - intros -> H1 H2.
    change (SPECIAL_PROMPTS "workout-plan")
      with (Rule workout_system workout_user).
    rewrite !get_defined by assumption. cbn [JS.bind]. fold prompt.
    unfold workout_user.
    pose proof (to_string_stringable prompt) as Hs.
    destruct (stringable prompt).
    + destruct Hs as [s Hs]. exists s. split; [exact Hs|].
      rewrite Hs. reflexivity.
    + rewrite Hs. reflexivity.
  - intros -> H1 H2.
    change (SPECIAL_PROMPTS "meal-plan") with (Rule meal_system meal_user).
    rewrite !get_defined by assumption. cbn [JS.bind]. fold prompt.
    unfold meal_user.
    pose proof (to_string_stringable prompt) as Hs.
    destruct (stringable prompt).
    + destruct Hs as [s Hs]. exists s. split; [exact Hs|].
      rewrite Hs. reflexivity.
    + rewrite Hs. reflexivity.
Qed.

Lemma C4_forward_translation_witness :
  convertToChatCompletion "/openai/v1/chat/completions"
    (VObj [ field "messages" (VArr []) ])
  = Ok {| path := "/openai/v1/chat/completions";
          body := VObj [ field "messages" (VArr []) ] |}
  /\ (exists s,
        Json.to_string (VStr "3-day beginner plan") = Ok s
        /\ convertToChatCompletion "/openai/v1/workout-plan"
             (VObj [ field "prompt" (VStr "3-day beginner plan") ])
           = Ok {| path := "chat/completions";
                   body := chat_request workout_system (workout_template s)
                             (VNum (int 2000)) |})
  /\ (exists s,
        Json.to_string (VStr "Create a general plan") = Ok s
        /\ convertToChatCompletion "/openai/v1/meal-plan"
             (VObj [ field "max_tokens" (VNum (int 500)) ])
           = Ok {| path := "chat/completions";
                   body := chat_request meal_system (meal_template s)
                             (VNum (int 500)) |}).
Proof.
  split; [|split].
  - apply (proj1 (C4_forward_translation "/openai/v1/chat/completions"
                    (VObj [ field "messages" (VArr []) ]))).
    + discriminate.
    + discriminate.
    + intro H. simpl in H. repeat (destruct H as [H | H]; [discriminate H|]).
      exact H.
  - apply (proj1 (proj2 (C4_forward_translation "/openai/v1/workout-plan"
                           (VObj [ field "prompt"
                                     (VStr "3-day beginner plan") ])))).
    + reflexivity.
    + discriminate.
    + discriminate.
  - apply (proj2 (proj2 (C4_forward_translation "/openai/v1/meal-plan"
                           (VObj [ field "max_tokens" (VNum (int 500)) ])))).
    + reflexivity.
    + discriminate.
    + discriminate.
Defined.

Lemma get0_defined v :
  truthy v = true -> get0 v = Ok (item0 v).
Proof. destruct v; simpl; congruence. Qed.

(** C5, as stated, fails: with no choice present the translation does not
    fail, it returns the reply unchanged; and content that parses to
    something that is no object is returned as well. *)
Lemma C5_no_choice_no_failure :
  transformResponse "/v1/workout-plan" empty_choices_reply
  = Ok empty_choices_reply
  /\ transformResponse "/v1/meal-plan" (reply_with (VStr "5"))
     = Ok (VNum (int 5)).
Proof. split; reflexivity. Qed.

(** C5, amended: for a path whose last segment is workout-plan or meal-plan
    and a reply that is neither [null] nor [undefined]: when the reply has
    no choices, or no first choice, it is returned unchanged; otherwise the
    result is the content of the message of the first choice, itself when
    [typeof] says object, else what [JSON.parse] makes of it, and the
    translation fails, with the message of the cause after a fixed prefix,
    when that parse fails or the first choice has no message to read. *)
Theorem C5_backward_translation :
  forall path response,
    let endpoint := Text.last_segment path in
    let choices := own response "choices" in
    let first := item0 choices in
    let failed (e : exn) :=
      Throw (Error ("Failed to parse special endpoint response: "
                      ++ message e)) in
    (endpoint = "workout-plan" \/ endpoint = "meal-plan") ->
    response <> VNull -> response <> VUndefined ->
    (truthy choices && truthy first = false ->
     transformResponse path response = Ok response)
    /\ (truthy choices && truthy first = true ->
        transformResponse path response
        = match get (own first "message") "content" with
          | Throw e => failed e
          | Ok content =>
              if typeof_object content then Ok content
              else match Json.parse_any content with
                   | Ok domain => Ok domain
                   | Throw e => failed e
                   end
          end).
Proof.
  intros path response endpoint choices first failed Hp H1 H2.
  unfold transformResponse. fold endpoint.
  assert (Hrule : SPECIAL_PROMPTS endpoint <> Absent)
    by (destruct Hp as [-> | ->]; discriminate).
  assert (Hbody :
    match SPECIAL_PROMPTS endpoint with
    | Absent => Ok response
    | _ =>
        choices <- get response "choices" ;;
        if negb (truthy choices) then Ok response else
        first <- get0 choices ;;
        if negb (truthy first) then Ok response else
        JS.try_catch
          (msg <- get first "message" ;;
           content <- get msg "content" ;;
           if typeof_object content then Ok content
           else Json.parse_any content)
          (fun error =>
             Throw (Error ("Failed to parse special endpoint response: "
                             ++ message error)))
    end
    = (if negb (truthy choices) then Ok response else
       if negb (truthy first) then Ok response else
       JS.try_catch
         (msg <- get first "message" ;;
          content <- get msg "content" ;;
          if typeof_object content then Ok content
          else Json.parse_any content)
         failed)).
  { destruct (SPECIAL_PROMPTS endpoint); try congruence;
      rewrite (get_defined response "choices" H1 H2); fold choices;
      cbn [JS.bind]; destruct (truthy choices) eqn:Ec; try reflexivity;
      rewrite (get0_defined choices Ec); reflexivity. }
  rewrite Hbody. clear Hbody. split; intro H.
  - destruct (truthy choices); simpl in *; [|reflexivity].
    now rewrite H.
  - apply andb_prop in H as [Hc Hf]. rewrite Hc, Hf. simpl negb. cbv iota.
    rewrite (get_defined first "message")
      by (intro E; rewrite E in Hf; discriminate Hf).
    unfold JS.try_catch, JS.bind.
    destruct (get (own first "message") "content") as [c|e]; [|reflexivity].
    destruct (typeof_object c); [reflexivity|].
    now destruct (Json.parse_any c).
Qed.

Lemma C5_backward_translation_witness :
  transformResponse "/openai/v1/workout-plan" empty_choices_reply
  = Ok empty_choices_reply
  /\ transformResponse "/openai/v1/workout-plan"
       (reply_with (VStr (stringify sample_workout_plan)))
     = Ok sample_workout_plan.
Proof.
  split.
  - apply (proj1 (C5_backward_translation "/openai/v1/workout-plan"
                    empty_choices_reply (or_introl eq_refl)
                    ltac:(discriminate) ltac:(discriminate))).
    reflexivity.
  - rewrite (proj2 (C5_backward_translation "/openai/v1/workout-plan"
                      (reply_with (VStr (stringify sample_workout_plan)))
                      (or_introl eq_refl)
                      ltac:(discriminate) ltac:(discriminate)));
      reflexivity.
Defined.

(** C6, as stated, fails: white space around the fence is not removed
    before the markers are looked for, and a language tag other than json
    stays in the text.  The serialized empty object between fence
    markers, followed by one newline, is rejected; so it is with a space in
    front of the opening marker, and with the tag javascript. *)
Lemma C6_outer_space_breaks :
  let s := stringify (VObj []) in
  let failed :=
    Throw (Error "Failed to clean and parse OpenAI response") in
  outcome (cleanOpenAIResponse
             (VStr (fence_wrap [] "json" [newline] s [newline] [newline]))
             "/v1/workout-plan") = failed
  /\ outcome (cleanOpenAIResponse
                (VStr (fence_wrap " " "json" [newline] s [newline] []))
                "/v1/workout-plan") = failed
  /\ outcome (cleanOpenAIResponse
                (VStr (fence_wrap [] "javascript" [newline] s [newline] []))
                "/v1/workout-plan") = failed.
Proof. repeat split. Qed.

(** C6, amended: for every JSON object O, the sanitizer returns exactly O
    for the text made of the opening fence marker, directly followed by no
    tag or the tag json in any letter case, white space, the serialization
    of O, white space and the closing fence marker, with nothing before the
    opening marker and nothing after the closing one, on every path that
    does not contain chat/completions; nothing is logged. *)
Theorem C6_fenced_roundtrip :
  forall fs tag w1 w2 path,
    is_json (VObj fs) = true ->
    json_tag tag = true -> blank w1 = true -> blank w2 = true ->
    Text.includes path "chat/completions" = false ->
    cleanOpenAIResponse
      (VStr (fence_wrap [] tag w1 (stringify (VObj fs)) w2 [])) path
    = ([], Ok (VObj fs)).
Proof.
  intros fs tag w1 w2 path Hj Htag Hw1 Hw2 Hpath.
  unfold cleanOpenAIResponse. rewrite Hpath.
  rewrite cleaned_text_fenced
    by (try assumption; now apply stringify_object_tight).
  rewrite (parse_stringify _ Hj).
  unfold fence_wrap. cbv [list_ascii_of_string]. cbn [app].
  rewrite parse_fence. reflexivity.
Qed.

Lemma C6_fenced_roundtrip_witness :
  cleanOpenAIResponse
    (VStr (fence_wrap [] "JSON" [newline]
             (stringify sample_workout_plan) [newline; " "%char] []))
    "/openai/v1/workout-plan"
  = ([], Ok sample_workout_plan).
Proof.
  apply (C6_fenced_roundtrip
           [ field "name" (VStr "Starter");
             field "description" (VStr "Three days");
             field "days" (VArr [ VStr "Day 1"; VStr "Day 2";
                                  VStr "Day 3" ]) ]
           "JSON" [newline] [newline; " "%char] "/openai/v1/workout-plan");
    reflexivity.
Defined.

(** C7: for a text that is no JSON, the catch block of [safeJsonParse]
    calls [cleanOpenAIResponse] once more while it builds the log entry;
    that call throws again, so the entry with the excerpt of the original
    text is never written and the error that leaves is the one of the
    cleaning, which carries no excerpt.  The console shows the two syntax
    errors only. *)
Theorem C7_excerpt_never_logged :
  forall requestId,
    safeJsonParse (VStr "not json") requestId "/v1/workout-plan"
    = ([ ConsoleError "Error cleaning response:" syntax_error;
         ConsoleError "Error cleaning response:" syntax_error ],
       Throw (Error "Failed to clean and parse OpenAI response")).
Proof. reflexivity. Qed.

(** The same for every text the sanitizer cannot parse: no log entry of
    [safeJsonParse] is written, and the error is the one of the
    sanitizer. *)
Lemma unparseable_text_is_not_logged raw requestId path e :
  raw <> [] ->
  outcome (cleanOpenAIResponse (VStr raw) path) = Throw e ->
  outcome (safeJsonParse (VStr raw) requestId path) = Throw e
  /\ forall rid type msg data,
       ~ In (Log rid type msg data)
            (logged (safeJsonParse (VStr raw) requestId path)).
Proof.
  intros Hraw Hc. unfold safeJsonParse.
  assert (Ht : truthy (VStr raw) = true) by (destruct raw; [congruence | reflexivity]).
  rewrite Ht. simpl negb. cbv iota.
  assert (Hlog : forall rid type msg data,
             ~ In (Log rid type msg data)
                  (logged (cleanOpenAIResponse (VStr raw) path))).
  { intros rid type msg data. unfold cleanOpenAIResponse.
    destruct (Text.includes path "chat/completions").
    - simpl. tauto.
    - destruct (Json.parse raw); [simpl; tauto|].
      destruct (Json.parse (cleaned_text raw)); simpl; [tauto|].
      intros [H | []]. discriminate H. }
  destruct (cleanOpenAIResponse (VStr raw) path) as [l r] eqn:E.
  simpl in Hc. subst r. simpl. split; [reflexivity|].
  intros rid type msg data H. simpl in H.
  apply in_app_or in H as [H | H]; now apply (Hlog rid type msg data).
Qed.

(** When the entry is written, the excerpt has at most 1000 characters. *)
Lemma excerpt_bounded s :
  (List.length (Text.substring0 MAX_LOG_LENGTH s) <= 1000)%nat.
Proof. unfold Text.substring0. rewrite length_firstn. apply Nat.le_min_l. Qed.

(** C8: the validator accepts a chat-completion body whose choices are
    empty, where the claim has it rejected: an empty array is truthy and the
    loop over it checks nothing.  The inline check of the validating variant
    rejects the same body. *)
Theorem C8_empty_choices_accepted :
  validateResponseStructure empty_choices_reply "/v1/chat/completions"
  = Ok (VBool true)
  /\ Validating.reply_invalid empty_choices_reply = Ok true.
Proof. split; reflexivity. Qed.

(** What else the validator does on a chat-completion path: a body without
    truthy [id] is rejected, a body one of whose choices has no message, no
    content or no role is rejected, and the minimal body with one choice
    that has role and content is accepted. *)
Lemma validator_rejects_missing_id response path :
  Text.includes path "chat/completions" = true ->
  truthy (own response "id") = false ->
  exists e, validateResponseStructure response path = Throw e.
Proof.
  intros Hp Hid. unfold validateResponseStructure. rewrite Hp.
  destruct (get response "id") as [id|e] eqn:Eid; [|now exists e].
  assert (id = own response "id")
    by (destruct response; simpl in *; congruence).
  subst id. cbn [JS.bind]. rewrite Hid. eexists; reflexivity.
Qed.

Lemma check_choice_rejects path choice :
  truthy (own choice "message")
    && truthy (own (own choice "message") "content")
    && truthy (own (own choice "message") "role") = false ->
  exists e, check_choice path choice = Throw e.
Proof.
  intro H. unfold check_choice.
  destruct (get choice "message") as [msg|e] eqn:Em;
    [|eexists; reflexivity].
  assert (msg = own choice "message")
    by (destruct choice; simpl in *; congruence).
  subst msg. cbn [JS.bind].
  destruct (truthy (own choice "message")) eqn:Hm;
    [|eexists; reflexivity].
  cbn [negb].
  rewrite get_defined
    by (intro E; rewrite E in Hm; discriminate Hm).
  cbn [JS.bind].
  destruct (truthy (own (own choice "message") "content")) eqn:Hc;
    [|eexists; reflexivity].
  cbn [negb].
  rewrite get_defined
    by (intro E; rewrite E in Hm; discriminate Hm).
  cbn [JS.bind]. cbn [andb] in H. rewrite H.
  eexists; reflexivity.
Qed.

Lemma validator_rejects_incomplete_choice response choices choice path :
  Text.includes path "chat/completions" = true ->
  own response "choices" = VArr choices ->
  In choice choices ->
  truthy (own choice "message")
    && truthy (own (own choice "message") "content")
    && truthy (own (own choice "message") "role") = false ->
  exists e, validateResponseStructure response path = Throw e.
Proof.
  intros Hp Hch Hin Hc. unfold validateResponseStructure. rewrite Hp.
  destruct (get response "id") as [id|e] eqn:Eid; [|now exists e].
  cbn [JS.bind].
  destruct (negb (truthy id)); [eexists; reflexivity|].
  rewrite get_defined, Hch
    by (intro E; rewrite E in Eid; discriminate Eid).
  cbn [JS.bind truthy negb].
  assert (H : exists e, check_choices path choices = Throw e).
  { clear Hch. induction choices as [|c rest IH]; [destruct Hin|].
    simpl. destruct (check_choice path c) as [[]|e] eqn:Ec;
      [|now exists e].
    cbn [JS.bind]. destruct Hin as [-> | Hin]; [|now apply IH].
    destruct (check_choice_rejects path choice Hc) as [e E].
    rewrite E in Ec. discriminate Ec. }
  destruct H as [e ->]. now exists e.
Qed.

Lemma validator_accepts_minimal :
  validateResponseStructure (reply_with (VStr "Hello"))
    "/v1/chat/completions" = Ok (VBool true).
Proof. reflexivity. Qed.

(** C9: the plan check does not do what the claim says.  On a plan path
    nothing is validated at all, since the check sits inside the branch for
    paths that contain chat/completions: an empty object passes as a meal
    plan.  Where the check runs, on a path that contains both, it asks for
    days whatever the endpoint: a meal plan with meals is rejected, one with
    days and no meals is accepted, and the empty list of days is accepted.
    The table of expected structures names meals for meal-plan. *)
Theorem C9_plan_check_defects :
  (forall response,
     validateResponseStructure response "/v1/meal-plan" = Ok (VBool true))
  /\ validateResponseStructure (reply_with (VObj [])) "/v1/meal-plan"
     = Ok (VBool true)
  /\ validateResponseStructure (reply_with sample_meal_plan)
       "/v1/chat/completions/meal-plan"
     = Throw (Error "Invalid plan format: Invalid plan structure: missing required fields")
  /\ validateResponseStructure (reply_with mislabelled_meal_plan)
       "/v1/chat/completions/meal-plan"
     = Ok (VBool true)
  /\ option_map required (EXPECTED_STRUCTURES "meal-plan")
     = Some [ "name" : text; "description" : text; "meals" : text ].
Proof. repeat split. Qed.

(** C10: the body written for malformed JSON in the request has type,
    message and details but neither code nor requestId, at status 400; the
    body written by the catch-all route when the upstream call fails has
    type and message only.  The body of the server-level timeout has all
    five. *)
Theorem C10_error_bodies_without_request_id :
  forall api_key o error requestId reqPath timestamp,
    let r := snd (serve api_key "POST" "/openai/v1/chat/completions"
                    (VStr "{invalid:json}") o) in
    status r = 400%Z
    /\ sent r = error_envelope
                  [ field "type" (VStr "parse_error");
                    field "message" (VStr "Invalid JSON in request body");
                    field "details" (VStr (message syntax_error)) ]
    /\ has_field (own (sent r) "error") "requestId" = false
    /\ has_field (own (sent r) "error") "code" = false
    /\ error_shape (sent r) = false
    /\ error_shape (sent (proxy_response (Rejected error))) = false
    /\ error_shape (sent (timeout_response requestId reqPath timestamp))
       = true.
Proof. intros. repeat split. Qed.

End CombinedFacts.

(** ** The sanitizer, and what the safe parser returns *)

Section SanitizerFacts.
Import JS Json Eff Combined Checks.

Lemma stringify_nonempty v : is_json v = true -> stringify v <> [].
Proof.
  intro H. destruct (stringify_head v H) as (c & r & E & _).
  rewrite E. discriminate.
Qed.

Lemma truthy_text v : is_json v = true -> truthy (VStr (stringify v)) = true.
Proof.
  intro H. cbn [truthy]. pose proof (stringify_nonempty v H).
  now destruct (stringify v).
Qed.

Lemma parse_any_text v :
  is_json v = true -> parse_any (VStr (stringify v)) = Ok v.
Proof. intro H. unfold parse_any. cbn [to_string]. now apply parse_stringify. Qed.

Lemma clean_compact v path :
  is_json v = true ->
  cleanOpenAIResponse (VStr (stringify v)) path = ([], Ok v).
Proof.
  intro H. unfold cleanOpenAIResponse.
  rewrite (parse_stringify v H). now destruct (Text.includes _ _).
Qed.

(** X1: Compact JSON goes through the sanitizer unchanged, on every path,
    and nothing reaches the console. *)
Theorem clean_plain_roundtrip :
  forall v path,
    is_json v = true ->
    cleanOpenAIResponse (VStr (stringify v)) path = ([], Ok v).
Proof. intros v path H. now apply clean_compact. Qed.

Lemma clean_plain_roundtrip_witness :
  cleanOpenAIResponse (VStr (stringify sample_meal_plan)) "/v1/meal-plan"
  = ([], Ok sample_meal_plan).
Proof.
  apply (clean_plain_roundtrip sample_meal_plan "/v1/meal-plan").
  reflexivity.
Defined.

(** When the sanitizer returns, it has written nothing. *)
Lemma clean_ok_silent raw path v :
  outcome (cleanOpenAIResponse raw path) = Ok v ->
  cleanOpenAIResponse raw path = ([], Ok v).
Proof.
  unfold cleanOpenAIResponse. destruct raw; try discriminate.
  destruct (Text.includes path "chat/completions").
  - simpl. now intros ->.
  - destruct (Json.parse s); simpl; [now intros [= ->]|].
    destruct (Json.parse (cleaned_text s)); simpl; [now intros [= ->]|].
    discriminate.
Qed.

Lemma validate_returns_true response path b :
  validateResponseStructure response path = Ok b -> b = VBool true.
Proof.
  unfold validateResponseStructure.
  destruct (Text.includes path "chat/completions"); [|now intros [= <-]].
  destruct (get response "id") as [id|]; [|discriminate]. cbn [JS.bind].
  destruct (negb (truthy id)); [discriminate|].
  destruct (get response "choices") as [ch|]; [|discriminate].
  cbn [JS.bind]. destruct (negb (truthy ch)); [discriminate|].
  destruct ch; try discriminate.
  destruct (check_choices path elems); [|discriminate].
  now intros [= <-].
Qed.

(** The catch block of [safeJsonParse] always ends in a throw. *)
Lemma safe_catch_throws (text_ : value) requestId path error :
  exists e,
    outcome
      (originalText <~ lift (substring_method "text" text_ MAX_LOG_LENGTH) ;;
       again <~ cleanOpenAIResponse text_ path ;;
       cleanedText <~ lift (substring_method "cleanOpenAIResponse(...)" again MAX_LOG_LENGTH) ;;
       _ <~ tell (Log requestId "JSON_PARSE_ERROR"
                    "Failed to parse OpenAI response"
                    (VObj [ field "error" (VStr (message error));
                            field "path" (VStr path);
                            field "originalText" originalText;
                            field "cleanedText" cleanedText ])) ;;
       @throw value (Error ("Invalid JSON format returned from OpenAI: "
                       ++ message error)))
    = Throw e.
Proof.
  unfold lift, Eff.bind, outcome.
  destruct (substring_method "text" text_ MAX_LOG_LENGTH); [|eexists; reflexivity].
  destruct (cleanOpenAIResponse text_ path) as [l [again|e]];
    [|eexists; reflexivity].
  destruct (substring_method "cleanOpenAIResponse(...)" again MAX_LOG_LENGTH); eexists; reflexivity.
Qed.

Lemma try_catch_ok {A} (body : eff A) handler v :
  (forall e, exists e', outcome (handler e) = Throw e') ->
  outcome (try_catch body handler) = Ok v ->
  outcome body = Ok v.
Proof.
  intros Hh. unfold try_catch, outcome.
  destruct body as [l [a|e]]; [trivial|].
  destruct (Hh e) as [e' He]. unfold outcome in He.
  destruct (handler e) as [l2 r2]. simpl in *. subst. discriminate.
Qed.

(** X2: What [safeJsonParse] returns is an object or an array, never
    [null], and has passed the validator. *)
Theorem safe_parse_result :
  forall text_ requestId path v,
    outcome (safeJsonParse text_ requestId path) = Ok v ->
    typeof_object v = true /\ v <> VNull
    /\ validateResponseStructure v path = Ok (VBool true).
Proof.
  intros text_ requestId path v. unfold safeJsonParse.
  destruct (negb (truthy text_)); [discriminate|].
  intro H. apply try_catch_ok in H;
    [|intro e; apply safe_catch_throws].
  revert H. unfold Eff.bind at 1, outcome.
  destruct (cleanOpenAIResponse text_ path) as [l [c|e]]; [|discriminate].
  destruct (negb (typeof_object c)
            || match c with VNull => true | _ => false end) eqn:Et;
    [discriminate|].
  apply orb_false_elim in Et as [Et1 Et2].
  apply negb_false_iff in Et1.
  unfold lift, Eff.bind, ret.
  destruct (validateResponseStructure c path) as [b|e] eqn:Ev;
    [|discriminate].
  simpl. intros [= <-]. split; [exact Et1|]. split.
  - intros ->. discriminate.
  - now rewrite (validate_returns_true _ _ _ Ev) in Ev.
Qed.

Lemma safe_parse_result_witness :
  typeof_object sample_meal_plan = true /\ sample_meal_plan <> VNull
  /\ validateResponseStructure sample_meal_plan "/v1/meal-plan"
     = Ok (VBool true).
Proof.
  apply (safe_parse_result (VStr (stringify sample_meal_plan)) "r1").
  reflexivity.
Defined.

(** White space of a regular expression that is none of JSON. *)
Lemma space_not_ws c :
  Text.is_space c = true -> is_ws c = false ->
  forall r, value_step (parse_value 0) (parse_elems 0) (parse_members 0) (c :: r) = None
            /\ forall f, parse_value (S f) (c :: r) = None.
Proof.
  intros Hs Hw r.
  assert (E : forall pv pe pm, value_step pv pe pm (c :: r) = None).
  { intros pv pe pm. unfold value_step. cbn [skip_ws]. rewrite Hw.
    destruct c as [[] [] [] [] [] [] [] []]; try discriminate Hs;
      try discriminate Hw; reflexivity. }
  split; [apply E|]. intro f. cbn [parse_value]. apply E.
Qed.

Lemma blank_number_end w : blank w = true -> number_end w = true.
Proof.
  destruct w as [|c w]; [reflexivity|]. cbn [blank forallb].
  intro H. apply andb_prop in H as [H _]. cbn [number_end].
  destruct c as [[] [] [] [] [] [] [] []]; try discriminate H; reflexivity.
Qed.

Lemma parse_ws c s : is_ws c = true -> Json.parse (c :: s) = Json.parse s.
Proof.
  intro H. unfold Json.parse.
  assert (E : parse_value (S (List.length (c :: s))) (c :: s)
              = parse_value (S (List.length s)) s).
  { transitivity (parse_value (S (List.length (c :: s))) s).
    - cbn [parse_value]. unfold value_step at 1. cbn [skip_ws]. rewrite H.
      reflexivity.
    - apply parse_fuel_enough. cbn [List.length]. lia. }
  now rewrite E.
Qed.

(** Padded with white space, the text of an object parses to the object
    or not at all. *)
Lemma parse_padded fs w1 w2 :
  is_json (VObj fs) = true -> blank w1 = true -> blank w2 = true ->
  Json.parse (w1 ++ stringify (VObj fs) ++ w2) = Ok (VObj fs)
  \/ Json.parse (w1 ++ stringify (VObj fs) ++ w2) = Throw syntax_error.
Proof.
  intros Hj Hw1 Hw2. induction w1 as [|c w1 IH].
  - cbn [app]. unfold Json.parse.
    rewrite (parse_stringify_value (VObj fs) Hj _ w2
               (blank_number_end _ Hw2)) by lia.
    destruct (skip_ws w2); auto.
  - cbn [blank forallb] in Hw1. apply andb_prop in Hw1 as [Hc Hw1].
    cbn [app]. destruct (is_ws c) eqn:Ews.
    + rewrite (parse_ws _ _ Ews). now apply IH.
    + right. unfold Json.parse.
      now rewrite (proj2 (space_not_ws c Hc Ews _)).
Qed.

Lemma strip_ci_other p c s :
  Ascii.eqb "`" (Text.lower c) = false ->
  Text.strip_prefix_ci ("`"%char :: p) (c :: s) = None.
Proof. intro H. rewrite strip_ci_cons. now rewrite H. Qed.

Lemma space_is_no_tick c :
  Text.is_space c = true ->
  Ascii.eqb "`" (Text.lower c) = false /\ Ascii.eqb "`" c = false.
Proof.
  destruct c as [[] [] [] [] [] [] [] []]; intro H; try discriminate H;
    split; reflexivity.
Qed.

(** A text that starts with white space or a brace has no opening fence. *)
Lemma no_open_fence w s1 rest :
  blank w = true ->
  strip_open_fence (strip_json_fence (w ++ "{"%char :: s1 ++ rest))
  = w ++ "{"%char :: s1 ++ rest.
Proof.
  intro Hw.
  assert (E : forall p, Text.strip_prefix_ci ("`"%char :: p)
                          (w ++ "{"%char :: s1 ++ rest) = None).
  { intro p. destruct w as [|c w]; cbn [app].
    - apply strip_ci_other. reflexivity.
    - cbn [blank forallb] in Hw. apply andb_prop in Hw as [Hc _].
      apply strip_ci_other. apply (space_is_no_tick c Hc). }
  unfold strip_json_fence.
  change (list_ascii_of_string "```json")
    with ("`"%char :: list_ascii_of_string "``json").
  rewrite E. unfold strip_open_fence.
  change (list_ascii_of_string "```")
    with ("`"%char :: list_ascii_of_string "``").
  now rewrite E.
Qed.

Lemma blank_rev w : blank w = true -> blank (rev w) = true.
Proof.
  unfold blank. rewrite !forallb_forall. intros H x Hx.
  apply H. now apply in_rev.
Qed.

(** A text that ends with a brace or white space has no closing fence. *)
Lemma no_close_fence p r1 w :
  blank w = true ->
  strip_close_fence (p ++ rev ("}"%char :: r1) ++ w)
  = p ++ rev ("}"%char :: r1) ++ w.
Proof.
  intro Hw. unfold strip_close_fence.
  rewrite !rev_app_distr, rev_involutive, <- !app_assoc.
  assert (E : Text.strip_prefix "```" (rev w ++ ("}"%char :: r1) ++ rev p)
              = None).
  { pose proof (blank_rev _ Hw) as Hr.
    destruct (rev w) as [|c w']; cbn [app].
    - reflexivity.
    - cbn [blank forallb] in Hr. apply andb_prop in Hr as [Hc _].
      change (list_ascii_of_string "```")
        with ("`"%char :: list_ascii_of_string "``").
      cbn [Text.strip_prefix]. now rewrite (proj2 (space_is_no_tick c Hc)). }
  now rewrite E.
Qed.

(** The replaces and the trim take the white space around the text of an
    object away. *)
Lemma cleaned_text_padded s w1 w2 :
  tight s -> blank w1 = true -> blank w2 = true ->
  cleaned_text (w1 ++ s ++ w2) = s.
Proof.
  intros Ht Hw1 Hw2.
  pose proof (tight_shape s Ht) as (s1 & Es & Hs1 & Hrs & r1 & Er & Hr1).
  unfold cleaned_text.
  assert (E1 : strip_open_fence (strip_json_fence (w1 ++ s ++ w2))
               = w1 ++ s ++ w2).
  { rewrite Es. cbn [app]. apply no_open_fence. exact Hw1. }
  rewrite E1.
  assert (E2 : strip_close_fence (w1 ++ s ++ w2) = w1 ++ s ++ w2).
  { assert (Es' : s = rev ("}"%char :: r1))
      by (rewrite <- Er; now rewrite rev_involutive).
    rewrite Es'. apply no_close_fence. exact Hw2. }
  rewrite E2.
  assert (E3 : tidy_open_brace (w1 ++ s ++ w2) = s ++ w2).
  { unfold tidy_open_brace. rewrite (skip_spaces_app w1) by exact Hw1.
    assert (Hs : Text.skip_spaces (s ++ w2) = s ++ w2).
    { rewrite Es. cbn [app Text.skip_spaces]. reflexivity. }
    rewrite Hs. rewrite Es. cbn [app].
    replace (Text.skip_spaces (s1 ++ w2)) with (s1 ++ w2); [reflexivity|].
    destruct s1 as [|c s1'].
    - rewrite Es in Er. discriminate Er.
    - cbn [app Text.skip_spaces] in *.
      destruct (Text.is_space c) eqn:Ec; [|reflexivity].
      exfalso.
      assert (L : forall t, (List.length (Text.skip_spaces t)
                             <= List.length t)%nat).
      { induction t as [|x t IHt]; cbn [Text.skip_spaces]; [lia|].
        destruct (Text.is_space x); cbn [List.length]; lia. }
      pose proof (L s1') as L1. rewrite Hs1 in L1.
      cbn [List.length] in L1. lia. }
  rewrite E3.
  assert (E4 : tidy_close_brace (s ++ w2) = s).
  { unfold tidy_close_brace. rewrite rev_app_distr.
    rewrite (skip_spaces_app (rev w2)) by (now apply blank_rev).
    rewrite Hrs, Er. cbn [Ascii.eqb]. 
    replace (Ascii.eqb "}" "}") with true by reflexivity.
    rewrite Hr1, <- Er. apply rev_involutive. }
  rewrite E4. now apply trim_tight.
Qed.

(** X3: An object in compact JSON, padded with any white space of the
    regular expressions, comes out of the sanitizer on every path that is
    no chat completion: also with the white space that [JSON.parse]
    refuses. *)
Theorem clean_padded_object :
  forall fs w1 w2 path,
    is_json (VObj fs) = true ->
    blank w1 = true -> blank w2 = true ->
    Text.includes path "chat/completions" = false ->
    cleanOpenAIResponse (VStr (w1 ++ stringify (VObj fs) ++ w2)) path
    = ([], Ok (VObj fs)).
Proof.
  intros fs w1 w2 path Hj Hw1 Hw2 Hp.
  unfold cleanOpenAIResponse. rewrite Hp.
  destruct (parse_padded fs w1 w2 Hj Hw1 Hw2) as [E|E]; rewrite E.
  - reflexivity.
  - cbn [Eff.try_catch lift].
    rewrite cleaned_text_padded
      by (try assumption; now apply stringify_object_tight).
    now rewrite (parse_stringify _ Hj).
Qed.

Lemma clean_padded_object_witness :
  Json.parse (nbsp :: stringify sample_meal_plan ++ [newline])
  = Throw syntax_error
  /\ cleanOpenAIResponse
       (VStr ([nbsp] ++ stringify sample_meal_plan ++ [newline]))
       "/v1/meal-plan"
     = ([], Ok sample_meal_plan).
Proof.
  split; [reflexivity|].
  apply (clean_padded_object
           [ field "name" (VStr "Balanced");
             field "description" (VStr "1800 kcal");
             field "meals" (VArr [ VStr "Breakfast"; VStr "Lunch" ]) ]
           [nbsp] [newline] "/v1/meal-plan"); reflexivity.
Defined.

(** X4: On a chat completion path the reply is parsed as it is: fenced text
    is refused with the error of [JSON.parse], and nothing reaches the
    console. *)
Theorem clean_chat_path_keeps_fence :
  forall path rest,
    Text.includes path "chat/completions" = true ->
    cleanOpenAIResponse (VStr ("```" ++ rest)) path
    = ([], Throw syntax_error).
Proof.
  intros path rest Hp. unfold cleanOpenAIResponse. rewrite Hp.
  change (list_ascii_of_string "```" ++ rest)
    with ("`"%char :: "`"%char :: "`"%char :: rest).
  now rewrite parse_fence.
Qed.

Lemma clean_chat_path_keeps_fence_witness :
  cleanOpenAIResponse
    (VStr ("```" ++ "json{}```")) "/v1/chat/completions"
  = ([], Throw syntax_error).
Proof.
  apply (clean_chat_path_keeps_fence "/v1/chat/completions" "json{}```").
  reflexivity.
Defined.

End SanitizerFacts.

(** ** The safe parser *)

Section ParserFacts.
Import JS Json Eff Combined Checks.

(** X5: A reply that is the compact JSON of a non-null object or array
    which passes the validator is returned by [safeJsonParse]; nothing is
    logged. *)
Theorem safe_parse_accepts :
  forall v requestId path,
    is_json v = true ->
    typeof_object v = true -> v <> VNull ->
    validateResponseStructure v path = Ok (VBool true) ->
    safeJsonParse (VStr (stringify v)) requestId path = ([], Ok v).
Proof.
  intros v requestId path Hj Ho Hn Hv. unfold safeJsonParse.
  rewrite (truthy_text v Hj). cbn [negb].
  rewrite (clean_compact v path Hj).
  unfold Eff.bind at 1. rewrite Ho. cbn [negb orb].
  destruct v; try discriminate Ho; try congruence;
    rewrite Hv; reflexivity.
Qed.

Lemma safe_parse_accepts_witness :
  safeJsonParse (VStr (stringify (reply_with (VStr "Hello")))) "r1"
    "/v1/chat/completions"
  = ([], Ok (reply_with (VStr "Hello"))).
Proof.
  apply (safe_parse_accepts (reply_with (VStr "Hello")) "r1"
           "/v1/chat/completions");
    [reflexivity | reflexivity | discriminate | reflexivity].
Defined.

(** X6: A reply that is a JSON string is the one failure that is logged:
    the entry carries the path and the first 1000 characters of the reply
    and of the string, and the error names the object check. *)
Theorem safe_parse_logs_string_reply :
  forall s requestId path,
    safeJsonParse (VStr (quote s)) requestId path
    = ([ Log requestId "JSON_PARSE_ERROR" "Failed to parse OpenAI response"
           (VObj [ field "error"
                     (VStr "Parsed response is not a valid object");
                   field "path" (VStr path);
                   field "originalText"
                     (VStr (firstn 1000 (quote s)));
                   field "cleanedText" (VStr (firstn 1000 s)) ]) ],
       Throw (Error "Invalid JSON format returned from OpenAI: Parsed response is not a valid object")).
Proof.
  intros s requestId path. unfold safeJsonParse.
  change (truthy (VStr (quote s))) with true. cbn [negb].
  pose proof (clean_compact (VStr s) path eq_refl) as E.
  change (stringify (VStr s)) with (quote s) in E.
  rewrite E. reflexivity.
Qed.

(** X7: When the cleaned reply is no string and fails the object check or
    the validator, the catch block fails on its own: the error that leaves
    is a [TypeError] of the catch block, not the failure found, and no
    entry is logged. *)
Theorem safe_parse_masks_failure :
  forall raw requestId path c,
    raw <> [] ->
    cleanOpenAIResponse (VStr raw) path = ([], Ok c) ->
    typeof_string c = false ->
    (typeof_object c = false \/ c = VNull
     \/ exists e, validateResponseStructure c path = Throw e) ->
    exists m,
      safeJsonParse (VStr raw) requestId path = ([], Throw (TypeError m)).
Proof.
  intros raw requestId path c Hraw Hc Hs Hbad. unfold safeJsonParse.
  assert (Ht : truthy (VStr raw) = true) by (now destruct raw).
  rewrite Ht. cbn [negb]. rewrite Hc.
  assert (Hsub : exists m, substring_method "cleanOpenAIResponse(...)" c MAX_LOG_LENGTH
                           = Throw (TypeError m)).
  { destruct c; try discriminate Hs; eexists; reflexivity. }
  destruct Hsub as [m Hm].
  assert (Hh : forall error,
             (originalText <~ lift (substring_method "text" (VStr raw)
                                      MAX_LOG_LENGTH) ;;
              again <~ ([], Ok c) ;;
              cleanedText <~ lift (substring_method "cleanOpenAIResponse(...)" again MAX_LOG_LENGTH) ;;
              _ <~ tell (Log requestId "JSON_PARSE_ERROR"
                           "Failed to parse OpenAI response"
                           (VObj [ field "error" (VStr (message error));
                                   field "path" (VStr path);
                                   field "originalText" originalText;
                                   field "cleanedText" cleanedText ])) ;;
              @throw value
                (Error ("Invalid JSON format returned from OpenAI: "
                          ++ message error)))
             = ([], Throw (TypeError m))).
  { intro error. cbn [substring_method lift Eff.bind]. rewrite Hm.
    reflexivity. }
  exists m. unfold Eff.try_catch, Eff.bind at 1.
  destruct (negb (typeof_object c)
            || match c with VNull => true | _ => false end) eqn:Et.
  - unfold throw at 1. rewrite Hh. reflexivity.
  - apply orb_false_elim in Et as [Et1 Et2].
    apply negb_false_iff in Et1.
    destruct Hbad as [H | [H | [e H]]].
    + congruence.
    + subst c. discriminate Et2.
    + unfold lift at 1, Eff.bind at 1. rewrite H. rewrite Hh. reflexivity.
Qed.

Lemma safe_parse_masks_failure_witness :
  exists m,
    safeJsonParse (VStr "{}") "r1" "/v1/chat/completions"
    = ([], Throw (TypeError m)).
Proof.
  apply (safe_parse_masks_failure "{}" "r1" "/v1/chat/completions" (VObj [])).
  - discriminate.
  - reflexivity.
  - reflexivity.
  - right. right. eexists. reflexivity.
Defined.

Lemma clean_logs_console raw path rid type msg data :
  ~ In (Log rid type msg data) (logged (cleanOpenAIResponse raw path)).
Proof.
  unfold cleanOpenAIResponse. destruct raw; try (cbn; tauto).
  destruct (Text.includes path "chat/completions"); [cbn; tauto|].
  destruct (Json.parse s); [cbn; tauto|].
  destruct (Json.parse (cleaned_text s)); cbn; [tauto|].
  intros [H | []]. discriminate H.
Qed.

(** X8: The entry JSON_PARSE_ERROR is written for one kind of reply only: a
    reply the sanitizer turns into a string. For every other failure the
    catch block fails before it logs. *)
Theorem parse_error_logged_only_for_strings :
  forall text_ requestId path rid type msg data,
    In (Log rid type msg data) (logged (safeJsonParse text_ requestId path)) ->
    exists s,
      outcome (cleanOpenAIResponse text_ path) = Ok (VStr s)
      /\ rid = requestId
      /\ type = "JSON_PARSE_ERROR"
      /\ own data "cleanedText" = VStr (firstn 1000 s).
Proof.
  intros text_ requestId path rid type msg data. unfold safeJsonParse.
  destruct (negb (truthy text_)); [intros []|].
  pose proof (clean_logs_console text_ path rid type msg data) as Hno.
  destruct (cleanOpenAIResponse text_ path) as [l [c|e]] eqn:Ec.
  - assert (El : l = []).
    { pose proof (clean_ok_silent text_ path c) as H. rewrite Ec in H.
      specialize (H eq_refl). congruence. }
    subst l.
    assert (Hraw : exists raw, text_ = VStr raw).
    { destruct text_; try discriminate Ec. now eexists. }
    destruct Hraw as [raw ->].
    assert (Hh : forall error,
               In (Log rid type msg data)
                 (logged
                    (originalText <~ lift (substring_method "text" (VStr raw)
                                             MAX_LOG_LENGTH) ;;
                     again <~ ([], Ok c) ;;
                     cleanedText <~ lift (substring_method "cleanOpenAIResponse(...)" again
                                            MAX_LOG_LENGTH) ;;
                     _ <~ tell (Log requestId "JSON_PARSE_ERROR"
                                  "Failed to parse OpenAI response"
                                  (VObj [ field "error"
                                            (VStr (message error));
                                          field "path" (VStr path);
                                          field "originalText" originalText;
                                          field "cleanedText"
                                            cleanedText ])) ;;
                     @throw value
                       (Error ("Invalid JSON format returned from OpenAI: "
                                 ++ message error)))) ->
               exists s, outcome (@pair (list log_entry) _ [] (Ok c))
                         = Ok (VStr s)
                         /\ rid = requestId /\ type = "JSON_PARSE_ERROR"
                         /\ own data "cleanedText" = VStr (firstn 1000 s)).
    { intros error. cbn [substring_method lift Eff.bind].
      destruct (substring_method "cleanOpenAIResponse(...)" c MAX_LOG_LENGTH) as [ct|e] eqn:Es;
        cbn; [|tauto].
      intros [H | []]. injection H as <- <- <- <-.
      destruct c; cbn [substring_method get] in Es; try discriminate Es.
      exists s. injection Es as <-. repeat split. }
    unfold Eff.try_catch, Eff.bind at 1.
    destruct (negb (typeof_object c)
              || match c with VNull => true | _ => false end).
    + unfold throw at 1.
      match goal with
      | |- In _ (logged (let (l2, r) := ?h in _)) -> _ =>
          specialize (Hh (Error "Parsed response is not a valid object"));
          destruct h as [l2 r2] eqn:E2
      end.
      cbn [logged fst app] in *. exact Hh.
    + unfold lift at 1, Eff.bind at 1.
      destruct (validateResponseStructure c path) as [b|e].
      * cbn. tauto.
      * match goal with
        | |- In _ (logged (let (l2, r) := ?h in _)) -> _ =>
            specialize (Hh e); destruct h as [l2 r2] eqn:E2
        end.
        cbn [logged fst app] in *. exact Hh.
  - unfold Eff.try_catch, Eff.bind at 1.
    cbn [logged fst] in Hno.
    destruct (substring_method "text" text_ MAX_LOG_LENGTH) as [ot|e'];
      cbn [lift Eff.bind logged fst].
    + cbn [app]. intro H. apply in_app_or in H as [H | H]; [now apply Hno in H|].
      cbn in H. now apply Hno in H.
    + rewrite List.app_nil_r. intro H. now apply Hno in H.
Qed.

Lemma parse_error_logged_only_for_strings_witness :
  exists s,
    outcome (cleanOpenAIResponse (VStr (quote "plain words")) "/v1/meal-plan")
    = Ok (VStr s)
    /\ ("r1" : text) = "r1"
    /\ ("JSON_PARSE_ERROR" : text) = "JSON_PARSE_ERROR"
    /\ own (VObj [ field "error"
                     (VStr "Parsed response is not a valid object");
                   field "path" (VStr "/v1/meal-plan");
                   field "originalText"
                     (VStr (firstn 1000 (quote "plain words")));
                   field "cleanedText"
                     (VStr (firstn 1000 "plain words")) ])
         "cleanedText"
       = VStr (firstn 1000 s).
Proof.
  apply (parse_error_logged_only_for_strings
           (VStr (quote "plain words")) "r1" "/v1/meal-plan" "r1"
           "JSON_PARSE_ERROR" "Failed to parse OpenAI response").
  left. reflexivity.
Defined.

End ParserFacts.

(** ** The validator *)

Section ValidatorFacts.
Import JS Json Eff Combined Checks.

Lemma check_choice_accepts path choice :
  Text.includes path "workout-plan" || Text.includes path "meal-plan" = false ->
  complete choice = true ->
  check_choice path choice = Ok tt.
Proof.
  intros Hp H. unfold complete in H.
  apply andb_prop in H as [H Hr]. apply andb_prop in H as [Hm Hc].
  unfold check_choice.
  assert (Hch : get choice "message" = Ok (own choice "message")).
  { destruct choice; try reflexivity; discriminate Hm. }
  rewrite Hch. cbn [JS.bind]. rewrite Hm. cbn [negb].
  rewrite !get_defined
    by (intro E; rewrite E in Hm; discriminate Hm).
  cbn [JS.bind]. rewrite Hc. cbn [negb]. cbn [JS.bind]. rewrite Hr.
  cbn [negb]. now rewrite Hp.
Qed.

Lemma check_choices_spec path choices :
  Text.includes path "workout-plan" || Text.includes path "meal-plan" = false ->
  (forallb complete choices = true -> check_choices path choices = Ok tt)
  /\ (forallb complete choices = false ->
      exists e, check_choices path choices = Throw e).
Proof.
  intro Hp. induction choices as [|c rest [IH1 IH2]]; cbn [forallb check_choices].
  - split; [reflexivity | discriminate].
  - destruct (complete c) eqn:Ec; cbn [andb].
    + rewrite (check_choice_accepts path c Hp Ec). cbn [JS.bind]. now split.
    + split; [discriminate|]. intros _.
      destruct (check_choice_rejects path c Ec) as [e ->].
      now exists e.
Qed.

(** X9: On a chat completion path that names no plan, the validator accepts
    exactly the replies with a truthy id and an array of choices each of
    which has a message with truthy content and role. *)
Theorem validator_chat_verdict :
  forall response path,
    Text.includes path "chat/completions" = true ->
    Text.includes path "workout-plan" || Text.includes path "meal-plan"
    = false ->
    response <> VNull -> response <> VUndefined ->
    (envelope_ok response = true ->
     validateResponseStructure response path = Ok (VBool true))
    /\ (envelope_ok response = false ->
        exists e, validateResponseStructure response path = Throw e).
Proof.
  intros response path Hc Hp Hn Hu.
  unfold validateResponseStructure, envelope_ok. rewrite Hc.
  rewrite !get_defined by assumption. cbn [JS.bind].
  destruct (truthy (own response "id")); cbn [negb andb];
    [|split; [discriminate | intros _; eexists; reflexivity]].
  destruct (own response "choices") as [| |b|n|s|l|fs];
    try (split; [discriminate | intros _;
                 try (eexists; reflexivity)]).
  - destruct (negb (truthy (VBool b))); eexists; reflexivity.
  - destruct (negb (truthy (VNum n))); eexists; reflexivity.
  - destruct (negb (truthy (VStr s))); eexists; reflexivity.
  - cbn [truthy negb].
    destruct (check_choices_spec path l Hp) as [H1 H2]. split; intro H.
    + now rewrite (H1 H).
    + destruct (H2 H) as [e ->]. now exists e.
Qed.

Lemma validator_chat_verdict_witness :
  validateResponseStructure (reply_with (VStr "Hello")) "/v1/chat/completions"
  = Ok (VBool true)
  /\ exists e,
       validateResponseStructure
         (VObj [ field "id" (VStr "chatcmpl-1");
                 field "choices" (VArr [ VObj [] ]) ])
         "/v1/chat/completions" = Throw e.
Proof.
  split.
  - apply (proj1 (validator_chat_verdict (reply_with (VStr "Hello"))
                    "/v1/chat/completions" eq_refl eq_refl
                    ltac:(discriminate) ltac:(discriminate))).
    reflexivity.
  - apply (proj2 (validator_chat_verdict
                    (VObj [ field "id" (VStr "chatcmpl-1");
                            field "choices" (VArr [ VObj [] ]) ])
                    "/v1/chat/completions" eq_refl eq_refl
                    ltac:(discriminate) ltac:(discriminate))).
    reflexivity.
Defined.

(** X10: The plan check gives the same verdict for a plan that arrives as
    an object and for its JSON text. *)
Theorem plan_check_text_or_object :
  forall plan,
    is_json plan = true -> typeof_object plan = true ->
    plan_check (VStr (stringify plan)) = plan_check plan.
Proof.
  intros plan Hj Ho. unfold plan_check.
  change (typeof_object (VStr (stringify plan))) with false. cbv iota.
  rewrite (parse_any_text plan Hj), Ho. reflexivity.
Qed.

Lemma plan_check_text_or_object_witness :
  plan_check (VStr (stringify sample_workout_plan))
  = plan_check sample_workout_plan.
Proof.
  apply (plan_check_text_or_object sample_workout_plan); reflexivity.
Defined.

End ValidatorFacts.

(** ** The translators *)

Section TranslatorFacts.
Import JS Json Eff Combined Checks.

(** X11: Translating a translated request changes nothing: the path
    chat/completions has no rule. *)
Theorem convert_idempotent :
  forall path body r,
    convertToChatCompletion path body = Ok r ->
    convertToChatCompletion (Combined.path r) (Combined.body r) = Ok r.
Proof.
  intros path body r. unfold convertToChatCompletion at 1.
  destruct (SPECIAL_PROMPTS (Text.last_segment path)) eqn:E.
  - destruct (get body "prompt"); [|discriminate]. cbn [JS.bind].
    destruct (user _); [|discriminate]. cbn [JS.bind].
    destruct (get body "max_tokens"); [|discriminate]. cbn [JS.bind].
    intros [= <-]. reflexivity.
  - destruct (get body "prompt"); discriminate.
  - intros [= <-]. cbn [Combined.path Combined.body].
    unfold convertToChatCompletion. now rewrite E.
Qed.

Lemma convert_idempotent_witness :
  convertToChatCompletion "chat/completions"
    (chat_request workout_system
       (workout_template "Create a general plan") (VNum (int 2000)))
  = Ok {| path := "chat/completions";
          body := chat_request workout_system
                    (workout_template "Create a general plan")
                    (VNum (int 2000)) |}.
Proof.
  exact (convert_idempotent "/v1/workout-plan" (VObj [])
           {| path := "chat/completions";
              body := chat_request workout_system
                        (workout_template "Create a general plan")
                        (VNum (int 2000)) |} eq_refl).
Defined.

Lemma last_segment_from_plain seg :
  forallb (fun c => negb (Ascii.eqb c "/")) seg = true ->
  forall acc, Text.last_segment_from acc seg = rev acc ++ seg.
Proof.
  induction seg as [|c r IH]; intros Hs acc; cbn [Text.last_segment_from].
  - now rewrite List.app_nil_r.
  - cbn [forallb] in Hs. apply andb_prop in Hs as [Hc Hr].
    apply negb_true_iff in Hc. rewrite Hc. rewrite (IH Hr).
    cbn [rev]. now rewrite <- app_assoc.
Qed.

Lemma last_segment_from_app p seg :
  forallb (fun c => negb (Ascii.eqb c "/")) seg = true ->
  forall acc, Text.last_segment_from acc (p ++ "/"%char :: seg) = seg.
Proof.
  intro Hs.
  induction p as [|c p IH]; intro acc; cbn [app Text.last_segment_from].
  - change (Ascii.eqb "/" "/") with true. cbv iota.
    apply (last_segment_from_plain seg Hs []).
  - destruct (Ascii.eqb c "/"); apply IH.
Qed.

(** X12: Only the part of the path after the last slash selects the rule:
    under any prefix, the two translators behave as on the bare endpoint. *)
Theorem translation_ignores_prefix :
  forall prefix endpoint body response,
    forallb (fun c => negb (Ascii.eqb c "/")) endpoint = true ->
    Text.last_segment (prefix ++ "/" ++ endpoint) = endpoint
    /\ option_map Combined.body
         (match convertToChatCompletion (prefix ++ "/" ++ endpoint) body with
          | Ok r => Some r | Throw _ => None end)
       = option_map Combined.body
           (match convertToChatCompletion endpoint body with
            | Ok r => Some r | Throw _ => None end)
    /\ transformResponse (prefix ++ "/" ++ endpoint) response
       = transformResponse endpoint response.
Proof.
  intros prefix endpoint body response Hs.
  assert (E : Text.last_segment (prefix ++ "/" ++ endpoint) = endpoint)
    by (apply (last_segment_from_app prefix endpoint Hs)).
  assert (E0 : Text.last_segment endpoint = endpoint)
    by (apply (last_segment_from_plain endpoint Hs [])).
  split; [exact E|]. split.
  - unfold convertToChatCompletion. rewrite E, E0.
    destruct (SPECIAL_PROMPTS endpoint).
    + destruct (get body "prompt"); [|reflexivity]. cbn [JS.bind].
      destruct (user _); [|reflexivity]. cbn [JS.bind].
      destruct (get body "max_tokens"); reflexivity.
    + destruct (get body "prompt"); reflexivity.
    + reflexivity.
  - unfold transformResponse. now rewrite E, E0.
Qed.

Lemma translation_ignores_prefix_witness :
  Text.last_segment ("/openai/v1" ++ "/" ++ "meal-plan") = "meal-plan"
  /\ option_map Combined.body
       (match convertToChatCompletion ("/openai/v1" ++ "/" ++ "meal-plan")
                (VObj []) with
        | Ok r => Some r | Throw _ => None end)
     = option_map Combined.body
         (match convertToChatCompletion "meal-plan" (VObj []) with
          | Ok r => Some r | Throw _ => None end)
  /\ transformResponse ("/openai/v1" ++ "/" ++ "meal-plan") empty_choices_reply
     = transformResponse "meal-plan" empty_choices_reply.
Proof.
  apply (translation_ignores_prefix "/openai/v1" "meal-plan" (VObj [])
           empty_choices_reply).
  reflexivity.
Defined.

Lemma lookup_is_json p fs x :
  forallb (fun kv => is_json (snd kv)) fs = true ->
  lookup p fs = Some x -> is_json x = true.
Proof.
  induction fs as [|[k v] r IH]; cbn [lookup forallb]; [discriminate|].
  intro H. apply andb_prop in H as [Hv Hr].
  destruct (Text.eqb p k); [intros [= <-]; exact Hv | now apply IH].
Qed.

Lemma or_else_is_json v p d :
  is_json v = true -> is_json d = true ->
  is_json (or_else (own v p) d) = true.
Proof.
  intros Hv Hd. unfold or_else.
  destruct (truthy (own v p)) eqn:Et; [|exact Hd].
  destruct v; try discriminate Et. cbn [own] in *.
  cbn [is_json] in Hv. apply andb_prop in Hv as [_ Hv].
  destruct (lookup p fields) eqn:El; [|discriminate Et].
  now apply (lookup_is_json p fields).
Qed.

Lemma get_own v p x : get v p = Ok x -> x = own v p.
Proof. destruct v; cbn; congruence. Qed.

(** X13: What the translator builds from a JSON body is JSON again, with no
    key twice: serialized and parsed, it is the same request. *)
Theorem translated_body_is_json :
  forall path body r,
    is_json body = true ->
    convertToChatCompletion path body = Ok r ->
    is_json (Combined.body r) = true
    /\ exists t, JSON_stringify (Combined.body r) = Some t
                 /\ Json.parse t = Ok (Combined.body r).
Proof.
  intros path body r Hj H.
  assert (J : is_json (Combined.body r) = true).
  { revert H. unfold convertToChatCompletion.
    destruct (SPECIAL_PROMPTS (Text.last_segment path)).
    - destruct (get body "prompt") as [p|] eqn:Ep; [|discriminate].
      cbn [JS.bind].
      destruct (user _) as [content|]; [|discriminate]. cbn [JS.bind].
      destruct (get body "max_tokens") as [m|] eqn:Em; [|discriminate].
      cbn [JS.bind]. intros [= <-]. cbn [Combined.body].
      apply get_own in Em. subst m.
      pose proof (or_else_is_json body "max_tokens" (VNum (int 2000)) Hj
                    eq_refl) as Hm.
      cbn [is_json unique_keys forallb snd field existsb fst].
      rewrite Hm. reflexivity.
    - destruct (get body "prompt"); discriminate.
    - intros [= <-]. exact Hj. }
  split; [exact J|].
  exists (stringify (Combined.body r)). split.
  - destruct (Combined.body r); try reflexivity. discriminate J.
  - now apply parse_stringify.
Qed.

Lemma translated_body_is_json_witness :
  is_json (chat_request meal_system
             (meal_template "Create a general plan") (VNum (int 500)))
  = true
  /\ exists t,
       JSON_stringify
         (chat_request meal_system
            (meal_template "Create a general plan") (VNum (int 500)))
       = Some t
       /\ Json.parse t
          = Ok (chat_request meal_system
                  (meal_template "Create a general plan")
                  (VNum (int 500))).
Proof.
  exact (translated_body_is_json "/v1/meal-plan"
           (VObj [ field "max_tokens" (VNum (int 500)) ])
           {| path := "chat/completions";
              body := chat_request meal_system
                        (meal_template "Create a general plan")
                        (VNum (int 500)) |}
           eq_refl eq_refl).
Defined.

(** X14: For an endpoint with a rule, a plan sent as the JSON text of the
    content of the first choice comes back from the backward translation as
    the plan, and so does the plan sent as an object. *)
Theorem transform_unwraps_plan :
  forall path plan,
    SPECIAL_PROMPTS (Text.last_segment path) <> Absent ->
    is_json plan = true -> typeof_object plan = true ->
    transformResponse path (reply_with (VStr (stringify plan))) = Ok plan
    /\ transformResponse path (reply_with plan) = Ok plan.
Proof.
  intros path plan Hr Hj Ho. unfold transformResponse.
  assert (E1 : forall content,
             get (reply_with content) "choices"
             = Ok (VArr [ VObj [ field "message"
                                   (VObj [ field "role" (VStr "assistant");
                                           field "content" content ]) ] ]))
    by reflexivity.
  destruct (SPECIAL_PROMPTS (Text.last_segment path)); try congruence;
    rewrite !E1; cbn [JS.bind truthy negb get0 item0];
    (split;
     [ change (get (VObj [field "message"
                       (VObj [field "role" (VStr "assistant");
                              field "content" (VStr (stringify plan))])])
                 "message")
         with (Ok (VObj [field "role" (VStr "assistant");
                         field "content" (VStr (stringify plan))]));
       cbn [JS.bind];
       change (get (VObj [field "role" (VStr "assistant");
                          field "content" (VStr (stringify plan))])
                 "content")
         with (Ok (VStr (stringify plan)));
       cbn [JS.bind typeof_object];
       rewrite (parse_any_text plan Hj); reflexivity
     | change (get (VObj [field "message"
                       (VObj [field "role" (VStr "assistant");
                              field "content" plan])])
                 "message")
         with (Ok (VObj [field "role" (VStr "assistant");
                         field "content" plan]));
       cbn [JS.bind];
       change (get (VObj [field "role" (VStr "assistant");
                          field "content" plan])
                 "content")
         with (Ok plan);
       cbn [JS.bind]; rewrite Ho; reflexivity ]).
Qed.

Lemma transform_unwraps_plan_witness :
  transformResponse "/v1/meal-plan"
    (reply_with (VStr (stringify sample_meal_plan))) = Ok sample_meal_plan
  /\ transformResponse "/v1/meal-plan" (reply_with sample_meal_plan)
     = Ok sample_meal_plan.
Proof.
  apply (transform_unwraps_plan "/v1/meal-plan" sample_meal_plan);
    [discriminate | reflexivity | reflexivity].
Defined.

End TranslatorFacts.

(** ** The body parser, the catch-all route and the error handler *)

Section CatchAllFacts.
Import JS Json Eff Combined Checks.

(** X15: A request body that is the text [JSON.stringify] writes for a
    JSON value, compact, with the keys in the order of the engine and the
    numbers as the engine prints them, reaches the upstream byte for byte
    when it is within the limit of the body parser and the request is no
    preflight: the parser reads it and the route serializes it again. *)
Theorem exchange_forwards_body :
  forall api_key requestId meth reqPath n v tr,
    Text.eqb meth "OPTIONS" = false ->
    (n <= CatchAll.TEXT_LIMIT)%nat ->
    is_json v = true ->
    option_map call_body
      (fst (CatchAll.exchange api_key requestId meth reqPath
              (CatchAll.JsonText n (stringify v)) tr))
    = Some (Some (stringify v)).
Proof.
  intros api_key requestId meth reqPath n v tr Hm Hn Hj.
  unfold CatchAll.exchange.
  rewrite (json_text_routed meth n (stringify v) v Hm Hn
             (stringify_nonempty v Hj) (parse_stringify v Hj)).
  cbn [fst option_map proxy_call call_body req_body].
  destruct v; try reflexivity. discriminate Hj.
Qed.

Lemma exchange_forwards_body_witness :
  option_map call_body
    (fst (CatchAll.exchange "key" "req-1" "POST" "/chat/completions"
            (CatchAll.JsonText 75 (stringify sample_meal_plan))
            [CatchAll.FetchRejects (Error "down")]))
  = Some (Some (stringify sample_meal_plan)).
Proof.
  apply (exchange_forwards_body "key" "req-1" "POST" "/chat/completions"
           75 sample_meal_plan [CatchAll.FetchRejects (Error "down")]).
  - reflexivity.
  - apply Nat.leb_le. reflexivity.
  - reflexivity.
Defined.



(** X17: A body that is an object and no text is handed to [JSON.parse] as
    well, which reads its string form and fails, or fails to convert it to
    a string when the object has a property [toString]: the request is
    answered with 400 and the message of that error, and no call is
    made. *)
Theorem serve_rejects_object_body :
  forall api_key meth reqPath fs o,
    serve api_key meth reqPath (VObj fs) o
    = (None,
       {| status := 400;
          sent := error_envelope
                    [ field "type" (VStr "parse_error");
                      field "message" (VStr "Invalid JSON in request body");
                      field "details"
                        (VStr (message
                                 (match lookup "toString" fs with
                                  | Some _ => not_primitive
                                  | None => syntax_error
                                  end))) ] |}).
Proof.
  intros api_key meth reqPath fs o.
  unfold serve, json_body_parser, parse_any. cbn [truthy negb to_string].
  destruct (lookup "toString" fs); reflexivity.
Qed.

(** X18: The global error handler never sends an empty message: it falls
    back to a fixed text. The catch block of the catch-all route sends the
    message of the error as it is, also when it is empty. *)
Theorem error_handler_message_never_empty :
  forall err,
    status (error_handler err) = 500%Z
    /\ own (own (sent (error_handler err)) "error") "message"
       = VStr (match message err with
               | [] => "An unexpected error occurred"
               | _ :: _ => message err
               end)
    /\ truthy (own (own (sent (error_handler err)) "error") "message") = true
    /\ own (own (sent (proxy_response (Rejected err))) "error") "message"
       = VStr (message err).
Proof.
  intro err. unfold error_handler, proxy_response, error_envelope, or_else.
  cbn [status sent]. split; [reflexivity|].
  destruct (message err) as [|c m]; repeat split.
Qed.

End CatchAllFacts.

(** ** The tracked variant: what the traces show *)

Section TrackedTraceFacts.
Import JS Eff Tracked TrackedChecks.

(** X19: When the fetch resolves and the body is read before any timer
    fires, the reply goes to the client with the status of the upstream,
    the abort timer is cleared, and nothing that happens later changes the
    state: no further response, no further log entry, no error. *)
Theorem tracked_success_is_final :
  forall req targetPath t1 upstream_status t2 data rest,
    let st := run req (init req targetPath)
                (FetchResolves t1 upstream_status
                   :: BodyResolves t2 data :: rest) in
    st = {| handler := Returned;
            abort_timer := Cleared;
            calls := [ {| at_site := SuccessSite;
                          status := upstream_status;
                          sent := data |} ];
            logs := logs (init req targetPath)
                      ++ [ Log (requestId req) "OPENAI_RESPONSE"
                             "OpenAI response received"
                             (VObj [ field "status"
                                       (VNum (int upstream_status));
                                     field "duration"
                                       (ms (t2 - startTime req));
                                     field "response" data ]) ];
            unhandled := [] |}.
Proof.
  intros req targetPath t1 upstream_status t2 data rest st. subst st.
  change (run req (init req targetPath)
            (FetchResolves t1 upstream_status :: BodyResolves t2 data :: rest))
    with (run req
            (run req (init req targetPath)
               [FetchResolves t1 upstream_status; BodyResolves t2 data])
            rest).
  rewrite quiet_run; [reflexivity | reflexivity | discriminate | discriminate].
Qed.

(** X20: When the fetch is rejected the abort timer stays armed, since the
    call that clears it follows the [await]: when the timer fires later it
    logs a fetch timeout for a request that was answered long before, and
    writes nothing. *)
Theorem tracked_timer_outlives_failure :
  forall req targetPath t e now,
    let st1 := step req (init req targetPath) (FetchRejects t e) in
    let st2 := step req st1 (AbortTimer now) in
    abort_timer st1 = Armed
    /\ handler st1 = Returned
    /\ abort_timer st2 = Fired
    /\ calls st2 = calls st1
    /\ List.length (calls st1) = 1%nat
    /\ logs st2
       = logs st1
           ++ [ Log (requestId req) "FETCH_TIMEOUT"
                  "OpenAI fetch request timeout reached"
                  (VObj [ field "duration" (ms (now - startTime req));
                          field "timeout" (seconds 120) ]) ].
Proof.
  intros req targetPath t e now.
  cbn [step init handler]. unfold catch_block.
  destruct (is_abort e); repeat split.
Qed.

Lemma error_body_shape msg details rid :
  Combined.error_shape (error_body msg "timeout_error" details rid) = true
  /\ Combined.error_shape (error_body msg "proxy_error" details rid) = true.
Proof. split; reflexivity. Qed.

Lemma error_body_request_id msg type details rid :
  own (own (error_body msg type details rid) "error") "requestId" = VStr rid.
Proof. reflexivity. Qed.

Lemma text_eqb_refl (s : text) : Text.eqb s s = true.
Proof.
  induction s as [|c r IH]; [reflexivity|].
  cbn [Text.eqb]. now rewrite Ascii.eqb_refl, IH.
Qed.

Lemma error_body_ok req site msg (type : text) details code :
  site <> SuccessSite ->
  (code = 504 \/ code = 500)%Z ->
  type = "timeout_error" \/ type = "proxy_error" ->
  error_write_ok req {| at_site := site; status := code;
                        sent := error_body msg type details
                                  (requestId req) |} = true.
Proof.
  intros Hs Hc Ht.
  unfold error_write_ok. cbn [at_site sent status].
  rewrite !error_body_request_id, text_eqb_refl.
  destruct (error_body_shape msg details (requestId req)) as [E1 E2].
  destruct Ht as [-> | ->]; rewrite ?E1, ?E2;
    destruct site; try congruence; destruct Hc as [-> | ->]; reflexivity.
Qed.


Lemma catch_write_ok req e : error_write_ok req (catch_write req e) = true.
Proof.
  unfold catch_write. destruct (is_abort e).
  - apply error_body_ok; [discriminate | now left | now left].
  - apply error_body_ok; [discriminate | now right | now right].
Qed.

Lemma step_error_writes req st ev :
  forallb (error_write_ok req) (calls st) = true ->
  forallb (error_write_ok req) (calls (step req st ev)) = true.
Proof.
  intro H.
  assert (Hc : forall now e st0,
             forallb (error_write_ok req) (calls st0) = true ->
             forallb (error_write_ok req)
               (calls (catch_block req now e st0)) = true).
  { intros now e st0 H0. rewrite catch_block_calls, forallb_app, H0.
    cbn [forallb andb]. now rewrite catch_write_ok. }
  destruct ev; cbn [step].
  - destruct (calls st) eqn:Ec; [|now rewrite Ec].
    unfold on_response_timeout, res_json. cbn [add_log calls fst].
    rewrite Ec. cbn [fst calls app forallb]. rewrite andb_true_r.
    apply error_body_ok; [discriminate | now left | now left].
  - destruct (abort_timer st); try exact H.
    unfold on_abort_timer. cbn [set_timer add_log handler].
    destruct (handler st); try exact H.
    apply Hc. exact H.
  - destruct (handler st); exact H.
  - destruct (handler st); try exact H. now apply Hc.
  - destruct (handler st); try exact H.
    unfold on_body, res_json. cbn [add_log calls].
    destruct (calls st) eqn:Ec.
    + reflexivity.
    + apply Hc. cbn [calls]. rewrite forallb_app.
      rewrite H. reflexivity.
  - destruct (handler st); try exact H. now apply Hc.
Qed.

(** X21: Whatever happens, in whatever order, every response the tracked
    variant writes that is not the reply of the upstream is an error body
    with message, type, code, details and the id of the request, at status
    504 or 500. *)
Theorem tracked_error_responses_shaped :
  forall req targetPath tr,
    forallb (error_write_ok req) (calls (run req (init req targetPath) tr))
    = true.
Proof.
  intros req targetPath tr.
  assert (H : forall st,
             forallb (error_write_ok req) (calls st) = true ->
             forallb (error_write_ok req) (calls (run req st tr)) = true).
  { induction tr as [|ev tr IH]; intros st Hst; [exact Hst|].
    change (run req st (ev :: tr)) with (run req (step req st ev) tr).
    apply IH. now apply step_error_writes. }
  apply H. reflexivity.
Qed.

(** X22: Once the fetch has resolved the abort timer is cleared: while the
    body is read, the timer does nothing, and the server-level timeout
    answers with 504 but leaves the handler waiting for the body. *)
Theorem tracked_body_read_is_not_aborted :
  forall req targetPath t1 upstream_status now,
    let st1 := step req (init req targetPath)
                 (FetchResolves t1 upstream_status) in
    step req st1 (AbortTimer now) = st1
    /\ handler (step req st1 (ResponseTimeout now))
       = AwaitBody upstream_status
    /\ option_map status (delivered (step req st1 (ResponseTimeout now)))
       = Some 504%Z.
Proof. intros. repeat split. Qed.

End TrackedTraceFacts.

(** ** The validating and the plain route *)

Section RouteFacts.
Import JS Json Routes Checks.

Lemma respond_verdict upstream_status dataText :
  Validating.respond upstream_status dataText
  = if passes dataText then Validating.Raw upstream_status dataText
    else invalid_response.
Proof.
  unfold Validating.respond, Validating.reply_data, passes, has_choices,
    Validating.reply_invalid.
  destruct (Json.parse dataText) as [data|e].
  - destruct data as [| |b|n|s|l|fs]; try reflexivity.
    + now destruct b.
    + cbn [truthy]. now destruct (negb (mant n =? 0)%Z).
    + now destruct s.
    + cbn [truthy negb get JS.bind].
      destruct (own (VObj fs) "choices") as [| |b|n|s|l|fs'];
        try reflexivity.
      * now destruct b.
      * cbn [truthy]. now destruct (negb (mant n =? 0)%Z).
      * now destruct s.
      * now destruct l.
  - now destruct dataText.
Qed.

Lemma validating_handle_cases api_key req o :
    validating_handle api_key req o
    = if isArray (own (body req) "messages") then
        (Some (forward_call api_key req),
         match o with
         | Resolved upstream_status (Ok dataText) =>
             if passes dataText
             then Validating.Raw upstream_status dataText
             else invalid_response
         | _ => something_went_wrong
         end)
      else (None, messages_required).
Proof.
  unfold validating_handle, request_invalid.
  destruct (isArray (own (body req) "messages")) eqn:Ea.
  - assert (Ht : truthy (body req) = true).
    { destruct (body req); try discriminate Ea. reflexivity. }
    rewrite Ht. cbn [negb orb].
    destruct o as [e|st [t|e]]; try reflexivity.
    now rewrite respond_verdict.
  - now rewrite orb_true_r.
Qed.

(** X23: The validating route, whole: a request whose body has no array
    [messages] is answered with 400 and no call is made, whatever else it
    holds; otherwise the call is made, and the reply text goes back
    unchanged under the status of the upstream exactly when it is JSON with
    an array of choices that is not empty; any other reply, also one that
    is no JSON, is answered with the 500 of the reply check, and only a
    failed call with the 500 of the catch block. *)
Theorem validating_route_verdict :
  forall api_key req o,
    validating_handle api_key req o
    = if isArray (own (body req) "messages") then
        (Some (forward_call api_key req),
         match o with
         | Resolved upstream_status (Ok dataText) =>
             if passes dataText
             then Validating.Raw upstream_status dataText
             else invalid_response
         | _ => something_went_wrong
         end)
      else (None, messages_required).
Proof. intros. apply validating_handle_cases. Qed.

(** X24: What the validating route passes on is what the plain route gives
    for the same request, after the same call. *)
Theorem validating_refines_plain :
  forall api_key req o upstream_status dataText,
    snd (validating_handle api_key req o)
    = Validating.Raw upstream_status dataText ->
    plain_respond o = Validating.Raw upstream_status dataText
    /\ fst (validating_handle api_key req o)
       = Some (forward_call api_key req)
    /\ passes dataText = true.
Proof.
  intros api_key req o st t. rewrite validating_handle_cases.
  destruct (isArray (own (body req) "messages")); [|discriminate].
  cbn [fst snd].
  destruct o as [e|st' [t'|e]]; try discriminate.
  destruct (passes t') eqn:Ep; [|discriminate].
  intros [= -> ->]. now rewrite Ep.
Qed.

Lemma validating_refines_plain_witness :
  plain_respond
    (Resolved 200 (Ok (stringify (Combined.reply_with (VStr "Hi")))))
  = Validating.Raw 200 (stringify (Combined.reply_with (VStr "Hi")))
  /\ fst (validating_handle "key"
            {| method := "POST";
               originalUrl := "/openai/v1/chat/completions";
               body := VObj [ (("messages" : text), VArr []) ] |}
            (Resolved 200
               (Ok (stringify (Combined.reply_with (VStr "Hi"))))))
     = Some (forward_call "key"
               {| method := "POST";
                  originalUrl := "/openai/v1/chat/completions";
                  body := VObj [ (("messages" : text), VArr []) ] |})
  /\ passes (stringify (Combined.reply_with (VStr "Hi"))) = true.
Proof.
  apply (validating_refines_plain "key"
           {| method := "POST";
              originalUrl := "/openai/v1/chat/completions";
              body := VObj [ (("messages" : text), VArr []) ] |}
           (Resolved 200 (Ok (stringify (Combined.reply_with (VStr "Hi")))))
           200 (stringify (Combined.reply_with (VStr "Hi")))).
  reflexivity.
Defined.




End RouteFacts.

(** ** The route of index.js beside the tracked variant *)

Section SimpleFacts.
Import JS Json Routes Tracked Checks.

(** X26: When no timer fires before the upstream call has ended, the
    tracked variant answers as the route of [index.js] does: the same
    status, the same body for a reply, and for a failure the same error
    body with the id of the request added; the call it makes is the same.
    What happens afterwards changes nothing of it. *)
Theorem tracked_agrees_with_simple :
  forall api_key req targetPath now o rest,
    match error_of o with
    | Some e => is_abort e = false
    | None => True
    end ->
    let st := run req (init req targetPath) (events_of now o ++ rest) in
    let r := simple_respond o in
    (exists w,
       calls st = [w]
       /\ status w = Combined.status r
       /\ match error_of o with
          | None => sent w = Combined.sent r
          | Some e =>
              sent w = error_body "Failed to process OpenAI request"
                         "proxy_error" (message e) (requestId req)
              /\ forall p,
                   Text.eqb p "requestId" = false ->
                   own (own (sent w) "error") p
                   = own (own (Combined.sent r) "error") p
          end)
    /\ Tracked.url (fetch_call api_key req targetPath)
       = Routes.url (simple_call api_key targetPath (reqBody req))
    /\ Tracked.authorization (fetch_call api_key req targetPath)
       = Routes.authorization
           (simple_call api_key targetPath (reqBody req))
    /\ Tracked.call_body (fetch_call api_key req targetPath)
       = Routes.call_body (simple_call api_key targetPath (reqBody req)).
Proof.
  intros api_key req targetPath now o rest Hab st r. subst st r.
  split; [|repeat split].
  rewrite run_app.
  assert (Hfail : forall p msg type details rid,
             Text.eqb p "requestId" = false ->
             own (own (error_body msg type details rid) "error") p
             = own (own (VObj [ Combined.field "error"
                                  (VObj [ Combined.field "message" (VStr msg);
                                          Combined.field "type" (VStr type);
                                          Combined.field "code" (VStr type);
                                          Combined.field "details"
                                            (VStr details) ]) ])
                      "error") p).
  { intros p msg type details rid Hp.
    change (own (error_body msg type details rid) "error")
      with (VObj [ field "message" (VStr msg); field "type" (VStr type);
                   field "code" (VStr type); field "details" (VStr details);
                   field "requestId" (VStr rid) ]).
    change (own (VObj [ Combined.field "error"
                          (VObj [ Combined.field "message" (VStr msg);
                                  Combined.field "type" (VStr type);
                                  Combined.field "code" (VStr type);
                                  Combined.field "details"
                                    (VStr details) ]) ]) "error")
      with (VObj [ field "message" (VStr msg); field "type" (VStr type);
                   field "code" (VStr type); field "details" (VStr details) ]).
    unfold field. cbn [own lookup]. rewrite Hp. reflexivity. }
  destruct o as [e | upstream_status [data | e]]; cbn [error_of] in Hab |- *.
  - rewrite settled_run.
    + cbn [events_of run fold_left step init handler].
      unfold catch_block. rewrite Hab.
      eexists. split; [reflexivity|]. split; [reflexivity|].
      split; [reflexivity|]. intros p Hp. now apply Hfail.
    + cbn [events_of run fold_left step init handler].
      unfold catch_block. now rewrite Hab.
    + cbn [events_of run fold_left step init handler].
      unfold catch_block. rewrite Hab. discriminate.
  - rewrite settled_run; [|reflexivity|discriminate].
    eexists. repeat split.
  - rewrite settled_run.
    + cbn [events_of run fold_left step init handler set_handler set_timer].
      unfold catch_block. rewrite Hab.
      eexists. split; [reflexivity|]. split; [reflexivity|].
      split; [reflexivity|]. intros p Hp. now apply Hfail.
    + cbn [events_of run fold_left step init handler set_handler set_timer].
      unfold catch_block. now rewrite Hab.
    + cbn [events_of run fold_left step init handler set_handler set_timer].
      unfold catch_block. rewrite Hab. discriminate.
Qed.

Lemma tracked_agrees_with_simple_witness :
  exists w,
    calls (run sample_request (init sample_request "chat/completions")
             (events_of 50 (Combined.Rejected (FetchError "ECONNREFUSED"))
                ++ [AbortTimer 120000; ResponseTimeout 120001]))
    = [w]
    /\ status w = 500%Z.
Proof.
  destruct (proj1 (tracked_agrees_with_simple "key" sample_request
                     "chat/completions" 50
                     (Combined.Rejected (FetchError "ECONNREFUSED"))
                     [AbortTimer 120000; ResponseTimeout 120001] eq_refl))
    as (w & E & Hs & _).
  exists w. split; [exact E | exact Hs].
Defined.

End SimpleFacts.

(** ** The check of the test script *)

Section TestScriptFacts.
Import JS Json Combined TestProxy Checks.

Lemma missing_none expectedFields data f :
  missing_fields expectedFields data = [] ->
  In f expectedFields -> has_in f data = true.
Proof.
  unfold missing_fields. induction expectedFields as [|x r IH];
    cbn [filter In]; [tauto|].
  destruct (has_in x data) eqn:E; cbn [negb].
  - intros H [<- | Hin]; [exact E | now apply IH].
  - discriminate.
Qed.

(** X27: What the test script accepts when it asks for [choices]: an object
    whose [choices] is an array that is not empty, which is a reply the
    validating route passes on as well. The check returns nothing but
    [true]. *)
Theorem test_check_accepts_choices :
  forall data expectedFields testName b,
    In ("choices" : text) expectedFields ->
    validateResponse data expectedFields testName = Ok b ->
    b = VBool true
    /\ has_choices (VObj data) = true
    /\ Validating.reply_invalid (VObj data) = Ok false.
Proof.
  intros data expectedFields testName b Hin. unfold validateResponse.
  destruct (missing_fields expectedFields data) eqn:Em; [|discriminate].
  rewrite (missing_none expectedFields data "choices" Em Hin).
  unfold has_choices, Validating.reply_invalid.
  cbn [truthy negb get JS.bind].
  destruct (own (VObj data) "choices") as [| |b0|n|s|l|fs]; try discriminate.
  destruct l as [|first l]; [discriminate|].
  cbn [truthy negb]. intro H. split; [|split; reflexivity].
  match type of H with
  | (if ?c then _ else _) = _ => destruct c
  end.
  - destruct (check_plan_content _); cbn [JS.bind] in H;
      [now inversion H | discriminate H].
  - now inversion H.
Qed.

Lemma test_check_accepts_choices_witness :
  VBool true = VBool true
  /\ has_choices (reply_with (VStr "Hello")) = true
  /\ Validating.reply_invalid (reply_with (VStr "Hello")) = Ok false.
Proof.
  apply (test_check_accepts_choices
           [ field "id" (VStr "chatcmpl-1");
             field "choices"
               (VArr [ VObj [ field "message"
                                (VObj [ field "role" (VStr "assistant");
                                        field "content"
                                          (VStr "Hello") ]) ] ]) ]
           [ "choices" : text ] "Chat" (VBool true)).
  - left. reflexivity.
  - reflexivity.
Defined.

Lemma check_collection_ok parsed name not_array empty u :
  check_collection parsed name not_array empty = Ok u ->
  collection_ok (own parsed name) = true.
Proof.
  unfold check_collection, collection_ok.
  destruct (get parsed name) as [v|e] eqn:Eg; [|discriminate].
  apply get_own in Eg. subst v. cbn [JS.bind].
  destruct (truthy (own parsed name)); [|reflexivity].
  destruct (own parsed name) as [| |b|n|s|l|fs]; try discriminate.
  destruct l; [discriminate | reflexivity].
Qed.

(** X28: A plan that passes both the plan check of the validator and the
    content check of the test script has a name, a description and an array
    of days that is not empty; its meals, when it has any, are an array
    that is not empty. *)
Theorem plan_accepted_by_both_checks :
  forall content u1 u2,
    plan_check content = Ok u1 ->
    check_plan_content content = Ok u2 ->
    exists parsed day days,
      (if typeof_object content then Ok content
       else Json.parse_any content) = Ok parsed
      /\ truthy (own parsed "name") = true
      /\ truthy (own parsed "description") = true
      /\ own parsed "days" = VArr (day :: days)
      /\ collection_ok (own parsed "meals") = true.
Proof.
  intros content u1 u2. unfold plan_check, check_plan_content, JS.try_catch.
  destruct (if typeof_object content then Ok content
            else Json.parse_any content) as [parsed|e]; [|discriminate].
  cbn [JS.bind].
  destruct (get parsed "name") as [name|e] eqn:En; [|discriminate].
  apply get_own in En. subst name. cbn [JS.bind].
  destruct (truthy (own parsed "name")) eqn:Hn; [|discriminate].
  cbn [negb].
  destruct (get parsed "description") as [d|e] eqn:Ed; [|discriminate].
  apply get_own in Ed. subst d. cbn [JS.bind].
  destruct (truthy (own parsed "description")) eqn:Hd; [|discriminate].
  cbn [negb].
  destruct (get parsed "days") as [d|e] eqn:Edays; [|discriminate].
  apply get_own in Edays. subst d. cbn [JS.bind].
  destruct (truthy (own parsed "days")) eqn:Hdays; [|discriminate].
  intros _.
  destruct (check_collection parsed "days" _ _) as [[]|e] eqn:E1;
    [|discriminate].
  cbn [JS.bind].
  destruct (check_collection parsed "meals" _ _) as [[]|e] eqn:E2;
    [|discriminate].
  intros _.
  apply check_collection_ok in E1, E2.
  unfold collection_ok in E1. rewrite Hdays in E1. cbn [negb orb] in E1.
  destruct (own parsed "days") as [| |b|n|s|l|fs] eqn:Eown;
    try discriminate E1.
  destruct l as [|day days]; [discriminate E1|].
  exists parsed, day, days. repeat split; assumption.
Qed.

Lemma plan_accepted_by_both_checks_witness :
  exists parsed day days,
    (if typeof_object (VStr (stringify sample_workout_plan))
     then Ok (VStr (stringify sample_workout_plan))
     else Json.parse_any (VStr (stringify sample_workout_plan))) = Ok parsed
    /\ truthy (own parsed "name") = true
    /\ truthy (own parsed "description") = true
    /\ own parsed "days" = VArr (day :: days)
    /\ collection_ok (own parsed "meals") = true.
Proof.
  apply (plan_accepted_by_both_checks
           (VStr (stringify sample_workout_plan)) tt tt); reflexivity.
Defined.

End TestScriptFacts.
